(** * chromium-session: the command-line layer and the session core

    The first part embeds [src/chromium_session/cli.py]: profile
    selection, the listing of session files, the commands [parse],
    [summary], [workspaces] and [list], and the two displays of a parsed
    result. What the commands print goes through rich, which reads every
    text as console markup and raises on markup it cannot render.

    The second part models the binary decoder and the replay engine of
    [parser.py] from the design document. *)

From Stdlib Require Import List String Ascii ZArith Bool Lia Arith.
From Stdlib Require Import DecimalString.
From Stdlib Require Import Sorting.Sorted Sorting.Permutation.
Import ListNotations.

Set Implicit Arguments.
Set Warnings "-register-all".

(* ===================================================================== *)
(** ** Python values and exceptions *)
(* ===================================================================== *)

Module Py.

Open Scope string_scope.

(** The exceptions the modelled code can meet. [Exit] is [typer.Exit],
    [MarkupError] and [NotRenderableError] are those of [rich.errors];
    all are subclasses of [Exception]. [Raised] stands for any other
    subclass, named by its message. *)
Inductive exn : Type :=
| KeyError (key : string)
| TypeError
| AttributeError
| IndexError
| Exit (code : Z)
| MarkupError (msg : string)
| NotRenderableError (msg : string)
| Raised (msg : string).

(** A computation that returns or raises. *)
Definition result (A : Type) : Type := (exn + A)%type.

Definition ret {A} (a : A) : result A := inr a.
Definition raise {A} (e : exn) : result A := inl e.
Definition bind {A B} (c : result A) (k : A -> result B) : result B :=
  match c with
  | inl e => inl e
  | inr a => k a
  end.

Notation "x <- c ;; k" := (bind c (fun x => k))
  (at level 61, c at next level, right associativity).

(** A computation that prints as it goes: what it printed, in order, and
    what it returned or raised. What was printed before an exception
    stays printed. *)
Definition out (O A : Type) : Type := (list O * result A)%type.

Definition quiet {O A} (r : result A) : out O A := ([], r).
Definition emit {O} (o : O) : out O unit := ([o], inr tt).

(** [c] after [printed] was printed. *)
Definition after {O A} (printed : list O) (c : out O A) : out O A :=
  ((printed ++ fst c)%list, snd c).

Definition and_then {O A B} (c : out O A) (k : A -> out O B) : out O B :=
  match snd c with
  | inl e => (fst c, inl e)
  | inr a => after (fst c) (k a)
  end.

Notation "x <~ c ;; k" := (and_then c (fun x => k))
  (at level 61, c at next level, right associativity).

(** [c] with every printed item seen through [f]. *)
Definition relay {O O' A} (f : O -> O') (c : out O A) : out O' A :=
  (map f (fst c), snd c).

(** [try: c / except Exception as e: handler(e)]. *)
Definition try_except {O A} (c : out O A) (handler : exn -> out O A)
  : out O A :=
  match snd c with
  | inl e => after (fst c) (handler e)
  | inr _ => c
  end.

(** [for x in l: body] for a body that prints, may raise, and changes a
    state: the loop stops at the first exception. *)
Fixpoint for_out {A S O} (body : A -> S -> out O unit * S) (l : list A)
    (s : S) : out O unit * S :=
  match l with
  | [] => (quiet (ret tt), s)
  | x :: l' =>
      let (turn, s') := body x s in
      match snd turn with
      | inl e => (turn, s')
      | inr _ =>
          let (rest, s'') := for_out body l' s' in
          (after (fst turn) rest, s'')
      end
  end.

(** The values a parsed result is made of: what [json.dumps] accepts.
    A dict is an association list in insertion order. A [str] stands as
    its UTF-8 encoding, so that one character is one byte or one lead
    byte followed by continuation bytes. *)
Inductive value : Type :=
| VNone
| VBool (b : bool)
| VInt (z : Z)
| VStr (s : string)
| VList (l : list value)
| VDict (d : list (string * value)).

(** Truth value of an object, as [if v:] and [v or w] test it. *)
Definition truthy (v : value) : bool :=
  match v with
  | VNone => false
  | VBool b => b
  | VInt z => negb (z =? 0)%Z
  | VStr s => negb (s =? "")
  | VList l => match l with [] => false | _ => true end
  | VDict d => match d with [] => false | _ => true end
  end.

Fixpoint lookup (key : string) (d : list (string * value)) : option value :=
  match d with
  | [] => None
  | (k, v) :: d' => if k =? key then Some v else lookup key d'
  end.

(** [v[key]] for a string key. *)
Definition getitem (v : value) (key : string) : result value :=
  match v with
  | VDict d =>
      match lookup key d with
      | Some x => ret x
      | None => raise (KeyError key)
      end
  | _ => raise TypeError
  end.

(** [v.get(key)]: [None] for a missing key; only a dict has the method. *)
Definition get (v : value) (key : string) : result value :=
  match v with
  | VDict d =>
      match lookup key d with
      | Some x => ret x
      | None => ret VNone
      end
  | _ => raise AttributeError
  end.

(** [d[key] = x] on an association list: an existing key keeps its
    place, a new key goes last. *)
Fixpoint assoc_set (key : string) (x : value) (d : list (string * value))
  : list (string * value) :=
  match d with
  | [] => [(key, x)]
  | (k, v) :: d' =>
      if k =? key then (k, x) :: d' else (k, v) :: assoc_set key x d'
  end.

Definition setitem (v : value) (key : string) (x : value) : result value :=
  match v with
  | VDict d => ret (VDict (assoc_set key x d))
  | _ => raise TypeError
  end.

(** A continuation byte of UTF-8, [10xxxxxx]: every byte of a character
    but its first. *)
Definition continuation (c : ascii) : bool :=
  match c with Ascii _ _ _ _ _ _ b6 b7 => b7 && negb b6 end.

(** [len(s)] of a [str]: its characters, not its bytes. *)
Fixpoint str_len (s : string) : nat :=
  match s with
  | EmptyString => 0
  | String c s' => if continuation c then str_len s' else S (str_len s')
  end.

(** [s[:n]] of a [str] for [n] from 0 up: its first [n] characters, each
    with all its bytes. *)
Fixpoint str_take (n : nat) (s : string) : string :=
  match s with
  | EmptyString => EmptyString
  | String c s' =>
      if continuation c then String c (str_take n s')
      else match n with
           | 0 => EmptyString
           | S n' => String c (str_take n' s')
           end
  end.

(** The characters of a [str], each with all its bytes. *)
Fixpoint code_points (s : string) : list string :=
  match s with
  | EmptyString => []
  | String c s' =>
      let rest := code_points s' in
      match s' with
      | EmptyString => [String c EmptyString]
      | String d _ =>
          if continuation d then
            match rest with
            | x :: rest' => String c x :: rest'
            | [] => [String c EmptyString]
            end
          else String c EmptyString :: rest
      end
  end.

Definition chars (s : string) : list value := map VStr (code_points s).

(** [for x in v]: the elements of a list, the keys of a dict, the
    characters of a string. *)
Definition iter (v : value) : result (list value) :=
  match v with
  | VList l => ret l
  | VDict d => ret (map (fun kv => VStr (fst kv)) d)
  | VStr s => ret (chars s)
  | _ => raise TypeError
  end.

(** [len(v)]. *)
Definition len (v : value) : result nat :=
  match v with
  | VStr s => ret (str_len s)
  | VList l => ret (List.length l)
  | VDict d => ret (List.length d)
  | _ => raise TypeError
  end.

(** [str(n)] of a number that is not negative. *)
Definition str_nat (n : nat) : string :=
  NilEmpty.string_of_uint (Nat.to_uint n).

(** Hashable values: what may key a dict. *)
Definition hashable (v : value) : bool :=
  match v with
  | VList _ | VDict _ => false
  | _ => true
  end.

(** Equality of dict keys. [True == 1] and [False == 0] in Python. *)
Definition key_eqb (a b : value) : bool :=
  match a, b with
  | VNone, VNone => true
  | VStr s, VStr t => s =? t
  | VInt x, VInt y => (x =? y)%Z
  | VBool x, VBool y => Bool.eqb x y
  | VBool x, VInt y | VInt y, VBool x => ((if x then 1 else 0) =? y)%Z
  | _, _ => false
  end.

(** A loop whose body may raise: [for x in l: acc = body(acc, x)]. *)
Fixpoint for_each {A S} (body : S -> A -> result S) (l : list A) (acc : S)
  : result S :=
  match l with
  | [] => ret acc
  | x :: l' => acc' <- body acc x ;; for_each body l' acc'
  end.

End Py.
(* ===================================================================== *)
(** ** cli.py *)
(* ===================================================================== *)

Module Cli.

Import Py.
Open Scope string_scope.

Definition Path := string.

(** [browsers.BrowserProfile] and [browsers.Browser], with the attributes
    cli.py reads. *)
Record BrowserProfile : Type := {
  name : string;
  path : Path;
  has_sessions : bool;
  sessions_path : Path
}.

Record Browser : Type := {
  browser_id : string;
  browser_name : string;
  profiles : list BrowserProfile
}.

(** [needle in hay] on strings. *)
Fixpoint str_in (needle hay : string) : bool :=
  if String.prefix needle hay then true
  else match hay with
       | EmptyString => false
       | String _ hay' => str_in needle hay'
       end.

(** [if profile_name:] holds for a string that is neither [None] nor
    empty. *)
Definition name_given (profile_name : option string) : option string :=
  match profile_name with
  | Some n => if n =? "" then None else Some n
  | None => None
  end.

Section Selection.

(** [str.lower]; the case mapping is Python's, taken as given. *)
Variable lower : string -> string.

Definition exact_match (n : string) (p : BrowserProfile) : bool :=
  name p =? n.

Definition partial_match (n : string) (p : BrowserProfile) : bool :=
  str_in (lower n) (lower (name p)).

(** cli.py, [get_selected_profile]. A [for p in ...: if t(p): return p]
    is [find t]. *)
Definition get_selected_profile (browser : Browser)
    (profile_name : option string) : option BrowserProfile :=
  match profiles browser with
  | [] => None
  | first :: _ =>
      let by_sessions :=
        match find has_sessions (profiles browser) with
        | Some p => Some p
        | None => Some first
        end in
      match name_given profile_name with
      | Some n =>
          match find (exact_match n) (profiles browser) with
          | Some p => Some p
          | None =>
              match find (partial_match n) (profiles browser) with
              | Some p => Some p
              | None => by_sessions
              end
          end
      | None => by_sessions
      end
  end.

End Selection.

(** [p] is the first element of [l] that passes [test]. *)
Definition first_match {A} (test : A -> bool) (l : list A) (p : A) : Prop :=
  exists before after,
    l = (before ++ p :: after)%list /\ test p = true /\
    Forall (fun q => test q = false) before.

(** No usable name: none was passed, or the empty one, or one that no
    profile matches, exactly or in part. *)
Definition no_name_match (lower : string -> string) (b : Browser)
    (profile_name : option string) : Prop :=
  profile_name = None \/ profile_name = Some "" \/
  exists n, profile_name = Some n /\
    forall q, In q (profiles b) ->
      exact_match n q = false /\ partial_match lower n q = false.


(** ASCII case folding, an instance of [lower] to run examples with. *)
Definition ascii_lower (c : ascii) : ascii :=
  let n := nat_of_ascii c in
  if (65 <=? n)%nat && (n <=? 90)%nat then ascii_of_nat (n + 32) else c.

Fixpoint lower_ascii (s : string) : string :=
  match s with
  | EmptyString => EmptyString
  | String c s' => String (ascii_lower c) (lower_ascii s')
  end.

(** *** Listing session files *)

(** A glob pattern in which [*] stands for any run of characters. *)
Fixpoint glob_match (pattern file_name : string) : bool :=
  match pattern with
  | EmptyString =>
      match file_name with EmptyString => true | _ => false end
  | String c pattern' =>
      if Ascii.eqb c "*" then
        (fix star (rest : string) : bool :=
           glob_match pattern' rest
           || match rest with
              | EmptyString => false
              | String _ rest' => star rest'
              end) file_name
      else
        match file_name with
        | EmptyString => false
        | String d file_name' => Ascii.eqb c d && glob_match pattern' file_name'
        end
  end.

Definition session_patterns : list string :=
  ["Session_*"; "Tabs_*"; "Current Session"; "Current Tabs"].

(** [sorted(l, key=..., reverse=True)] on items already paired with
    their keys: a stable sort, largest key first. Among equal keys the
    earlier item stays first, also under [reverse=True]. *)
Fixpoint insert_desc {A} (x : A * Z) (l : list (A * Z)) : list (A * Z) :=
  match l with
  | [] => [x]
  | y :: l' =>
      if (snd y <=? snd x)%Z then x :: y :: l' else y :: insert_desc x l'
  end.

Definition sorted_reverse {A} (l : list (A * Z)) : list (A * Z) :=
  fold_right insert_desc [] l.

(** Largest key first. *)
Definition key_desc {A} (a b : A * Z) : Prop := (snd b <= snd a)%Z.

(** [for x in l: ys.append(f(x))] where [f] may raise. *)
Fixpoint map_result {A B} (f : A -> result B) (l : list A) : result (list B) :=
  match l with
  | [] => ret []
  | x :: l' => y <- f x ;; ys <- map_result f l' ;; ret (y :: ys)
  end.
(** The special characters of a glob pattern, as pathlib tests for them
    ([_is_wildcard_pattern]). Of these only [*] occurs in the patterns of
    cli.py, and only [*] is interpreted by [glob_match]. *)
Definition is_wildcard_pattern (pattern : string) : bool :=
  str_in "*" pattern || str_in "?" pattern || str_in "[" pattern.

Section Files.

(** The file system cli.py looks at: whether a path is a directory,
    whether a path exists (a link that leads nowhere does not), the entry
    names of a directory in the order the system lists them, and
    [stat().st_mtime] of a path, which raises for a path that does not
    exist. A time stamp is a float in Python; it stands here as an
    integer that orders the same way. *)
Variable is_dir : Path -> bool.
Variable path_exists : Path -> bool.
Variable scandir : Path -> list string.
Variable stat_mtime : Path -> result Z.

Definition joinpath (dir : Path) (file_name : string) : Path :=
  dir ++ "/" ++ file_name.

(** [sessions_dir.glob(pattern)] for a pattern of one part, as pathlib
    does it on Python 3.11: nothing when [dir] is no directory; a
    pattern with a special character is matched against the names of the
    entries; a literal pattern names one path, which is found when it
    exists. *)
Definition glob (dir : Path) (pattern : string) : list Path :=
  if is_dir dir then
    if is_wildcard_pattern pattern then
      map (joinpath dir) (filter (glob_match pattern) (scandir dir))
    else if path_exists (joinpath dir pattern) then [joinpath dir pattern]
    else []
  else [].

Definition with_mtime (f : Path) : result (Path * Z) :=
  m <- stat_mtime f ;; ret (f, m).

(** cli.py, [list_session_files]. [sorted] computes every key before it
    compares any. *)
Definition list_session_files (sessions_dir : Path) : result (list Path) :=
  let files := flat_map (glob sessions_dir) session_patterns in
  keyed <- map_result with_mtime files ;;
  ret (map fst (sorted_reverse keyed)).

End Files.

(** *** What cli.py takes from the interpreter and from rich *)

(** The library behaviour the code depends on and does not define:
    - [markup_error text]: rich renders every text it prints as console
      markup; [None] when [text] renders, and the message of the
      [MarkupError] it raises otherwise (a closing tag that matches no
      open tag, for one);
    - [str_exn e]: [str(e)], the text of an exception;
    - [str_value v]: [str(v)] of a value that is not a string;
    - [slice_of_dict]: the exception [d[:60]] raises for a dict [d]
      ([TypeError] before Python 3.12, [KeyError] from then on);
    - [path_name f]: [f.name], the last component of a path. *)
Record Runtime : Type := {
  markup_error : string -> option string;
  str_exn : exn -> string;
  str_value : value -> string;
  slice_of_dict : exn;
  path_name : Path -> string
}.

(** [f"{v}"]: a string as it is, anything else by [str]. *)
Definition format (h : Runtime) (v : value) : string :=
  match v with
  | VStr s => s
  | _ => str_value h v
  end.

(** The complaint about the first of [texts] that does not render. *)
Fixpoint first_error (h : Runtime) (texts : list string) : option string :=
  match texts with
  | [] => None
  | text :: texts' =>
      match markup_error h text with
      | Some msg => Some msg
      | None => first_error h texts'
      end
  end.

(** [console.print(o)] for an object [o] that carries the texts [texts],
    in the order rich renders them. The object is rendered whole before
    anything is written: it is printed, or the first text that is not
    well-formed markup raises and nothing of [o] is printed. Texts made
    of constants and numbers only always render and are not listed. *)
Definition console_print {O} (h : Runtime) (texts : list string) (o : O)
  : out O unit :=
  match first_error h texts with
  | Some msg => quiet (raise (MarkupError msg))
  | None => emit o
  end.

(** *** Readers of a parsed result *)

(** The tally [summary] keeps while it walks a result. *)
Record Tally : Type := {
  total_tabs : nat;
  deleted_tabs : nat;
  ws_counts : list (value * Z)
}.

(** [ws_counts.get(k, 0)]; hashing an unhashable key raises. *)
Fixpoint counts_get (k : value) (d : list (value * Z)) : Z :=
  match d with
  | [] => 0%Z
  | (k', n) :: d' => if key_eqb k' k then n else counts_get k d'
  end.

Fixpoint counts_set (k : value) (n : Z) (d : list (value * Z))
  : list (value * Z) :=
  match d with
  | [] => [(k, n)]
  | (k', m) :: d' =>
      if key_eqb k' k then (k', n) :: d' else (k', m) :: counts_set k n d'
  end.

(** [tab.get("workspace") or "No Workspace"]. *)
Definition workspace_label (tab : value) : result value :=
  w <- get tab "workspace" ;;
  ret (if truthy w then w else VStr "No Workspace").

(** cli.py, [summary], lines 292-297: the body of the loop over tabs. *)
Definition tally_tab (t : Tally) (tab : value) : result Tally :=
  let total := S (total_tabs t) in
  d <- getitem tab "deleted" ;;
  let deleted := if truthy d then S (deleted_tabs t) else deleted_tabs t in
  ws_name <- workspace_label tab ;;
  if hashable ws_name then
    ret {| total_tabs := total;
           deleted_tabs := deleted;
           ws_counts :=
             counts_set ws_name (counts_get ws_name (ws_counts t) + 1)
                        (ws_counts t) |}
  else raise TypeError.

Definition tally_window (t : Tally) (window : value) : result Tally :=
  tabs <- getitem window "tabs" ;;
  tabs <- iter tabs ;;
  for_each tally_tab tabs t.

(** cli.py, [summary], lines 287-297. *)
Definition summary_tally (result : value) : Py.result Tally :=
  windows <- getitem result "windows" ;;
  windows <- iter windows ;;
  for_each tally_window windows
    {| total_tabs := 0; deleted_tabs := 0; ws_counts := [] |}.

(** What [display_by_window] prints: one tree per window shown, one row
    per tab shown. The pieces of each label are kept apart; [row_label]
    puts them together. *)
Inductive Status : Type := NoStatus | StatusActive | StatusDeleted.

Record Row : Type := {
  row_active : bool;
  row_title : value;
  row_workspace : option value;
  row_deleted : bool
}.

Record Tree : Type := {
  tree_number : nat;
  tree_status : Status;
  tree_tab_count : nat;
  tree_rows : list Row
}.

(** [title[:60] + "..." if len(title) > 60 else title]. A list can be
    sliced but not joined to a string; a dict cannot be sliced. *)
Definition shorten (h : Runtime) (title : value) : result value :=
  n <- len title ;;
  if (60 <? n)%nat then
    match title with
    | VStr s => ret (VStr (str_take 60 s ++ "..."))
    | VDict _ => raise (slice_of_dict h)
    | _ => raise TypeError
    end
  else ret title.

(** cli.py, [display_by_window], lines 415-423. A tab that is skipped
    yields no row. *)
Definition window_row (h : Runtime) (show_deleted : bool) (tab : value)
  : result (option Row) :=
  d <- getitem tab "deleted" ;;
  if truthy d && negb show_deleted then ret None
  else
    t <- getitem tab "title" ;;
    title <- shorten h t ;;
    a <- getitem tab "active" ;;
    w <- get tab "workspace" ;;
    ws <- (if truthy w then (x <- getitem tab "workspace" ;; ret (Some x))
           else ret None) ;;
    d' <- getitem tab "deleted" ;;
    ret (Some {| row_active := truthy a;
                 row_title := title;
                 row_workspace := ws;
                 row_deleted := truthy d' |}).

(** [sum(1 for t in tabs if not t["deleted"] or show_deleted)]. *)
Definition count_tab (show_deleted : bool) (n : nat) (tab : value)
  : result nat :=
  d <- getitem tab "deleted" ;;
  ret (if negb (truthy d) || show_deleted then S n else n).

Definition add_row (h : Runtime) (show_deleted : bool) (rows : list Row)
    (tab : value) : result (list Row) :=
  r <- window_row h show_deleted tab ;;
  ret (match r with Some row => (rows ++ [row])%list | None => rows end).

(** cli.py, [display_by_window], lines 403-423: the tree of one window,
    as built before it is printed; [i] is the index [enumerate] gives. *)
Definition window_tree (h : Runtime) (show_deleted : bool) (i : nat)
    (window : value) : result (option Tree) :=
  d <- getitem window "deleted" ;;
  if truthy d && negb show_deleted then ret None
  else
    a <- getitem window "active" ;;
    let status := if truthy a then StatusActive else NoStatus in
    d' <- getitem window "deleted" ;;
    let status := if truthy d' then StatusDeleted else status in
    tabs <- getitem window "tabs" ;;
    tabs <- iter tabs ;;
    tab_count <- for_each (count_tab show_deleted) tabs 0%nat ;;
    tabs' <- getitem window "tabs" ;;
    tabs' <- iter tabs' ;;
    rows <- for_each (add_row h show_deleted) tabs' [] ;;
    ret (Some {| tree_number := i + 1;
                 tree_status := status;
                 tree_tab_count := tab_count;
                 tree_rows := rows |}).

(** cli.py, line 423: [f"{prefix}[dim]{title}[/dim]{ws}{deleted}"], with
    the pieces of lines 419-421. *)
Definition row_label (h : Runtime) (row : Row) : string :=
  (if row_active row then "→ " else "  ") ++
  "[dim]" ++ format h (row_title row) ++ "[/dim]" ++
  match row_workspace row with
  | Some w => " [cyan]📁" ++ format h w ++ "[/cyan]"
  | None => ""
  end ++
  (if row_deleted row then " [red][DELETED][/red]" else "").

(** cli.py, line 425, [console.print(tree)]. The label of the tree is
    made of constants and numbers; the rows carry titles and workspaces. *)
Definition print_tree (h : Runtime) (tree : Tree) : out Tree unit :=
  console_print h (map (row_label h) (tree_rows tree)) tree.

(** cli.py, [display_by_window], one turn of the loop over windows. *)
Definition show_window (h : Runtime) (show_deleted : bool) (window : value)
    (i : nat) : out Tree unit * nat :=
  (t <~ quiet (window_tree h show_deleted i window) ;;
   match t with
   | Some tree => print_tree h tree
   | None => quiet (ret tt)
   end,
   S i).

(** cli.py, [display_by_window]: the trees printed, and how the call
    ended. *)
Definition display_by_window (h : Runtime) (result : value)
    (show_deleted : bool) : out Tree unit :=
  windows <~ quiet (getitem result "windows") ;;
  windows <~ quiet (iter windows) ;;
  fst (for_out (show_window h show_deleted) windows 0%nat).

(** *** The shape of a parsed result *)

Definition is_str (v : value) : bool :=
  match v with VStr _ => true | _ => false end.







(** The tabs of a result, window after window. *)
Definition window_tabs (window : value) : list value :=
  match window with
  | VDict d => match lookup "tabs" d with Some (VList l) => l | _ => [] end
  | _ => []
  end.

Definition result_tabs (result : value) : list value :=
  match result with
  | VDict d =>
      match lookup "windows" d with
      | Some (VList l) => flat_map window_tabs l
      | _ => []
      end
  | _ => []
  end.


(** *** Grouping by workspace *)

(** [sorted(l, key=...)] with the comparison of keys given as [le]: a
    stable sort, smallest first. An item goes before the first one it is
    not greater than, so equal items keep their order. *)
Fixpoint insert_by {A} (le : A -> A -> bool) (x : A) (l : list A) : list A :=
  match l with
  | [] => [x]
  | y :: l' => if le x y then x :: y :: l' else y :: insert_by le x l'
  end.

Definition sorted_by {A} (le : A -> A -> bool) (l : list A) : list A :=
  fold_right (insert_by le) [] l.

(** [title[:60] + "..." if len(title) > 60 else title] of a tab. *)
Definition tab_title (h : Runtime) (tab : value) : result value :=
  t <- getitem tab "title" ;;
  shorten h t.

(** The tabs [display_by_workspace] gathers: those of each named
    workspace, in the order the names first appear, and those of none. *)
Record Grouping : Type := {
  workspace_tabs : list (value * list value);
  no_workspace : list value
}.

Fixpoint group_has (k : value) (d : list (value * list value)) : bool :=
  match d with
  | [] => false
  | (k', _) :: d' => key_eqb k' k || group_has k d'
  end.

(** [workspaces[k].append(tab)] for a key that is there. *)
Fixpoint group_append (k : value) (tab : value) (d : list (value * list value))
  : list (value * list value) :=
  match d with
  | [] => []
  | (k', tabs) :: d' =>
      if key_eqb k' k then (k', (tabs ++ [tab])%list) :: d'
      else (k', tabs) :: group_append k tab d'
  end.

(** [ws_name == "No Workspace"]. *)
Definition is_no_workspace (ws_name : value) : bool :=
  match ws_name with
  | VStr s => s =? "No Workspace"
  | _ => false
  end.

(** cli.py, [display_by_workspace], lines 371-379: the body of the loop
    over tabs. *)
Definition group_tab (show_deleted : bool) (g : Grouping) (tab : value)
  : result Grouping :=
  d <- getitem tab "deleted" ;;
  if truthy d && negb show_deleted then ret g
  else
    ws_name <- workspace_label tab ;;
    if is_no_workspace ws_name then
      ret {| workspace_tabs := workspace_tabs g;
             no_workspace := (no_workspace g ++ [tab])%list |}
    else if hashable ws_name then
      let d := if group_has ws_name (workspace_tabs g) then workspace_tabs g
               else (workspace_tabs g ++ [(ws_name, [])])%list in
      ret {| workspace_tabs := group_append ws_name tab d;
             no_workspace := no_workspace g |}
    else raise TypeError.

Definition group_window (show_deleted : bool) (g : Grouping) (window : value)
  : result Grouping :=
  tabs <- getitem window "tabs" ;;
  tabs <- iter tabs ;;
  for_each (group_tab show_deleted) tabs g.

(** cli.py, [display_by_workspace], lines 366-379. *)
Definition group_by_workspace (result : value) (show_deleted : bool)
  : Py.result Grouping :=
  windows <- getitem result "windows" ;;
  windows <- iter windows ;;
  for_each (group_window show_deleted) windows
    {| workspace_tabs := []; no_workspace := [] |}.

(** The order of two keys of one kind; keys of two kinds do not
    compare. *)
Definition is_number (v : value) : bool :=
  match v with VInt _ | VBool _ => true | _ => false end.

Definition number_of (v : value) : Z :=
  match v with
  | VInt z => z
  | VBool b => if b then 1%Z else 0%Z
  | _ => 0%Z
  end.

Definition string_of (v : value) : string :=
  match v with VStr s => s | _ => "" end.

(** [sorted(workspaces.items())]. The keys of a dict are distinct, so
    two items compare by their keys: strings with strings, numbers with
    numbers, and anything else raises. One item alone is not compared. *)
Definition sorted_items (items : list (value * list value))
  : result (list (value * list value)) :=
  match items with
  | [] | [_] => ret items
  | _ =>
      if forallb (fun kv => is_str (fst kv)) items then
        ret (sorted_by (fun a b => String.leb (string_of (fst a))
                                              (string_of (fst b))) items)
      else if forallb (fun kv => is_number (fst kv)) items then
        ret (sorted_by (fun a b => (number_of (fst a) <=? number_of (fst b))%Z)
                       items)
      else raise TypeError
  end.

(** One tree of [display_by_workspace]: the label, the number of tabs
    it announces, the titles it lists and the "... and n more" line. *)
Record Group : Type := {
  group_label : value;
  group_count : nat;
  group_titles : list value;
  group_more : option nat
}.

Definition add_title (h : Runtime) (titles : list value) (tab : value)
  : result (list value) :=
  t <- tab_title h tab ;;
  ret (titles ++ [t])%list.

(** cli.py, [display_by_workspace], lines 382-387 and 391-396: a tree as
    built before it is printed, with the number of titles to list at
    most. *)
Definition group_tree (h : Runtime) (limit : nat) (label : value)
    (tabs : list value) : result Group :=
  titles <- for_each (add_title h) (firstn limit tabs) [] ;;
  ret {| group_label := label;
         group_count := List.length tabs;
         group_titles := titles;
         group_more := if (limit <? List.length tabs)%nat
                       then Some (List.length tabs - limit)%nat else None |}.

(** cli.py, line 382:
    [f"[bold green]📁 {ws_name}[/bold green] ({len(tabs)} tabs)"]. *)
Definition workspace_header (h : Runtime) (ws_name : value) (n : nat)
  : string :=
  "[bold green]📁 " ++ format h ws_name ++ "[/bold green] (" ++ str_nat n ++
  " tabs)".

(** cli.py, lines 385 and 394: [f"[dim]{title}[/dim]"]. *)
Definition title_row (h : Runtime) (title : value) : string :=
  "[dim]" ++ format h title ++ "[/dim]".

(** cli.py, lines 388 and 397, [console.print(tree)]: the texts of the
    tree are its header, when that names a workspace, and its titles. *)
Definition print_group (h : Runtime) (header : list string) (g : Group)
  : out Group unit :=
  console_print h (header ++ map (title_row h) (group_titles g))%list g.

(** cli.py, [display_by_workspace], one turn of the loop of line 381. *)
Definition show_group (h : Runtime) (item : value * list value) (_ : unit)
  : out Group unit * unit :=
  (g <~ quiet (group_tree h 50 (fst item) (snd item)) ;;
   print_group h [workspace_header h (fst item) (List.length (snd item))] g,
   tt).

(** cli.py, [display_by_workspace]: the trees printed, and how the call
    ended. *)
Definition display_by_workspace (h : Runtime) (result : value)
    (show_deleted : bool) : out Group unit :=
  g <~ quiet (group_by_workspace result show_deleted) ;;
  items <~ quiet (sorted_items (workspace_tabs g)) ;;
  _ <~ fst (for_out (show_group h) items tt) ;;
  match no_workspace g with
  | [] => quiet (ret tt)
  | tabs =>
      t <~ quiet (group_tree h 20 (VStr "No Workspace") tabs) ;;
      print_group h [] t
  end.

(** *** What the commands print *)

(** [parser.Workspace], with the two attributes cli.py reads. *)
Record Workspace : Type := {
  ws_name : string;
  ws_emoji : option string
}.

(** The mapping [load_vivaldi_workspaces] returns, in the order of
    [items()]; a key stands as its [str()]. *)
Definition WorkspaceMap := list (string * Workspace).

Definition emoji_value (e : option string) : value :=
  match e with Some s => VStr s | None => VNone end.

(** [{str(ws_id): {"name": ws.name, "emoji": ws.emoji} for ...}]. *)
Definition workspaces_table (m : WorkspaceMap) : value :=
  VDict (fold_left
           (fun d kw =>
              assoc_set (fst kw)
                (VDict [("name", VStr (ws_name (snd kw)));
                        ("emoji", emoji_value (ws_emoji (snd kw)))]) d)
           m []).

(** [l[:n]] for an integer [n], negative ones counting from the end. *)
Definition slice_to {A} (l : list A) (n : Z) : list A :=
  if (0 <=? n)%Z then firstn (Z.to_nat n) l
  else firstn (List.length l - Z.to_nat (- n)) l.

(** What a command shows on the console: a line of markup, a tree of
    either display, JSON (printed by [print], not by rich), and the
    tables of [summary] and [workspaces]. *)
Inductive event : Type :=
| PrintText (markup : string)
| PrintTree (tree : Tree)
| PrintGroup (group : Group)
| PrintJson (output : value)
| PrintMetrics (total : nat) (active : Z) (deleted windows : nat)
| PrintCounts (rows : list (string * Z))
| PrintWorkspaces (title : string) (rows : list (string * string * string)).

(** [rprint(text)] for a text that carries data. *)
Definition rprint (h : Runtime) (text : string) : out event unit :=
  console_print h [text] (PrintText text).

(** [rprint(text)] followed by [raise typer.Exit(1)]. *)
Definition exit_with (h : Runtime) (text : string) : out event unit :=
  _ <~ rprint h text ;; quiet (raise (Exit 1)).

Definition newline : string := String "010"%char EmptyString.

(** cli.py, lines 125, 188, 261 and 341. *)
Definition browser_not_found (browser : string) : string :=
  "[red]Browser '" ++ browser ++
  "' not found. Run 'chromium-session list' to see available browsers.[/red]".

(** cli.py, lines 130, 193 and 266. *)
Definition no_profiles_found (browser_obj : Browser) : string :=
  "[red]No profiles found for " ++ browser_name browser_obj ++ "[/red]".

(** cli.py, [display_result]. *)
Definition display_result (h : Runtime) (result : value)
    (show_deleted by_workspace : bool) : out event unit :=
  if by_workspace then
    relay PrintGroup (display_by_workspace h result show_deleted)
  else relay PrintTree (display_by_window h result show_deleted).

(** cli.py, [parse], line 240:
    [all_results if len(all_results) > 1 else all_results[0]]. *)
Definition json_output_value (all_results : list value) : result value :=
  if (1 <? List.length all_results)%nat then ret (VList all_results)
  else match all_results with
       | r :: _ => ret r
       | [] => raise IndexError
       end.



(** [workspace.emoji or "📁"]. *)
Definition folder_sign : string := "📁".

Definition emoji_or_folder (w : Workspace) : string :=
  match ws_emoji w with
  | Some e => if e =? "" then folder_sign else e
  | None => folder_sign
  end.

(** The row the table of [workspaces] has for one workspace. *)
Definition workspace_row (kw : string * Workspace) : string * string * string :=
  (emoji_or_folder (snd kw), ws_name (snd kw), fst kw).

(** cli.py, line 152, [console.print(table)]: rich measures the cells
    column by column, then renders the title. *)
Definition print_workspaces (h : Runtime) (title : string)
    (rows : list (string * string * string)) : out event unit :=
  console_print h
    (map (fun r => fst (fst r)) rows ++ map (fun r => snd (fst r)) rows ++
     map snd rows ++ [title])%list
    (PrintWorkspaces title rows).

Section Commands.

Variable h : Runtime.
Variable lower : string -> string.
Variable is_dir : Path -> bool.
Variable path_exists : Path -> bool.
Variable scandir : Path -> list string.
Variable stat_mtime : Path -> result Z.

(** The collaborators imported from [browsers] and [parser].
    [parse_file ws f] is [SessionParser(workspaces=ws).parse_file(f)].
    The two that read the profile and the session files are taken with
    the state of the world they read and may change, so that it shows
    how often and in which order they are called. *)
Variable get_browser_by_id : string -> option Browser.
Variable World : Type.
Variable load_vivaldi_workspaces : Path -> World -> WorkspaceMap * World.
Variable parse_file : WorkspaceMap -> Path -> World -> result value * World.

(** cli.py, [parse], lines 199-205. *)
Definition files_to_parse_of (files : option (list Path))
    (profile_obj : BrowserProfile) (latest : Z) : result (list Path) :=
  match files with
  | Some (f :: fs) => ret (f :: fs)
  | _ =>
      if has_sessions profile_obj then
        l <- list_session_files is_dir path_exists scandir stat_mtime
               (sessions_path profile_obj) ;;
        ret (slice_to l latest)
      else ret []
  end.

Section Loop.

Variable browser_obj : Browser.
Variable profile_obj : BrowserProfile.
Variable workspaces_map : WorkspaceMap.
Variables json_output show_deleted by_workspace : bool.

(** cli.py, [parse], lines 216-224: the result of one file with the
    five keys added to it. *)
Definition parse_and_label (filepath : Path) (w : World)
  : result value * World :=
  let (parsed, w) := parse_file workspaces_map filepath w in
  (r <- parsed ;;
   r <- setitem r "_file" (VStr filepath) ;;
   m <- stat_mtime filepath ;;
   r <- setitem r "_mtime" (VInt m) ;;
   r <- setitem r "_browser" (VStr (browser_name browser_obj)) ;;
   r <- setitem r "_profile" (VStr (name profile_obj)) ;;
   setitem r "_workspaces" (workspaces_table workspaces_map),
   w).

(** cli.py, [parse], lines 228-234. *)
Definition show_result (result : value) (filepath : Path) : out event unit :=
  _ <~ rprint h (newline ++ "[bold cyan]# " ++ browser_name browser_obj ++
                 " / " ++ name profile_obj ++ "[/bold cyan]") ;;
  _ <~ rprint h ("[dim]# File: " ++ path_name h filepath ++ "[/dim]") ;;
  display_result h result show_deleted by_workspace.

(** cli.py, line 237: [f"[red]Error parsing {filepath}: {e}[/red]"]. *)
Definition error_line (filepath : Path) (e : exn) : string :=
  "[red]Error parsing " ++ filepath ++ ": " ++ str_exn h e ++ "[/red]".

(** cli.py, [parse], lines 215-237: one turn of the loop, with its
    [try] and [except Exception]. The state is the list of results and
    the world. A result appended before the display raises stays
    appended; the handler prints through rich too, outside any [try]. *)
Definition parse_one (filepath : Path) (s : list value * World)
  : out event unit * (list value * World) :=
  let (all_results, w) := s in
  let (labelled, w) := parse_and_label filepath w in
  match labelled with
  | inl e => (rprint h (error_line filepath e), (all_results, w))
  | inr r =>
      (if json_output then quiet (ret tt)
       else try_except (show_result r filepath)
                       (fun e => rprint h (error_line filepath e)),
       ((all_results ++ [r])%list, w))
  end.

(** cli.py, [parse], lines 214-237. *)
Definition parse_loop (files_to_parse : list Path) (s : list value * World)
  : out event unit * (list value * World) :=
  for_out parse_one files_to_parse s.

End Loop.

(** cli.py, [parse]. *)
Definition parse (browser : string) (files : option (list Path))
    (profile : option string) (latest : Z)
    (json_output show_deleted by_workspace : bool) (w : World)
  : out event unit * World :=
  match get_browser_by_id browser with
  | None => (exit_with h (browser_not_found browser), w)
  | Some browser_obj =>
      match get_selected_profile lower browser_obj profile with
      | None => (exit_with h (no_profiles_found browser_obj), w)
      | Some profile_obj =>
          let (workspaces_map, w) :=
            load_vivaldi_workspaces (path profile_obj) w in
          match files_to_parse_of files profile_obj latest with
          | inl e => (quiet (raise e), w)
          | inr [] =>
              (exit_with h ("[red]No session files found in " ++
                            sessions_path profile_obj ++ "[/red]"), w)
          | inr files_to_parse =>
              let (loop, s) :=
                parse_loop browser_obj profile_obj workspaces_map
                  json_output show_deleted by_workspace files_to_parse
                  ([], w) in
              (_ <~ loop ;;
               if json_output then
                 output <~ quiet (json_output_value (fst s)) ;;
                 emit (PrintJson output)
               else quiet (ret tt),
               snd s)
          end
      end
  end.





(** cli.py, [workspaces]. *)
Definition workspaces (browser : string) (profile : option string)
    (json_output : bool) (w : World) : out event unit * World :=
  match get_browser_by_id browser with
  | None => (exit_with h (browser_not_found browser), w)
  | Some browser_obj =>
      match get_selected_profile lower browser_obj profile with
      | None => (exit_with h (no_profiles_found browser_obj), w)
      | Some profile_obj =>
          let (ws, w) := load_vivaldi_workspaces (path profile_obj) w in
          match ws with
          | [] =>
              (_ <~ emit (PrintText
                 "[yellow]No workspaces found (workspaces are Vivaldi-specific)[/yellow]") ;;
               quiet (raise (Exit 1)), w)
          | _ =>
              if json_output then (emit (PrintJson (workspaces_table ws)), w)
              else
                (print_workspaces h
                   ("Workspaces in " ++ browser_name browser_obj ++ " / " ++
                    name profile_obj)
                   (map workspace_row
                        (sorted_by (fun a b => String.leb (ws_name (snd a))
                                                          (ws_name (snd b)))
                                   ws)),
                 w)
          end
      end
  end.

End Commands.




(** *** Calls to the collaborators *)

(** A call to one of the two collaborators that read the profile and
    the session files, with its arguments. *)
Inductive call : Type :=
| LoadWorkspaces (profile_path : Path)
| ParseFile (workspaces : WorkspaceMap) (file : Path).

Section Logged.

Variable World : Type.
Variable load_vivaldi_workspaces : Path -> World -> WorkspaceMap * World.
Variable parse_file : WorkspaceMap -> Path -> World -> result value * World.

(** The collaborators as given, with a log beside the world in which
    each call is noted as it is made. *)
Definition logged_load (profile_path : Path) (s : World * list call)
  : WorkspaceMap * (World * list call) :=
  let (m, w) := load_vivaldi_workspaces profile_path (fst s) in
  (m, (w, (snd s ++ [LoadWorkspaces profile_path])%list)).

Definition logged_parse_file (workspaces : WorkspaceMap) (file : Path)
    (s : World * list call) : result value * (World * list call) :=
  let (r, w) := parse_file workspaces file (fst s) in
  (r, (w, (snd s ++ [ParseFile workspaces file])%list)).

End Logged.

(** A run of a command: what it printed, how it ended, and the state it
    left. *)
Definition printed_by {O A S} (run : out O A * S) : list O := fst (fst run).
Definition ending_of {O A S} (run : out O A * S) : result A := snd (fst run).
Definition state_after {O A S} (run : out O A * S) : S := snd run.

(** *** What the readers need of a result *)











(** The results among the outcomes of a batch, in order. *)
Definition kept (outcomes : list (result value)) : list value :=
  flat_map (fun r => match r with inr v => [v] | inl _ => [] end) outcomes.

Section Batch.

Variable stat_mtime : Path -> result Z.
Variable World : Type.
Variable parse_file : WorkspaceMap -> Path -> World -> result value * World.
Variable browser_obj : Browser.
Variable profile_obj : BrowserProfile.
Variable workspaces_map : WorkspaceMap.

(** The files of a batch parsed and labelled one after the other from
    the world [w]: the outcome of each. *)
Fixpoint attempts (files : list Path) (w : World) : list (result value) :=
  match files with
  | [] => []
  | f :: rest =>
      let (r, w') := parse_and_label stat_mtime parse_file browser_obj
                       profile_obj workspaces_map f w in
      r :: attempts rest w'
  end.

End Batch.

(** *** What the properties of cli.py are stated with *)

Definition sum_counts (d : list (value * Z)) : Z :=
  fold_right (fun kv acc => (snd kv + acc)%Z) 0%Z d.

(** No two keys of the dict are equal as keys. *)
Fixpoint distinct_keys (d : list (value * Z)) : bool :=
  match d with
  | [] => true
  | (k, _) :: d' =>
      negb (existsb (fun kv => key_eqb k (fst kv)) d') && distinct_keys d'
  end.

(** What the tally of [summary] keeps true from tab to tab. *)
Definition tally_ok (t : Tally) : Prop :=
  (deleted_tabs t <= total_tabs t)%nat /\
  sum_counts (ws_counts t) = Z.of_nat (total_tabs t) /\
  Forall (fun kv => (truthy (fst kv) = true /\ hashable (fst kv) = true) /\
                    (1 <= snd kv)%Z) (ws_counts t) /\
  distinct_keys (ws_counts t) = true.


(** A pattern without a star. *)
Fixpoint star_free (pattern : string) : bool :=
  match pattern with
  | EmptyString => true
  | String c pattern' => negb (Ascii.eqb c "*") && star_free pattern'
  end.

(** The names [list_session_files] looks for by pattern, and those it
    looks for by name. *)
Definition pattern_name (file_name : string) : bool :=
  String.prefix "Session_" file_name || String.prefix "Tabs_" file_name.

Definition literal_name (file_name : string) : bool :=
  (file_name =? "Current Session") || (file_name =? "Current Tabs").

(** Files of one time stamp, in the order they have in [l]. *)
Definition of_time {A} (m : Z) (l : list (A * Z)) : list (A * Z) :=
  filter (fun p => (snd p =? m)%Z) l.

(** The five keys the parse command writes. *)
Definition label_keys : list string :=
  ["_file"; "_mtime"; "_browser"; "_profile"; "_workspaces"].

(** One entry of the table of workspaces. *)
Definition workspace_entry (w : Workspace) : value :=
  VDict [("name", VStr (ws_name w)); ("emoji", emoji_value (ws_emoji w))].

(** The workspace the mapping holds last under [key]. *)
Fixpoint last_with_key (key : string) (m : WorkspaceMap) : option Workspace :=
  match m with
  | [] => None
  | (k, w) :: m' =>
      match last_with_key key m' with
      | Some w' => Some w'
      | None => if k =? key then Some w else None
      end
  end.

Definition table_step (d : list (string * value)) (kw : string * Workspace)
  : list (string * value) :=
  assoc_set (fst kw) (workspace_entry (snd kw)) d.

(** The number of titles a tree lists at most: 20 for the tabs of no
    workspace, 50 for a workspace. *)
Definition title_limit (label : value) : nat :=
  if is_no_workspace label then 20%nat else 50%nat.

(** The label [display_by_workspace] files a tab under, when the tab is
    shown and has one. *)
Definition shown_label (show_deleted : bool) (tab : value) : option value :=
  match getitem tab "deleted" with
  | inr d =>
      if truthy d && negb show_deleted then None
      else match workspace_label tab with
           | inr l => Some l
           | inl _ => None
           end
  | inl _ => None
  end.

(** The tabs shown under the label [k]. *)
Definition filed_under (show_deleted : bool) (k : value) (tab : value) : bool :=
  match shown_label show_deleted tab with
  | Some l => key_eqb k l
  | None => false
  end.

(** A tree of [display_by_workspace] that stands for the tabs [tabs]:
    it announces their number, lists the titles of the first of them up
    to the limit of its kind, in order, and counts the rest. *)
Definition group_of (h : Runtime) (tabs : list value) (g : Group) : Prop :=
  tabs <> [] /\
  group_count g = List.length tabs /\
  Forall2 (fun tab title => tab_title h tab = inr title)
          (firstn (title_limit (group_label g)) tabs) (group_titles g) /\
  group_more g =
    if (title_limit (group_label g) <? List.length tabs)%nat
    then Some (List.length tabs - title_limit (group_label g))%nat else None.

(** What the grouping keeps true from tab to tab: a named workspace is
    not "No Workspace" and has a tab. *)
Definition grouping_ok (g : Grouping) : Prop :=
  Forall (fun kv => is_no_workspace (fst kv) = false /\ snd kv <> [])
         (workspace_tabs g).

(** What the grouping keeps true of the tabs [seen] it has gone
    through: each named workspace holds, in order, the tabs filed under
    its label, and "No Workspace" those filed under none; no two labels
    are equal as keys; and the label of every tab that is shown and
    names a workspace is there. *)
Definition grouping_files (show_deleted : bool) (seen : list value)
    (g : Grouping) : Prop :=
  Forall (fun kv => is_no_workspace (fst kv) = false /\
                    snd kv <> [] /\
                    snd kv = filter (filed_under show_deleted (fst kv)) seen)
         (workspace_tabs g) /\
  no_workspace g = filter (filed_under show_deleted (VStr "No Workspace")) seen /\
  ForallOrdPairs (fun a b => key_eqb a b = false) (map fst (workspace_tabs g)) /\
  (forall tab l,
     In tab seen -> shown_label show_deleted tab = Some l ->
     is_no_workspace l = false -> group_has l (workspace_tabs g) = true).

(** The tabs gathered so far. *)
Definition gathered (d : list (value * list value)) : nat :=
  list_sum (map (fun kv => List.length (snd kv)) d).

(** Whether a tab is shown: it has a [deleted] flag, and the flag is
    off or deleted tabs are asked for. *)
Definition tab_shown (show_deleted : bool) (tab : value) : bool :=
  match getitem tab "deleted" with
  | inr d => negb (truthy d && negb show_deleted)
  | inl _ => false
  end.

Definition grouped (g : Grouping) : nat :=
  (gathered (workspace_tabs g) + List.length (no_workspace g))%nat.

(** The order [sorted] puts two labels of one kind in. *)
Definition label_le (a b : value) : bool :=
  match a, b with
  | VStr s, VStr t => String.leb s t
  | (VInt _ | VBool _), (VInt _ | VBool _) => (number_of a <=? number_of b)%Z
  | _, _ => false
  end.

Section Reach.

Variable lower : string -> string.
Variable is_dir : Path -> bool.
Variable path_exists : Path -> bool.
Variable scandir : Path -> list string.
Variable stat_mtime : Path -> result Z.
Variable get_browser_by_id : string -> option Browser.

(** How far a run of the parse command gets before the loop over
    files. *)
Inductive Reached : Type :=
| NoBrowser
| NoProfile (b : Browser)
| ListingRaised (b : Browser) (p : BrowserProfile) (e : exn)
| NoFiles (b : Browser) (p : BrowserProfile)
| Files (b : Browser) (p : BrowserProfile) (g : Path) (gs : list Path).

Definition reached (browser : string) (files : option (list Path))
    (profile : option string) (latest : Z) : Reached :=
  match get_browser_by_id browser with
  | None => NoBrowser
  | Some b =>
      match get_selected_profile lower b profile with
      | None => NoProfile b
      | Some p =>
          match files_to_parse_of is_dir path_exists scandir stat_mtime
                  files p latest with
          | inl e => ListingRaised b p e
          | inr [] => NoFiles b p
          | inr (g :: gs) => Files b p g gs
          end
      end
  end.

End Reach.

(** *** A small world to run the commands in *)

Definition example_default : BrowserProfile :=
  {| name := "Default"; path := "/v/Default"; has_sessions := false;
     sessions_path := "/v/Default/Sessions" |}.

Definition example_work : BrowserProfile :=
  {| name := "Work"; path := "/v/Work"; has_sessions := true;
     sessions_path := "/v/Work/Sessions" |}.

Definition example_homework : BrowserProfile :=
  {| name := "Homework"; path := "/v/Homework"; has_sessions := true;
     sessions_path := "/v/Homework/Sessions" |}.

Definition example_profiles : list BrowserProfile :=
  [example_default; example_work; example_homework].

Definition example_browser : Browser :=
  {| browser_id := "vivaldi"; browser_name := "Vivaldi";
     profiles := example_profiles |}.

Definition example_get_browser (id : string) : option Browser :=
  if id =? "vivaldi" then Some example_browser else None.

Definition example_scandir (dir : Path) : list string :=
  ["Session_1"; "Tabs_1"; "Preferences"; "Current Session"; "Session_22"].

Definition example_is_dir (dir : Path) : bool := true.

(** Every path exists but "Current Tabs". *)
Definition example_exists (f : Path) : bool := negb (str_in "Current Tabs" f).

(** The longer the path, the newer the file. *)
Definition example_mtime (f : Path) : Z := Z.of_nat (String.length f).
Definition example_stat (f : Path) : result Z := ret (example_mtime f).

Definition example_workspaces : WorkspaceMap :=
  [("7", {| ws_name := "Work"; ws_emoji := None |})].

(** A world without state. *)
Definition example_load (profile_path : Path) (w : unit)
  : WorkspaceMap * unit :=
  (example_workspaces, w).

(** A result of one window with one tab, whose workspace is a name. *)
Definition named_workspace_result : value :=
  VDict [("windows",
          VList [VDict [("active", VBool true);
                        ("deleted", VBool false);
                        ("tabs",
                         VList [VDict [("title", VStr "Example");
                                       ("active", VBool true);
                                       ("deleted", VBool false);
                                       ("workspace", VStr "Work")]])]])].

(** A parser that rejects the files of tabs. *)
Definition example_parse_file (ws : WorkspaceMap) (f : Path) (w : unit)
  : result value * unit :=
  (if str_in "Tabs" f then raise (Raised "unsupported format")
   else ret named_workspace_result, w).

(** An instance of [markup_error] to run examples with. It reads the
    tags of a text as rich does: [[name]] opens a style, [[/name]]
    closes the nearest open style of that name, [[/]] the last one
    opened; a bracket that is followed by no lower-case letter, [#], [/]
    or [@] is plain text. It complains about a closing tag that finds
    nothing to close, naming the tag. Escapes by backslash and the
    normal forms of style names are left out. *)
Definition tag_start (c : ascii) : bool :=
  let n := nat_of_ascii c in
  ((97 <=? n)%nat && (n <=? 122)%nat) ||
  Ascii.eqb c "#" || Ascii.eqb c "/" || Ascii.eqb c "@".

Fixpoint before_equals (s : string) : string :=
  match s with
  | EmptyString => EmptyString
  | String c s' => if Ascii.eqb c "=" then EmptyString
                   else String c (before_equals s')
  end.

Fixpoint close_style (style_name : string) (stack : list string)
  : option (list string) :=
  match stack with
  | [] => None
  | t :: stack' =>
      if t =? style_name then Some stack'
      else option_map (cons t) (close_style style_name stack')
  end.

(** One tag against the stack of open styles, the last opened first. *)
Definition apply_tag (tag : string) (stack : list string)
  : string + list string :=
  let tag_name := before_equals tag in
  match tag_name with
  | String "/" EmptyString =>
      match stack with
      | _ :: stack' => inr stack'
      | [] => inl "closing tag '[/]' has nothing to close"
      end
  | String "/" style_name =>
      match close_style style_name stack with
      | Some stack' => inr stack'
      | None => inl ("closing tag '[" ++ tag_name ++
                     "]' doesn't match any open tag")
      end
  | _ => inr (tag_name :: stack)
  end.

(** The text character by character; [tag] is what was read since the
    last opening bracket, when one is open. *)
Fixpoint scan_markup (text : string) (tag : option string)
    (stack : list string) : option string :=
  match text with
  | EmptyString => None
  | String c text' =>
      if Ascii.eqb c "[" then scan_markup text' (Some EmptyString) stack
      else
        match tag with
        | None => scan_markup text' None stack
        | Some t =>
            if Ascii.eqb c "]" then
              match t with
              | EmptyString => scan_markup text' None stack
              | String first _ =>
                  if tag_start first then
                    match apply_tag t stack with
                    | inl msg => Some msg
                    | inr stack' => scan_markup text' None stack'
                    end
                  else scan_markup text' None stack
              end
            else scan_markup text' (Some (t ++ String c EmptyString)) stack
        end
  end.

Definition closing_tag_error (text : string) : option string :=
  scan_markup text None [].

(** The part of a path after its last slash. *)
Fixpoint base_name (f : Path) : string :=
  match f with
  | EmptyString => EmptyString
  | String c f' =>
      if str_in "/" f' then base_name f'
      else if Ascii.eqb c "/" then f' else String c f'
  end.

Definition example_str_exn (e : exn) : string :=
  match e with
  | KeyError key => "'" ++ key ++ "'"
  | MarkupError msg | NotRenderableError msg | Raised msg => msg
  | _ => EmptyString
  end.

Definition example_str_value (v : value) : string :=
  match v with
  | VNone => "None"
  | VBool true => "True"
  | VBool false => "False"
  | VInt z => NilZero.string_of_int (Z.to_int z)
  | _ => EmptyString
  end.

Definition example_runtime : Runtime :=
  {| markup_error := closing_tag_error;
     str_exn := example_str_exn;
     str_value := example_str_value;
     slice_of_dict := TypeError;
     path_name := base_name |}.

Definition example_run (files : option (list Path)) (json_output : bool)
  : out event unit * (unit * list call) :=
  parse example_runtime lower_ascii example_is_dir example_exists
    example_scandir example_stat example_get_browser
    (logged_load example_load) (logged_parse_file example_parse_file)
    "vivaldi" files (Some "work") 3 json_output false false (tt, []).

(** *** A result with two windows, to run the readers on *)

Definition example_tab (title : string) (deleted : bool) (workspace : value)
  : value :=
  VDict [("title", VStr title); ("active", VBool false);
         ("deleted", VBool deleted); ("workspace", workspace)].

Definition example_window (deleted : bool) (tabs : list value) : value :=
  VDict [("active", VBool (negb deleted)); ("deleted", VBool deleted);
         ("tabs", VList tabs)].

Definition example_result : value :=
  VDict [("windows",
          VList [example_window true
                   [example_tab "Old news" true (VStr "Work")];
                 example_window false
                   [example_tab "Mail" false (VStr "Work");
                    example_tab "Game" true (VStr "Play");
                    example_tab "Blank" false VNone;
                    example_tab "Chess" false (VStr "Play")]])].

(** A parser that gives [example_result] for every file. *)
Definition example_parse_all (ws : WorkspaceMap) (f : Path) (w : unit)
  : result value * unit :=
  (ret example_result, w).

Definition example_two_workspaces : WorkspaceMap :=
  [("7", {| ws_name := "Work"; ws_emoji := None |});
   ("3", {| ws_name := "Play"; ws_emoji := Some "P" |})].

End Cli.

(* ===================================================================== *)
(** ** The session core: decoder and replay engine *)
(* ===================================================================== *)

Module Core.

Open Scope Z_scope.

(** Modelled from the spec: the data model of the replay engine
    ([parser.py] is not among the sources). A window owns its tabs by
    value, in order. The design creates a tab on its first mention, also
    by a command that names no window; such a tab is kept in [unattached]
    until a command attaches it. *)
Record Tab : Type := {
  tab_id : Z;
  title : string;
  active : bool;
  deleted : bool;
  workspace : option Z
}.

Record Window : Type := {
  window_id : Z;
  w_active : bool;
  w_deleted : bool;
  tabs : list Tab
}.

Record SessionState : Type := {
  windows : list Window;
  unattached : list Tab
}.

Definition empty_state : SessionState :=
  {| windows := []; unattached := [] |}.

Definition default_tab (tid : Z) : Tab :=
  {| tab_id := tid; title := EmptyString; active := false;
     deleted := false; workspace := None |}.

Definition default_window (wid : Z) : Window :=
  {| window_id := wid; w_active := false; w_deleted := false; tabs := [] |}.

(** Modelled from the spec: the command vocabulary of section 4.2. *)
Inductive Command : Type :=
| CreateWindow (wid : Z)
| CreateTab (tid wid : Z) (index : nat)
| SetTabTitle (tid : Z) (new_title : string)
| SetActiveWindow (wid : Z)
| SetSelectedTabInWindow (wid tid : Z)
| TabClosed (tid : Z)
| WindowClosed (wid : Z)
| SetTabWorkspace (tid ws : Z)
| MoveTabToWindow (tid target : Z) (index : nat)
| PinTab (tid v : Z)
| SetTabGroup (tid v : Z)
| SetTabIndex (tid v : Z)
| Unknown (id : Z) (payload : list Z).

Definition is_tab (tid : Z) (t : Tab) : bool := tab_id t =? tid.
Definition is_window (wid : Z) (w : Window) : bool := window_id w =? wid.

(** Every tab of the state, window by window, then the unattached. *)
Definition all_tabs (s : SessionState) : list Tab :=
  (flat_map tabs (windows s) ++ unattached s)%list.

Definition find_tab (tid : Z) (s : SessionState) : option Tab :=
  find (is_tab tid) (all_tabs s).

Definition find_window (wid : Z) (s : SessionState) : option Window :=
  find (is_window wid) (windows s).

(** Modelled from the spec: "ensure Window(window_id) exists" of the
    effect table (the engine's code is missing). A new window goes last,
    so that windows stand in the order of their first appearance. *)
Definition ensure_window (wid : Z) (s : SessionState) : SessionState :=
  match find_window wid s with
  | Some _ => s
  | None =>
      {| windows := (windows s ++ [default_window wid])%list;
         unattached := unattached s |}
  end.

(** Modelled from the spec: "implicitly creating a default-valued entity
    first" of section 4.3 (the engine's code is missing). *)
Definition ensure_tab (tid : Z) (s : SessionState) : SessionState :=
  match find_tab tid s with
  | Some _ => s
  | None =>
      {| windows := windows s;
         unattached := (unattached s ++ [default_tab tid])%list |}
  end.

Definition map_tabs (f : Tab -> Tab) (w : Window) : Window :=
  {| window_id := window_id w; w_active := w_active w;
     w_deleted := w_deleted w; tabs := map f (tabs w) |}.

(** Modelled from the spec: a mutation of one tab, as SetTabTitle,
    TabClosed and SetTabWorkspace make (the engine's code is missing):
    [f] is applied to the tab [tid], wherever it is. *)
Definition update_tab (tid : Z) (f : Tab -> Tab) (s : SessionState)
  : SessionState :=
  let g := fun t => if is_tab tid t then f t else t in
  {| windows := map (map_tabs g) (windows s);
     unattached := map g (unattached s) |}.

Definition set_title (x : string) (t : Tab) : Tab :=
  {| tab_id := tab_id t; title := x; active := active t;
     deleted := deleted t; workspace := workspace t |}.

Definition set_active (b : bool) (t : Tab) : Tab :=
  {| tab_id := tab_id t; title := title t; active := b;
     deleted := deleted t; workspace := workspace t |}.

Definition set_deleted (t : Tab) : Tab :=
  {| tab_id := tab_id t; title := title t; active := active t;
     deleted := true; workspace := workspace t |}.

Definition set_workspace (ws : Z) (t : Tab) : Tab :=
  {| tab_id := tab_id t; title := title t; active := active t;
     deleted := deleted t; workspace := Some ws |}.

(** Modelled from the spec: "detach tab from current window" of the
    effect table (the engine's code is missing). The tab leaves every tab
    sequence. *)
Definition without_tab (tid : Z) (l : list Tab) : list Tab :=
  filter (fun t => negb (is_tab tid t)) l.

Definition detach (tid : Z) (s : SessionState) : SessionState :=
  {| windows :=
       map (fun w => {| window_id := window_id w; w_active := w_active w;
                        w_deleted := w_deleted w;
                        tabs := without_tab tid (tabs w) |}) (windows s);
     unattached := without_tab tid (unattached s) |}.

(** Modelled from the spec: "attach to Window at position index" of the
    effect table (the engine's code is missing). A position past the end
    is the end. *)
Definition insert_at (index : nat) (t : Tab) (l : list Tab) : list Tab :=
  (firstn index l ++ t :: skipn index l)%list.

Fixpoint attach_in (wid : Z) (index : nat) (t : Tab) (ws : list Window)
  : list Window :=
  match ws with
  | [] => []
  | w :: ws' =>
      if is_window wid w then
        {| window_id := window_id w; w_active := w_active w;
           w_deleted := w_deleted w;
           tabs := insert_at index t (tabs w) |} :: ws'
      else w :: attach_in wid index t ws'
  end.

(** Modelled from the spec: the effect of CreateTab and of
    MoveTabToWindow (the engine's code is missing). The tab [tid] as it
    stands, or a default one, is placed in window [wid] at [index]. *)
Definition place_tab (tid wid : Z) (index : nat) (s : SessionState)
  : SessionState :=
  let s1 := ensure_window wid s in
  let t := match find_tab tid s1 with
           | Some t => t
           | None => default_tab tid
           end in
  let s2 := detach tid s1 in
  {| windows := attach_in wid index t (windows s2);
     unattached := unattached s2 |}.

(** Modelled from the spec: the effect of SetActiveWindow, "previous
    active window (if any) -> active=false; this one -> active=true"
    (the engine's code is missing). *)
Definition activate_window (wid : Z) (s : SessionState) : SessionState :=
  let s1 := ensure_window wid s in
  {| windows :=
       map (fun w => {| window_id := window_id w;
                        w_active := is_window wid w;
                        w_deleted := w_deleted w; tabs := tabs w |})
           (windows s1);
     unattached := unattached s1 |}.

(** Modelled from the spec: the effect of SetSelectedTabInWindow, "mark
    tab active within that window, others in window inactive" (the
    engine's code is missing). *)
Definition select_tab (wid tid : Z) (s : SessionState) : SessionState :=
  let s1 := ensure_tab tid (ensure_window wid s) in
  {| windows :=
       map (fun w => if is_window wid w
                     then map_tabs (fun t => set_active (is_tab tid t) t) w
                     else w)
           (windows s1);
     unattached := unattached s1 |}.

(** Modelled from the spec: the effect of WindowClosed,
    "Window.deleted = true; all its tabs.deleted = true" (the engine's
    code is missing). *)
Definition close_window (wid : Z) (s : SessionState) : SessionState :=
  let s1 := ensure_window wid s in
  {| windows :=
       map (fun w => if is_window wid w
                     then {| window_id := window_id w;
                             w_active := w_active w;
                             w_deleted := true;
                             tabs := map set_deleted (tabs w) |}
                     else w)
           (windows s1);
     unattached := unattached s1 |}.

(** Modelled from the spec: the effect table of section 4.2, one line
    per command. The three attributes of the last row of the table are
    not part of the data model of section 3, so those commands are
    ignored, as an unknown one is. *)
Definition apply_command (s : SessionState) (c : Command) : SessionState :=
  match c with
  | CreateWindow wid => ensure_window wid s
  | CreateTab tid wid index => place_tab tid wid index s
  | SetTabTitle tid x => update_tab tid (set_title x) (ensure_tab tid s)
  | SetActiveWindow wid => activate_window wid s
  | SetSelectedTabInWindow wid tid => select_tab wid tid s
  | TabClosed tid => update_tab tid set_deleted (ensure_tab tid s)
  | WindowClosed wid => close_window wid s
  | SetTabWorkspace tid ws => update_tab tid (set_workspace ws) (ensure_tab tid s)
  | MoveTabToWindow tid target index => place_tab tid target index s
  | PinTab _ _ | SetTabGroup _ _ | SetTabIndex _ _ => s
  | Unknown _ _ => s
  end.

(** Modelled from the spec: the replay engine of section 4.3, a fold of
    the commands in arrival order. *)
Definition replay_from (s : SessionState) (cmds : list Command)
  : SessionState :=
  fold_left apply_command cmds s.

Definition replay (cmds : list Command) : SessionState :=
  replay_from empty_state cmds.

Definition tab_deleted (s : SessionState) (tid : Z) : bool :=
  match find_tab tid s with
  | Some t => deleted t
  | None => false
  end.

Definition window_deleted (s : SessionState) (wid : Z) : bool :=
  match find_window wid s with
  | Some w => w_deleted w
  | None => false
  end.

(** *** Tombstones *)

(** Items with an integer name and a flag that should only ever rise:
    tabs and windows alike. *)
Section Flags.

Variable A : Type.
Variable name_of : A -> Z.
Variable flag : A -> bool.

Definition named (k : Z) (x : A) : bool := name_of x =? k.

(** The flag of the first item named [k]; false when there is none. *)
Definition flagged (l : list A) (k : Z) : bool :=
  match find (named k) l with
  | Some x => flag x
  | None => false
  end.

(** No name loses its flag from [l] to [l']. *)
Definition rises (l l' : list A) : Prop :=
  forall k, flagged l k = true -> flagged l' k = true.

(** Item by item the same names, and no flag dropped. *)
Definition keeps (x y : A) : Prop :=
  name_of x = name_of y /\ (flag x = true -> flag y = true).

End Flags.

Definition tabs_rise (s s' : SessionState) : Prop :=
  rises tab_id deleted (all_tabs s) (all_tabs s').

Definition windows_rise (s s' : SessionState) : Prop :=
  rises window_id w_deleted (windows s) (windows s').

(** *** Byte cursor and command decoder *)

(** Modelled from the spec: the byte cursor of section 4.1. A byte is an
    integer from 0 to 255; the cursor is the part of the buffer not yet
    read, so a read gives what it read and the cursor after it. *)
Inductive DecodeError : Type :=
| TruncatedData
| UnsupportedFormat
| UnsupportedVersion.

Definition Cursor := list Z.

Definition at_end (cur : Cursor) : bool :=
  match cur with [] => true | _ => false end.

Definition read_bytes (n : nat) (cur : Cursor)
  : DecodeError + (list Z * Cursor) :=
  if (n <=? List.length cur)%nat then inr (firstn n cur, skipn n cur)
  else inl TruncatedData.

(** The little-endian value of a run of bytes. *)
Definition le_value (bs : list Z) : Z :=
  fold_right (fun b acc => b + 256 * acc) 0 bs.

Definition read_uint (width : nat) (cur : Cursor) : DecodeError + (Z * Cursor) :=
  match read_bytes width cur with
  | inl e => inl e
  | inr (bs, cur') => inr (le_value bs, cur')
  end.

Definition read_u16 := read_uint 2.
Definition read_u32 := read_uint 4.

Fixpoint bytes_eqb (a b : list Z) : bool :=
  match a, b with
  | [], [] => true
  | x :: a', y :: b' => (x =? y) && bytes_eqb a' b'
  | _, _ => false
  end.

(** One framed record: command id and payload. *)
Definition Record_ := (Z * list Z)%type.

(** Modelled from the spec: the framing loop of section 4.2. It reads a
    2-byte length [L], then [L] bytes: the command id and [L-1] bytes of
    payload. It stops at the end of the buffer, or at a record that the
    buffer does not hold whole, and then says so in the flag. A declared
    length of 0 holds no command id and stops the loop the same way.
    [fuel] bounds the number of records; the length of the buffer is
    enough, since every record takes two bytes or more. *)
Fixpoint read_records (fuel : nat) (cur : Cursor) : list Record_ * bool :=
  match fuel with
  | O => ([], negb (at_end cur))
  | S fuel' =>
      if at_end cur then ([], false)
      else
        match read_u16 cur with
        | inl _ => ([], true)
        | inr (L, cur1) =>
            match read_bytes (Z.to_nat L) cur1 with
            | inl _ => ([], true)
            | inr ([], _) => ([], true)
            | inr (id :: payload, cur2) =>
                let (records, truncated) := read_records fuel' cur2 in
                ((id, payload) :: records, truncated)
            end
        end
  end.

(** What [parse] gives for a file it does not reject. *)
Record Parsed : Type := {
  state : SessionState;
  truncated : bool
}.

Section Decoder.

(** The constants of the file format, which the design leaves to the
    format: the magic signature, the versions that can be decoded, the
    command ids that are recognized and the layout of their payloads. The
    version number is read as a 32-bit integer. *)
Variable magic : list Z.
Variable supported_version : Z -> bool.
Variable recognized : Z -> bool.
Variable decode_payload : Z -> list Z -> Command.

(** Modelled from the spec: the header check of section 4.2. *)
Definition read_header (cur : Cursor) : DecodeError + Cursor :=
  match read_bytes (List.length magic) cur with
  | inl e => inl e
  | inr (m, cur1) =>
      if bytes_eqb m magic then
        match read_u32 cur1 with
        | inl e => inl e
        | inr (v, cur2) =>
            if supported_version v then inr cur2 else inl UnsupportedVersion
        end
      else inl UnsupportedFormat
  end.

(** Modelled from the spec: "unrecognized ids are decoded as
    Command::Unknown(id, payload)" (the decoder's code is missing). *)
Definition decode_record (r : Record_) : Command :=
  if recognized (fst r) then decode_payload (fst r) (snd r)
  else Unknown (fst r) (snd r).

(** Modelled from the spec: the facade of section 4.5, decoder then
    replay. Truncation is not fatal; the other two errors are. *)
Definition parse (file_bytes : list Z) : DecodeError + Parsed :=
  match read_header file_bytes with
  | inl TruncatedData => inr {| state := empty_state; truncated := true |}
  | inl e => inl e
  | inr cur =>
      let (records, flag) := read_records (List.length cur) cur in
      inr {| state := replay (map decode_record records); truncated := flag |}
  end.

(** The bytes a writer of the format puts out, to state what a valid
    stream is. *)
Definition encode_uint (width : nat) (n : Z) : list Z :=
  map (fun i => (n / 256 ^ Z.of_nat i) mod 256) (seq 0 width).

Definition encode_record (r : Record_) : list Z :=
  (encode_uint 2 (1 + Z.of_nat (List.length (snd r))) ++ fst r :: snd r)%list.

Definition encode_records (rs : list Record_) : list Z :=
  flat_map encode_record rs.

Definition encode_header (version : Z) : list Z :=
  (magic ++ encode_uint 4 version)%list.

(** A record the 2-byte length can frame. *)
Definition framable (r : Record_) : Prop :=
  1 + Z.of_nat (List.length (snd r)) < 65536.

End Decoder.

(** A small instance of the format's constants, to run the decoder on:
    command 0 creates the window its payload names, command 1 closes the
    tab its payload names. *)
Definition example_magic : list Z := [83; 78; 83; 83].
Definition example_supported (v : Z) : bool := v =? 1.
Definition example_recognized (id : Z) : bool := id <? 2.
Definition example_decode (id : Z) (payload : list Z) : Command :=
  if id =? 0 then CreateWindow (le_value payload)
  else TabClosed (le_value payload).

Definition example_parse : list Z -> DecodeError + Parsed :=
  parse example_magic example_supported example_recognized example_decode.

(** A stream of two records, and the same stream cut after the first. *)
Definition example_records : list Record_ := [(0, [1]); (1, [10; 0])].

Definition example_stream : list Z :=
  (encode_header example_magic 1 ++ encode_records example_records)%list.

Definition example_cut_at_boundary : list Z := firstn 12 example_stream.
Definition example_cut_inside : list Z := firstn 14 example_stream.

End Core.

(* ===================================================================== *)
(** ** Properties of cli.py *)
(* ===================================================================== *)

Module CliProofs.

Import Py Cli.
Open Scope string_scope.

Lemma find_first_match {A} (test : A -> bool) (l : list A) (p : A) :
  first_match test l p -> find test l = Some p.
Proof.
  intros (before & after & -> & Hp & Hb).
  induction Hb as [|q before Hq _ IH]; simpl.
  - now rewrite Hp.
  - now rewrite Hq.
Qed.

Lemma find_all_false {A} (test : A -> bool) (l : list A) :
  (forall q, In q l -> test q = false) -> find test l = None.
Proof.
  induction l as [|x l IH]; simpl; intros H; [reflexivity|].
  rewrite (H x (or_introl eq_refl)). apply IH. intros q Hq. apply H. now right.
Qed.

Lemma name_given_some (n : string) :
  n <> "" -> name_given (Some n) = Some n.
Proof.
  intros Hn. unfold name_given.
  destruct (String.eqb_spec n ""); [contradiction|reflexivity].
Qed.

Lemma fallback_when_no_match lower b profile_name first rest :
  no_name_match lower b profile_name ->
  profiles b = first :: rest ->
  get_selected_profile lower b profile_name =
    match find has_sessions (profiles b) with
    | Some p => Some p
    | None => Some first
    end.
Proof.
  intros Hno Hp. unfold get_selected_profile. rewrite Hp.
  destruct Hno as [-> | [-> | (n & -> & Hq)]]; simpl name_given; try reflexivity.
  destruct (n =? ""); [reflexivity|].
  rewrite <- Hp.
  rewrite (find_all_false (exact_match n) (profiles b))
    by (intros q Hin; apply (Hq q Hin)).
  rewrite (find_all_false (partial_match lower n) (profiles b))
    by (intros q Hin; apply (Hq q Hin)).
  reflexivity.
Qed.

(** C9. Profile selection gives nothing exactly when the browser has no
    profile. With a non-empty name it gives the first profile of that
    very name; failing that, the first profile whose lowered name
    contains the lowered name asked for. With no name, or a name that
    matches no profile, it gives the first profile that has sessions,
    and the first profile of all when none has. *)
Theorem get_selected_profile_spec (lower : string -> string) (b : Browser)
    (profile_name : option string) :
  (get_selected_profile lower b profile_name = None <-> profiles b = []) /\
  (forall n p, profile_name = Some n -> n <> "" ->
     first_match (exact_match n) (profiles b) p ->
     get_selected_profile lower b profile_name = Some p) /\
  (forall n p, profile_name = Some n -> n <> "" ->
     (forall q, In q (profiles b) -> exact_match n q = false) ->
     first_match (partial_match lower n) (profiles b) p ->
     get_selected_profile lower b profile_name = Some p) /\
  (forall p, no_name_match lower b profile_name ->
     first_match has_sessions (profiles b) p ->
     get_selected_profile lower b profile_name = Some p) /\
  (forall first rest, no_name_match lower b profile_name ->
     (forall q, In q (profiles b) -> has_sessions q = false) ->
     profiles b = first :: rest ->
     get_selected_profile lower b profile_name = Some first).
Proof.
  repeat split.
  - unfold get_selected_profile.
    destruct (profiles b) as [|first rest]; [reflexivity|].
    intros H. exfalso.
    destruct (name_given profile_name);
      repeat match type of H with
             | context [match find ?t ?l with _ => _ end] => destruct (find t l)
             end; discriminate.
  - intros H. unfold get_selected_profile. now rewrite H.
  - intros n p -> Hn Hfirst.
    unfold get_selected_profile. rewrite (name_given_some Hn).
    rewrite (find_first_match Hfirst).
    destruct Hfirst as (before & after & -> & _).
    now destruct before.
  - intros n p -> Hn Hexact Hfirst.
    unfold get_selected_profile. rewrite (name_given_some Hn).
    rewrite (find_all_false _ _ Hexact), (find_first_match Hfirst).
    destruct Hfirst as (before & after & -> & _).
    now destruct before.
  - intros p Hno Hfirst.
    destruct (profiles b) as [|first rest] eqn:Hp.
    + destruct Hfirst as (before & after & Heq & _). now destruct before.
    + rewrite (fallback_when_no_match Hno Hp), Hp, (find_first_match Hfirst).
      reflexivity.
  - intros first rest Hno Hnone Hp.
    rewrite (fallback_when_no_match Hno Hp), (find_all_false _ _ Hnone).
    reflexivity.
Qed.

(** *** Listing session files *)

Lemma insert_desc_perm {A} (x : A * Z) (l : list (A * Z)) :
  Permutation (insert_desc x l) (x :: l).
Proof.
  induction l as [|y l IH]; simpl; [apply Permutation_refl|].
  destruct (snd y <=? snd x)%Z; [apply Permutation_refl|].
  eapply perm_trans; [apply perm_skip, IH | apply perm_swap].
Qed.

Lemma insert_desc_hdrel {A} (a x : A * Z) (l : list (A * Z)) :
  key_desc a x -> HdRel key_desc a l -> HdRel key_desc a (insert_desc x l).
Proof.
  intros Hax Hl. destruct l as [|y l]; simpl; [now constructor|].
  destruct (snd y <=? snd x)%Z; constructor; auto.
  now inversion Hl.
Qed.

Lemma insert_desc_sorted {A} (x : A * Z) (l : list (A * Z)) :
  Sorted key_desc l -> Sorted key_desc (insert_desc x l).
Proof.
  induction 1 as [|y l Hs IH Hhd]; simpl; [repeat constructor|].
  destruct (Z.leb_spec (snd y) (snd x)) as [Hle|Hlt].
  - constructor; [now constructor|]. constructor. exact Hle.
  - constructor; [exact IH|].
    apply insert_desc_hdrel; [|exact Hhd]. unfold key_desc. lia.
Qed.

Lemma sorted_reverse_perm {A} (l : list (A * Z)) :
  Permutation (sorted_reverse l) l.
Proof.
  induction l as [|x l IH]; simpl; [constructor|].
  eapply perm_trans; [apply insert_desc_perm | now apply perm_skip].
Qed.

Lemma sorted_reverse_sorted {A} (l : list (A * Z)) :
  Sorted key_desc (sorted_reverse l).
Proof.
  induction l as [|x l IH]; simpl; [constructor|].
  now apply insert_desc_sorted.
Qed.

Lemma map_result_total {A B} (f : A -> result B) (g : A -> B) (l : list A) :
  (forall x, In x l -> f x = inr (g x)) -> map_result f l = inr (map g l).
Proof.
  induction l as [|x l IH]; simpl; intros H; [reflexivity|].
  rewrite (H x (or_introl eq_refl)). simpl.
  rewrite IH by (intros y Hy; apply H; now right). reflexivity.
Qed.

(** Sortedness of keyed items carries over to the items, when the key
    of each is its time stamp. *)
Lemma sorted_map_fst (mtime : Path -> Z) (l : list (Path * Z)) :
  Forall (fun p => snd p = mtime (fst p)) l ->
  Sorted key_desc l ->
  Sorted (fun a b => (mtime b <= mtime a)%Z) (map fst l).
Proof.
  intros Hk Hs. induction Hs as [|x l Hs IH Hhd]; simpl; [constructor|].
  inversion Hk as [|? ? Hx Hl]; subst.
  constructor; [now apply IH|].
  destruct Hhd as [|y l Hxy]; simpl; constructor.
  inversion Hl as [|? ? Hy _]; subst.
  unfold key_desc in Hxy. now rewrite <- Hx, <- Hy.
Qed.

Lemma sorted_adjacent {A} (R : A -> A -> Prop) (l : list A) :
  Sorted R l ->
  forall before a b after, l = (before ++ a :: b :: after)%list -> R a b.
Proof.
  intros Hs before. revert l Hs.
  induction before as [|x before IH]; intros l Hs a b after ->.
  - inversion Hs as [|? ? _ Hhd]; subst. now inversion Hhd.
  - inversion Hs as [|? ? Hs' _]; subst. eapply IH; [exact Hs'|reflexivity].
Qed.

(** C7. When every matching file of the directory can be stat'ed,
    [list_session_files] returns the matching files, each once, newest
    first: of two neighbours in the list the first has the greater or
    equal modification time. *)
Theorem list_session_files_newest_first
    (is_dir path_exists : Path -> bool)
    (scandir : Path -> list string) (stat_mtime : Path -> result Z)
    (mtime : Path -> Z) (sessions_dir : Path) :
  (forall f, In f (flat_map (glob is_dir path_exists scandir sessions_dir) session_patterns) ->
             stat_mtime f = inr (mtime f)) ->
  exists files,
    list_session_files is_dir path_exists scandir stat_mtime sessions_dir = inr files /\
    Permutation files (flat_map (glob is_dir path_exists scandir sessions_dir) session_patterns) /\
    forall before a b after,
      files = (before ++ a :: b :: after)%list -> (mtime b <= mtime a)%Z.
Proof.
  intros Hstat.
  set (found := flat_map (glob is_dir path_exists scandir sessions_dir) session_patterns) in *.
  set (keyed := map (fun f => (f, mtime f)) found).
  assert (Hkeyed : map_result (with_mtime stat_mtime) found = inr keyed).
  { apply map_result_total. intros f Hf. unfold with_mtime.
    now rewrite (Hstat f Hf). }
  exists (map fst (sorted_reverse keyed)).
  unfold list_session_files. fold found. rewrite Hkeyed. simpl.
  split; [reflexivity|]. split.
  - eapply perm_trans; [apply Permutation_map, sorted_reverse_perm|].
    unfold keyed. rewrite map_map. simpl. rewrite map_id.
    apply Permutation_refl.
  - apply (sorted_adjacent (R := fun a b => (mtime b <= mtime a)%Z)).
    apply sorted_map_fst; [|apply sorted_reverse_sorted].
    eapply Permutation_Forall; [apply Permutation_sym, sorted_reverse_perm|].
    unfold keyed. apply Forall_forall. intros p Hp.
    apply in_map_iff in Hp. destruct Hp as (f & <- & _). reflexivity.
Qed.

(** *** Computations that print *)

Lemma for_out_cons {A S O} (body : A -> S -> out O unit * S) x l s :
  for_out body (x :: l) s =
  match snd (fst (body x s)) with
  | inl e => body x s
  | inr _ =>
      (after (fst (fst (body x s))) (fst (for_out body l (snd (body x s)))),
       snd (for_out body l (snd (body x s))))
  end.
Proof.
  simpl. destruct (body x s) as [[printed r] s']. simpl.
  destruct r as [e|u]; [reflexivity|].
  now destruct (for_out body l s').
Qed.

Lemma console_print_cases {O} h texts (o : O) :
  (first_error h texts = None /\ console_print h texts o = ([o], inr tt)) \/
  (exists msg, first_error h texts = Some msg /\
               console_print h texts o = ([], inl (MarkupError msg))).
Proof.
  unfold console_print. destruct (first_error h texts) as [msg|].
  - right. now exists msg.
  - now left.
Qed.

Lemma rprint_cases h text :
  (markup_error h text = None /\ rprint h text = ([PrintText text], inr tt)) \/
  (exists msg, markup_error h text = Some msg /\
               rprint h text = ([], inl (MarkupError msg))).
Proof.
  unfold rprint, console_print. simpl.
  destruct (markup_error h text) as [msg|].
  - right. now exists msg.
  - now left.
Qed.

Lemma first_error_in h texts msg :
  first_error h texts = Some msg ->
  exists text, In text texts /\ markup_error h text = Some msg.
Proof.
  induction texts as [|t texts IH]; simpl; [discriminate|].
  destruct (markup_error h t) as [m|] eqn:E.
  - intros H. injection H as <-. exists t. auto.
  - intros H. destruct (IH H) as (text & Hin & Ht). exists text. auto.
Qed.

Lemma first_error_none h texts :
  first_error h texts = None <->
  forall text, In text texts -> markup_error h text = None.
Proof.
  induction texts as [|t texts IH]; simpl.
  - split; [intros _ text []|reflexivity].
  - destruct (markup_error h t) as [m|] eqn:E.
    + split; [discriminate|]. intros H.
      rewrite (H t (or_introl eq_refl)) in E. discriminate.
    + rewrite IH. split.
      * intros H text [<-|Hin]; auto.
      * intros H text Hin. apply H. now right.
Qed.



(** *** The loop of the parse command *)

Section LoopFacts.

Variable h : Runtime.
Variable stat_mtime : Path -> result Z.
Variable World : Type.
Variable parse_file : WorkspaceMap -> Path -> World -> result value * World.
Variable browser_obj : Browser.
Variable profile_obj : BrowserProfile.
Variable workspaces_map : WorkspaceMap.
Variables json_output show_deleted by_workspace : bool.

Let label := parse_and_label stat_mtime parse_file browser_obj profile_obj
               workspaces_map.
Let one := parse_one h stat_mtime parse_file browser_obj profile_obj
             workspaces_map json_output show_deleted by_workspace.
Let loop := parse_loop h stat_mtime parse_file browser_obj profile_obj
              workspaces_map json_output show_deleted by_workspace.
Let tried := attempts stat_mtime parse_file browser_obj profile_obj
               workspaces_map.

Lemma parse_one_state f rs w :
  snd (one f (rs, w)) = ((rs ++ kept [fst (label f w)])%list, snd (label f w)).
Proof.
  unfold one, parse_one. fold label.
  destruct (label f w) as [[e|r] w']; simpl; [now rewrite app_nil_r|reflexivity].
Qed.

Lemma parse_one_failed f rs w e :
  fst (label f w) = inl e ->
  fst (one f (rs, w)) = rprint h (error_line h f e).
Proof.
  unfold one, parse_one. fold label.
  destruct (label f w) as [[e'|r] w']; simpl; [|discriminate].
  intros H. now injection H as ->.
Qed.

(** A turn of the loop returns, or ends on the complaint of rich about
    the error line of its file. *)
Lemma parse_one_ending f s :
  snd (fst (one f s)) = inr tt \/
  exists e msg, markup_error h (error_line h f e) = Some msg /\
                snd (fst (one f s)) = inl (MarkupError msg).
Proof.
  destruct s as [rs w]. unfold one, parse_one. fold label.
  destruct (label f w) as [[e|r] w']; simpl.
  - destruct (rprint_cases h (error_line h f e)) as [[_ ->]|(msg & Hm & ->)];
      [now left|right; now exists e, msg].
  - destruct json_output; [now left|].
    unfold try_except.
    destruct (show_result h browser_obj profile_obj show_deleted by_workspace
                r f) as [printed [e|[]]]; simpl; [|now left].
    destruct (rprint_cases h (error_line h f e)) as [[_ ->]|(msg & Hm & ->)];
      [now left|right; now exists e, msg].
Qed.



Lemma parse_loop_cons f files s :
  loop (f :: files) s =
  match snd (fst (one f s)) with
  | inl e => one f s
  | inr _ => (after (fst (fst (one f s))) (fst (loop files (snd (one f s)))),
              snd (loop files (snd (one f s))))
  end.
Proof. apply for_out_cons. Qed.


(** How the loop ends: either it returns, having taken every file of
    the batch, or it ends at some file on the complaint of rich about
    that file's error line. The results kept are those of the files
    taken, in order. *)
Lemma parse_loop_outcome files : forall rs w,
  exists taken rest added more,
    files = (taken ++ rest)%list /\
    fst (snd (loop files (rs, w))) = (rs ++ added)%list /\
    kept (tried files w) = (added ++ more)%list /\
    match snd (fst (loop files (rs, w))) with
    | inr _ => rest = [] /\ more = []
    | inl x =>
        exists before f e msg,
          taken = (before ++ [f])%list /\ x = MarkupError msg /\
          markup_error h (error_line h f e) = Some msg
    end.
Proof.
  induction files as [|f files IH]; intros rs w.
  - exists [], [], [], []. simpl. rewrite app_nil_r. auto.
  - rewrite parse_loop_cons.
    pose proof (parse_one_state f rs w) as Hs.
    assert (Hk : kept (tried (f :: files) w) =
                 (kept [fst (label f w)] ++ kept (tried files (snd (label f w))))%list).
    { unfold tried. simpl. fold label. destruct (label f w) as [r w']. simpl.
      fold tried. now rewrite app_nil_r. }
    destruct (parse_one_ending f (rs, w)) as [Hend|(e & msg & Hm & Hend)];
      rewrite Hend.
    + rewrite Hs. cbn [fst snd after].
      destruct (IH (rs ++ kept [fst (label f w)])%list (snd (label f w)))
        as (taken & rest & added & more & -> & Hres & Hkept & Hcase).
      exists (f :: taken), rest, (kept [fst (label f w)] ++ added)%list, more.
      split; [reflexivity|]. split; [now rewrite Hres, app_assoc|].
      split; [rewrite Hk, Hkept; now rewrite app_assoc|].
      destruct (snd (fst (loop (taken ++ rest) _))) as [x|u]; [|exact Hcase].
      destruct Hcase as (before & f' & e & msg & -> & -> & Hm).
      exists (f :: before), f', e, msg. auto.
    + exists [f], files, (kept [fst (label f w)]),
             (kept (tried files (snd (label f w)))).
      rewrite Hs, Hend. cbn [fst snd].
      split; [reflexivity|]. split; [reflexivity|]. split; [exact Hk|].
      exists [], f, e, msg. auto.
Qed.

(** C2. The loop of the parse command stops at a file that fails to
    parse when rich cannot render its error line: the handler's own
    print raises, the loop ends on that [MarkupError] with nothing
    printed for the file, the results are as they were, and no file
    after it is taken. *)
Theorem parse_loop_stops_in_its_handler (f : Path) (rest : list Path)
    (e : exn) (msg : string) (rs : list value) (w : World) :
  fst (label f w) = inl e ->
  markup_error h (error_line h f e) = Some msg ->
  loop (f :: rest) (rs, w) =
  (([], inl (MarkupError msg)), (rs, snd (label f w))).
Proof.
  intros Hf Hm. rewrite parse_loop_cons.
  pose proof (parse_one_state f rs w) as Hs.
  pose proof (parse_one_failed f rs w Hf) as Hp.
  destruct (rprint_cases h (error_line h f e)) as [[Hn _]|(m & Hm' & Hr)];
    [congruence|].
  assert (m = msg) by congruence. subst m.
  rewrite Hr in Hp.
  destruct (one f (rs, w)) as [[printed r] s'] eqn:E. simpl in *.
  injection Hp as -> ->. rewrite Hs, Hf. simpl. now rewrite app_nil_r.
Qed.

End LoopFacts.

(** *** The calls of the parse command *)

Section CallFacts.

Variable h : Runtime.
Variable lower : string -> string.
Variable is_dir : Path -> bool.
Variable path_exists : Path -> bool.
Variable scandir : Path -> list string.
Variable stat_mtime : Path -> result Z.
Variable get_browser_by_id : string -> option Browser.
Variable World : Type.
Variable load_vivaldi_workspaces : Path -> World -> WorkspaceMap * World.
Variable parse_file : WorkspaceMap -> Path -> World -> result value * World.

Let logged_label := parse_and_label stat_mtime (logged_parse_file parse_file).
Let logged_loop := parse_loop h stat_mtime (logged_parse_file parse_file).

Lemma logged_label_calls b p ws f w log :
  snd (snd (logged_label b p ws f (w, log))) = (log ++ [ParseFile ws f])%list.
Proof.
  unfold logged_label, parse_and_label, logged_parse_file. simpl.
  now destruct (parse_file ws f w).
Qed.

(** The loop calls the parser once for each file it takes, in order,
    each time with the mapping it was given; it takes every file unless
    it ends on a [MarkupError]. *)
Lemma parse_loop_calls b p ws json_output show_deleted by_workspace files :
  forall rs w log,
  exists taken rest,
    files = (taken ++ rest)%list /\
    (files <> [] -> taken <> []) /\
    snd (snd (snd (logged_loop b p ws json_output show_deleted by_workspace
                     files (rs, (w, log)))))
    = (log ++ map (ParseFile ws) taken)%list /\
    (rest = [] \/
     exists msg,
       snd (fst (logged_loop b p ws json_output show_deleted by_workspace
                   files (rs, (w, log)))) = inl (MarkupError msg)).
Proof.
  induction files as [|f files IH]; intros rs w log.
  - exists [], []. simpl. rewrite app_nil_r. auto.
  - unfold logged_loop. rewrite parse_loop_cons.
    pose proof (parse_one_state h stat_mtime (logged_parse_file parse_file)
                  b p ws json_output show_deleted by_workspace f rs (w, log))
      as Hs.
    pose proof (logged_label_calls b p ws f w log) as Hlog.
    fold logged_label in Hs.
    destruct (logged_label b p ws f (w, log)) as [r [w' log']] eqn:El.
    cbn [fst snd] in Hs, Hlog. subst log'.
    destruct (parse_one_ending h stat_mtime (logged_parse_file parse_file)
                b p ws json_output show_deleted by_workspace f (rs, (w, log)))
      as [Hend|(e & msg & Hm & Hend)]; rewrite Hend.
    + rewrite Hs. cbn [fst snd after].
      destruct (IH (rs ++ kept [r])%list w' (log ++ [ParseFile ws f])%list)
        as (taken & rest & -> & _ & Hcalls & Hrest).
      exists (f :: taken), rest. split; [reflexivity|].
      split; [discriminate|].
      fold logged_loop. split; [rewrite Hcalls; simpl; now rewrite <- app_assoc|].
      exact Hrest.
    + exists [f], files. rewrite Hs, Hend. cbn [fst snd map].
      split; [reflexivity|]. split; [discriminate|]. split; [reflexivity|].
      right. now exists msg.
Qed.

(** C8. In a run of the parse command the workspace mapping is loaded
    at most once, and before any file is parsed: the calls it makes to
    its collaborators are none when the browser or the profile is not
    found; the one load of the profile's mapping when there is no file to
    parse or the listing raises; and else that load followed by one call
    of the parser for each file taken, in order, each with the very
    mapping the load returned. Every file of the batch is taken unless
    the loop ends on a [MarkupError]. *)
Theorem workspaces_loaded_once (browser : string) (files : option (list Path))
    (profile : option string) (latest : Z)
    (json_output show_deleted by_workspace : bool) (w : World) :
  let run := parse h lower is_dir path_exists scandir stat_mtime
               get_browser_by_id (logged_load load_vivaldi_workspaces)
               (logged_parse_file parse_file) browser files profile latest
               json_output show_deleted by_workspace (w, []) in
  match reached lower is_dir path_exists scandir stat_mtime get_browser_by_id
          browser files profile latest with
  | NoBrowser | NoProfile _ => snd (state_after run) = []
  | ListingRaised _ p _ | NoFiles _ p =>
      snd (state_after run) = [LoadWorkspaces (path p)]
  | Files _ p g gs =>
      exists taken rest,
        g :: gs = (taken ++ rest)%list /\ taken <> [] /\
        snd (state_after run) =
          LoadWorkspaces (path p)
          :: map (ParseFile (fst (load_vivaldi_workspaces (path p) w))) taken /\
        (rest = [] \/ exists msg, ending_of run = inl (MarkupError msg))
  end.
Proof.
  intros run. subst run. unfold reached, parse, state_after, ending_of.
  destruct (get_browser_by_id browser) as [b|]; [|reflexivity].
  destruct (get_selected_profile lower b profile) as [p|]; [|reflexivity].
  assert (Hload : logged_load load_vivaldi_workspaces (path p) (w, []) =
                  (fst (load_vivaldi_workspaces (path p) w),
                   (snd (load_vivaldi_workspaces (path p) w),
                    [LoadWorkspaces (path p)]))).
  { unfold logged_load. cbn [fst snd app].
    now destruct (load_vivaldi_workspaces (path p) w). }
  rewrite Hload. clear Hload.
  destruct (files_to_parse_of is_dir path_exists scandir stat_mtime files p
              latest) as [e|[|g gs]]; cbn beta iota; try reflexivity.
  destruct (load_vivaldi_workspaces (path p) w) as [ws w1]. cbn [fst snd].
  destruct (parse_loop_calls b p ws json_output show_deleted by_workspace
              (g :: gs) [] w1 [LoadWorkspaces (path p)])
    as (taken & rest & Hsplit & Hne & Hcalls & Hrest).
  fold logged_loop.
  destruct (logged_loop b p ws json_output show_deleted by_workspace (g :: gs)
              ([], (w1, [LoadWorkspaces (path p)]))) as [[printed r] [rs s]].
  cbn [fst snd] in *.
  exists taken, rest. split; [exact Hsplit|].
  split; [apply Hne; discriminate|]. split; [exact Hcalls|].
  destruct Hrest as [->|(msg & ->)]; [now left|].
  right. exists msg. reflexivity.
Qed.

End CallFacts.

(** *** The JSON output of the parse command *)

Section JsonFacts.

Variable h : Runtime.
Variable lower : string -> string.
Variable is_dir : Path -> bool.
Variable path_exists : Path -> bool.
Variable scandir : Path -> list string.
Variable stat_mtime : Path -> result Z.
Variable get_browser_by_id : string -> option Browser.
Variable World : Type.
Variable load_vivaldi_workspaces : Path -> World -> WorkspaceMap * World.
Variable parse_file : WorkspaceMap -> Path -> World -> result value * World.

Let run := parse h lower is_dir path_exists scandir stat_mtime
             get_browser_by_id load_vivaldi_workspaces parse_file.
Let loop := parse_loop h stat_mtime parse_file.
Let tried := attempts stat_mtime parse_file.

(** A run that reaches the loop is the loop followed by the output
    step. *)
Lemma parse_reaches_loop browser files profile latest json_output
    show_deleted by_workspace w b p g gs :
  reached lower is_dir path_exists scandir stat_mtime get_browser_by_id
    browser files profile latest = Files b p g gs ->
  run browser files profile latest json_output show_deleted by_workspace w =
  let ws := fst (load_vivaldi_workspaces (path p) w) in
  let w1 := snd (load_vivaldi_workspaces (path p) w) in
  let looped := loop b p ws json_output show_deleted by_workspace (g :: gs)
                  ([], w1) in
  (_ <~ fst looped ;;
   if json_output then
     output <~ quiet (json_output_value (fst (snd looped))) ;;
     emit (PrintJson output)
   else quiet (ret tt),
   snd (snd looped)).
Proof.
  unfold reached, run, parse.
  destruct (get_browser_by_id browser) as [b'|]; [|discriminate].
  destruct (get_selected_profile lower b' profile) as [p'|]; [|discriminate].
  destruct (files_to_parse_of is_dir path_exists scandir stat_mtime files p'
              latest) as [e|[|g' gs']] eqn:Hf; try discriminate.
  intros H. injection H as -> -> -> ->.
  destruct (load_vivaldi_workspaces (path p) w) as [ws w1]. cbn [fst snd].
  unfold loop.
  now destruct (parse_loop _ _ _ _ _ _ _ _ _ _ _) as [looped s].
Qed.



End JsonFacts.

(** *** Readers of a parsed result *)

Lemma and_then_quiet {O A B} (a : A) (k : A -> out O B) :
  and_then (quiet (inr a)) k = k a.
Proof. unfold and_then, quiet, after. simpl. now destruct (k a). Qed.

Lemma and_then_raise {O A B} (e : exn) (k : A -> out O B) :
  and_then (quiet (inl e)) k = quiet (inl e).
Proof. reflexivity. Qed.




























(** *** What the parse command adds to a result *)

Lemma lookup_assoc_set_same key x d : lookup key (assoc_set key x d) = Some x.
Proof.
  induction d as [|[k v] d IH]; simpl.
  - now rewrite String.eqb_refl.
  - destruct (k =? key) eqn:E; simpl; now rewrite E.
Qed.

Lemma lookup_assoc_set_other key key' x d :
  key <> key' -> lookup key' (assoc_set key x d) = lookup key' d.
Proof.
  intros Hk. induction d as [|[k v] d IH]; simpl.
  - apply String.eqb_neq in Hk. now rewrite Hk.
  - destruct (String.eqb_spec k key) as [->|Hne]; simpl.
    + apply String.eqb_neq in Hk. now rewrite Hk.
    + destruct (k =? key'); [reflexivity|exact IH].
Qed.

Lemma assoc_set_new key x d :
  lookup key d = None -> assoc_set key x d = (d ++ [(key, x)])%list.
Proof.
  induction d as [|[k v] d IH]; simpl; [reflexivity|].
  destruct (k =? key); [discriminate|]. intros H. now rewrite IH.
Qed.

Lemma lookup_app_none key d d' :
  lookup key d = None -> lookup key (d ++ d')%list = lookup key d'.
Proof.
  induction d as [|[k v] d IH]; simpl; [reflexivity|].
  destruct (k =? key); [discriminate|exact IH].
Qed.


Lemma table_lookup key (m : WorkspaceMap) : forall d,
  lookup key (fold_left table_step m d) =
  match last_with_key key m with
  | Some w => Some (workspace_entry w)
  | None => lookup key d
  end.
Proof.
  induction m as [|[k w] m IH]; intros d; [reflexivity|].
  cbn [fold_left last_with_key]. rewrite IH.
  destruct (last_with_key key m); [reflexivity|].
  unfold table_step. cbn [fst snd].
  destruct (String.eqb_spec k key) as [->|Hne].
  - apply lookup_assoc_set_same.
  - now apply lookup_assoc_set_other.
Qed.

Lemma table_distinct (m : WorkspaceMap) : forall d,
  NoDup (map fst m) ->
  (forall k, In k (map fst m) -> lookup k d = None) ->
  fold_left table_step m d =
  (d ++ map (fun kw => (fst kw, workspace_entry (snd kw))) m)%list.
Proof.
  induction m as [|[k w] m IH]; intros d Hnd Hnew.
  - simpl. now rewrite app_nil_r.
  - cbn [fold_left map]. inversion Hnd as [|? ? Hk Hnd']; subst.
    unfold table_step at 2. cbn [fst snd].
    rewrite assoc_set_new by (apply Hnew; now left).
    rewrite IH; [now rewrite <- app_assoc|exact Hnd'|].
    intros k' Hk'. rewrite lookup_app_none by (apply Hnew; now right).
    simpl. destruct (String.eqb_spec k k') as [->|]; [contradiction|reflexivity].
Qed.



(** The five keys of a kept result. *)
Lemma parse_and_label_keys (stat_mtime : Path -> result Z) (World : Type)
    (parse_file : WorkspaceMap -> Path -> World -> result value * World)
    b p ws f w r :
  fst (parse_and_label stat_mtime parse_file b p ws f w) = inr r ->
  exists parsed labelled mtime,
    fst (parse_file ws f w) = inr (VDict parsed) /\
    stat_mtime f = inr mtime /\
    r = VDict labelled /\
    lookup "_file" labelled = Some (VStr f) /\
    lookup "_mtime" labelled = Some (VInt mtime) /\
    lookup "_browser" labelled = Some (VStr (browser_name b)) /\
    lookup "_profile" labelled = Some (VStr (name p)) /\
    lookup "_workspaces" labelled = Some (workspaces_table ws) /\
    forall key, ~ In key label_keys -> lookup key labelled = lookup key parsed.
Proof.
  unfold parse_and_label, bind.
  destruct (parse_file ws f w) as [[e|v] w']; cbn [fst]; [discriminate|].
  destruct v as [| | | | |parsed]; try discriminate.
  cbn [setitem ret].
  destruct (stat_mtime f) as [e|mtime]; [discriminate|].
  cbn [setitem ret]. intros H. injection H as <-.
  eexists parsed, _, mtime.
  split; [reflexivity|]. split; [reflexivity|]. split; [reflexivity|].
  repeat rewrite ?lookup_assoc_set_same,
    ?(lookup_assoc_set_other _ _ (key := "_workspaces")),
    ?(lookup_assoc_set_other _ _ (key := "_profile")),
    ?(lookup_assoc_set_other _ _ (key := "_browser")),
    ?(lookup_assoc_set_other _ _ (key := "_mtime")) by discriminate.
  repeat (split; [reflexivity|]).
  intros key Hkey. unfold label_keys in Hkey. simpl in Hkey.
  rewrite !lookup_assoc_set_other; [reflexivity| | | | |];
    intros <-; tauto.
Qed.



(** *** The theorems at work on the small world *)

(** "work" is no profile's exact name; "Work" is the first to contain
    it, case apart. *)
Lemma get_selected_profile_spec_witness :
  get_selected_profile lower_ascii example_browser (Some "work") =
  Some example_work.
Proof.
  apply (proj1 (proj2 (proj2
           (get_selected_profile_spec lower_ascii example_browser (Some "work"))))
           "work").
  - reflexivity.
  - discriminate.
  - intros q Hq. simpl in Hq.
    destruct Hq as [<-|[<-|[<-|[]]]]; reflexivity.
  - exists [example_default], [example_homework].
    split; [reflexivity|]. split; [reflexivity|].
    constructor; [reflexivity|constructor].
Defined.

Lemma list_session_files_newest_first_witness :
  exists files,
    list_session_files example_is_dir example_exists example_scandir
      example_stat "/v/Work/Sessions" = inr files /\
    Permutation files
      (flat_map (glob example_is_dir example_exists example_scandir
                   "/v/Work/Sessions") session_patterns) /\
    forall before a b after,
      files = (before ++ a :: b :: after)%list ->
      (example_mtime b <= example_mtime a)%Z.
Proof.
  apply (list_session_files_newest_first example_is_dir example_exists
           example_scandir example_stat example_mtime "/v/Work/Sessions").
  intros f _. reflexivity.
Defined.

(** The parser rejects the first file, whose path closes the tag of the
    error line: the loop ends there, and the second file is not parsed. *)
Lemma parse_loop_stops_in_its_handler_witness :
  parse_loop example_runtime example_stat
    (logged_parse_file example_parse_file) example_browser example_work
    example_workspaces true false false
    ["/x/Tabs[/red]"; "/x/Session_1"] ([], (tt, [])) =
  (([], inl (MarkupError "closing tag '[/red]' doesn't match any open tag")),
   ([], (tt, [ParseFile example_workspaces "/x/Tabs[/red]"]))).
Proof.
  exact (parse_loop_stops_in_its_handler example_runtime example_stat
           (logged_parse_file example_parse_file) example_browser
           example_work example_workspaces true false false
           "/x/Tabs[/red]" ["/x/Session_1"] (e := Raised "unsupported format")
           [] (tt, []) eq_refl eq_refl).
Defined.

Lemma workspaces_loaded_once_witness :
  exists taken rest,
    ["/v/Work/Sessions/Current Session"; "/v/Work/Sessions/Session_22";
     "/v/Work/Sessions/Session_1"] = (taken ++ rest)%list /\
    taken <> [] /\
    snd (state_after (example_run None false)) =
      LoadWorkspaces "/v/Work" :: map (ParseFile example_workspaces) taken /\
    (rest = [] \/
     exists msg, ending_of (example_run None false) = inl (MarkupError msg)).
Proof.
  exact (workspaces_loaded_once example_runtime lower_ascii example_is_dir
           example_exists example_scandir example_stat example_get_browser
           example_load example_parse_file "vivaldi" None (Some "work") 3
           false false false tt).
Defined.




End CliProofs.

(* ===================================================================== *)
(** ** Properties of the session core *)
(* ===================================================================== *)

Module CoreProofs.

Import Core.
Open Scope Z_scope.

(** The scenarios of the design document, run on the model. *)
Example scenario_open :
  replay [CreateWindow 1; CreateTab 10 1 0; SetTabTitle 10 "Example";
          SetActiveWindow 1; SetSelectedTabInWindow 1 10] =
  {| windows :=
       [{| window_id := 1; w_active := true; w_deleted := false;
           tabs := [{| tab_id := 10; title := "Example"; active := true;
                       deleted := false; workspace := None |}] |}];
     unattached := [] |}.
Proof. reflexivity. Qed.

Example scenario_tab_closed :
  replay [CreateWindow 1; CreateTab 10 1 0; SetTabTitle 10 "Example";
          SetActiveWindow 1; SetSelectedTabInWindow 1 10; TabClosed 10] =
  {| windows :=
       [{| window_id := 1; w_active := true; w_deleted := false;
           tabs := [{| tab_id := 10; title := "Example"; active := true;
                       deleted := true; workspace := None |}] |}];
     unattached := [] |}.
Proof. reflexivity. Qed.

Example scenario_window_closed :
  replay [CreateWindow 1; CreateTab 10 1 0; SetTabTitle 10 "Example";
          SetActiveWindow 1; SetSelectedTabInWindow 1 10; WindowClosed 1] =
  {| windows :=
       [{| window_id := 1; w_active := true; w_deleted := true;
           tabs := [{| tab_id := 10; title := "Example"; active := true;
                       deleted := true; workspace := None |}] |}];
     unattached := [] |}.
Proof. reflexivity. Qed.

(** C4. An unknown command put anywhere into a command sequence leaves
    the state the sequence replays to as it was. *)
Theorem unknown_is_noop (before after : list Command) (id : Z)
    (payload : list Z) :
  replay (before ++ Unknown id payload :: after) = replay (before ++ after).
Proof.
  unfold replay, replay_from. now rewrite !fold_left_app.
Qed.

(** *** Tombstones *)

Section Flags.

Variable A : Type.
Variable name_of : A -> Z.
Variable flag : A -> bool.

Local Abbreviation named := (Core.named name_of).
Local Abbreviation flagged := (Core.flagged name_of flag).
Local Abbreviation rises := (Core.rises name_of flag).
Local Abbreviation keeps := (Core.keeps name_of flag).

Lemma rises_refl l : rises l l.
Proof. now intros k. Qed.

Lemma rises_trans l1 l2 l3 : rises l1 l2 -> rises l2 l3 -> rises l1 l3.
Proof. intros H1 H2 k H. apply H2, H1, H. Qed.

Lemma find_app (test : A -> bool) l1 l2 :
  find test (l1 ++ l2) =
  match find test l1 with Some x => Some x | None => find test l2 end.
Proof.
  induction l1 as [|x l1 IH]; simpl; [reflexivity|].
  now destruct (test x).
Qed.

Lemma rises_app l l2 : rises l (l ++ l2).
Proof.
  intros k. unfold Core.flagged. rewrite find_app.
  now destruct (find (named k) l).
Qed.

Lemma rises_pointwise l l' : Forall2 keeps l l' -> rises l l'.
Proof.
  intros H k. unfold Core.flagged.
  induction H as [|x y l l' [Hn Hf] _ IH]; simpl; [easy|].
  replace (named k y) with (named k x) by (unfold Core.named; now rewrite Hn).
  destruct (named k x); [exact Hf|exact IH].
Qed.

Lemma keeps_map (g : A -> A) l :
  (forall x, keeps x (g x)) -> Forall2 keeps l (map g l).
Proof. intros H. induction l; simpl; constructor; auto. Qed.

Lemma keeps_refl l : Forall2 keeps l l.
Proof. induction l; constructor; auto. now split. Qed.

Lemma find_filter_other (k k' : Z) l :
  k' <> k ->
  find (named k') (filter (fun x => negb (named k x)) l) = find (named k') l.
Proof.
  intros Hk. induction l as [|x l IH]; simpl; [reflexivity|].
  destruct (named k x) eqn:E; simpl.
  - destruct (named k' x) eqn:E'; [|exact IH].
    unfold Core.named in E, E'. apply Z.eqb_eq in E, E'. congruence.
  - destruct (named k' x); [reflexivity|exact IH].
Qed.

Lemma find_filter_self (k : Z) l :
  find (named k) (filter (fun x => negb (named k x)) l) = None.
Proof.
  induction l as [|x l IH]; simpl; [reflexivity|].
  destruct (named k x) eqn:E; simpl; [exact IH|]. now rewrite E.
Qed.

(** Taking the item named [k] out of a list and putting it, as it
    first stood, back in at any place drops no flag. *)
Lemma rises_replaced (k : Z) (x : A) l l1 l2 :
  name_of x = k ->
  (forall y, find (named k) l = Some y -> x = y) ->
  filter (fun y => negb (named k y)) l = (l1 ++ l2)%list ->
  rises l (l1 ++ x :: l2).
Proof.
  intros Hx Hfirst Hsplit k'. unfold Core.flagged.
  destruct (Z.eq_dec k' k) as [->|Hk].
  - pose proof (find_filter_self k l) as Hnone.
    rewrite Hsplit, find_app in Hnone.
    rewrite find_app. destruct (find (named k) l1); [discriminate|].
    simpl. replace (named k x) with true
      by (unfold Core.named; rewrite Hx; symmetry; apply Z.eqb_refl).
    destruct (find (named k) l) as [y|]; [|discriminate].
    now rewrite (Hfirst y eq_refl).
  - rewrite <- (find_filter_other l Hk), Hsplit, !find_app.
    simpl. replace (named k' x) with false; [tauto|].
    unfold Core.named. rewrite Hx. symmetry. apply Z.eqb_neq. congruence.
Qed.

End Flags.

Abbreviation keeps_tab := (keeps tab_id deleted).
Abbreviation keeps_window := (keeps window_id w_deleted).

Lemma tab_deleted_flagged s tid :
  tab_deleted s tid = flagged tab_id deleted (all_tabs s) tid.
Proof. reflexivity. Qed.

Lemma window_deleted_flagged s wid :
  window_deleted s wid = flagged window_id w_deleted (windows s) wid.
Proof. reflexivity. Qed.

(** A change made window by window that keeps each tab's name and
    tombstone keeps them in the whole sequence of tabs. *)
Lemma keeps_flat_map (h : Window -> Window) (ws : list Window) :
  (forall w, Forall2 keeps_tab (tabs w) (tabs (h w))) ->
  Forall2 keeps_tab (flat_map tabs ws) (flat_map tabs (map h ws)).
Proof.
  intros H. induction ws as [|w ws IH]; simpl; [constructor|].
  apply Forall2_app; [apply H|exact IH].
Qed.

Lemma flat_map_same_tabs (h : Window -> Window) (ws : list Window) :
  (forall w, tabs (h w) = tabs w) ->
  flat_map tabs (map h ws) = flat_map tabs ws.
Proof.
  intros H. induction ws as [|w ws IH]; simpl; [reflexivity|].
  now rewrite H, IH.
Qed.

Lemma ensure_window_tabs wid s : all_tabs (ensure_window wid s) = all_tabs s.
Proof.
  unfold ensure_window. destruct (find_window wid s); [reflexivity|].
  unfold all_tabs. simpl. rewrite flat_map_app. simpl.
  now rewrite app_nil_r.
Qed.

Lemma ensure_window_windows wid s : windows_rise s (ensure_window wid s).
Proof.
  unfold windows_rise, ensure_window.
  destruct (find_window wid s); [apply rises_refl|apply rises_app].
Qed.

Lemma ensure_window_found wid s :
  existsb (is_window wid) (windows (ensure_window wid s)) = true.
Proof.
  unfold ensure_window, find_window.
  destruct (find (is_window wid) (windows s)) as [w|] eqn:E; simpl.
  - apply find_some in E. apply existsb_exists. now exists w.
  - rewrite existsb_app. simpl. unfold is_window at 2. simpl.
    rewrite Z.eqb_refl. apply orb_true_iff. right. reflexivity.
Qed.

Lemma ensure_tab_tabs tid s : tabs_rise s (ensure_tab tid s).
Proof.
  unfold tabs_rise, ensure_tab.
  destruct (find_tab tid s); [apply rises_refl|].
  unfold all_tabs. simpl. rewrite app_assoc. apply rises_app.
Qed.

Lemma ensure_tab_windows tid s : windows (ensure_tab tid s) = windows s.
Proof. unfold ensure_tab. now destruct (find_tab tid s). Qed.

Lemma update_tab_tabs tid f s :
  (forall t, keeps_tab t (f t)) -> tabs_rise s (update_tab tid f s).
Proof.
  intros Hf. apply rises_pointwise. unfold all_tabs, update_tab. simpl.
  set (g := fun t => if is_tab tid t then f t else t).
  assert (Hg : forall t, keeps_tab t (g t)).
  { intros t. unfold g. destruct (is_tab tid t); [apply Hf|now split]. }
  apply Forall2_app; [|now apply keeps_map].
  apply keeps_flat_map. intros w. simpl. now apply keeps_map.
Qed.

Lemma update_tab_windows tid f s : windows_rise s (update_tab tid f s).
Proof.
  apply rises_pointwise. unfold update_tab. simpl.
  apply keeps_map. intros w. now split.
Qed.

Lemma detach_tabs tid s :
  all_tabs (detach tid s) = without_tab tid (all_tabs s).
Proof.
  unfold all_tabs, detach, without_tab. simpl. rewrite filter_app. f_equal.
  induction (windows s) as [|w ws IH]; simpl; [reflexivity|].
  now rewrite filter_app, IH.
Qed.

Lemma existsb_map_window (h : Window -> Window) wid ws :
  (forall w, window_id (h w) = window_id w) ->
  existsb (is_window wid) (map h ws) = existsb (is_window wid) ws.
Proof.
  intros H. induction ws as [|w ws IH]; simpl; [reflexivity|].
  unfold is_window at 1 3. now rewrite H, IH.
Qed.

Lemma attach_in_split wid index t ws :
  existsb (is_window wid) ws = true ->
  exists l1 l2,
    flat_map tabs ws = (l1 ++ l2)%list /\
    flat_map tabs (attach_in wid index t ws) = (l1 ++ t :: l2)%list.
Proof.
  induction ws as [|w ws IH]; simpl; [discriminate|].
  destruct (is_window wid w); simpl.
  - intros _. exists (firstn index (tabs w)), (skipn index (tabs w) ++ flat_map tabs ws)%list.
    unfold insert_at. split.
    + now rewrite app_assoc, firstn_skipn.
    + now rewrite <- app_assoc.
  - intros H. destruct (IH H) as (l1 & l2 & E1 & E2).
    exists (tabs w ++ l1)%list, l2. rewrite E1, E2, !app_assoc. now split.
Qed.

Lemma attach_in_windows wid index t ws :
  Forall2 keeps_window ws (attach_in wid index t ws).
Proof.
  induction ws as [|w ws IH]; simpl; [constructor|].
  destruct (is_window wid w); constructor;
    try (now split); [apply keeps_refl|exact IH].
Qed.

Lemma place_tab_tabs tid wid index s : tabs_rise s (place_tab tid wid index s).
Proof.
  unfold tabs_rise, place_tab.
  set (s1 := ensure_window wid s).
  rewrite <- (ensure_window_tabs wid s). fold s1.
  set (t := match find_tab tid s1 with Some t => t | None => default_tab tid end).
  destruct (attach_in_split wid index t (windows (detach tid s1)))
    as (l1 & l2 & E1 & E2).
  { unfold detach. simpl. rewrite existsb_map_window by reflexivity.
    apply ensure_window_found. }
  unfold all_tabs at 2. simpl unattached. simpl windows.
  change (map _ (windows s1)) with (windows (detach tid s1)).
  rewrite E2, <- app_assoc. simpl.
  apply rises_replaced with (k := tid).
  - unfold t. destruct (find_tab tid s1) as [t0|] eqn:E; [|reflexivity].
    apply find_some in E. destruct E as [_ E]. now apply Z.eqb_eq in E.
  - intros y Hy. unfold t, find_tab, is_tab.
    unfold named in Hy. now rewrite Hy.
  - change (filter _ (all_tabs s1)) with (without_tab tid (all_tabs s1)).
    rewrite <- detach_tabs. unfold all_tabs at 1. now rewrite E1, app_assoc.
Qed.

Lemma place_tab_windows tid wid index s :
  windows_rise s (place_tab tid wid index s).
Proof.
  unfold windows_rise, place_tab. simpl.
  eapply rises_trans; [apply ensure_window_windows|].
  eapply rises_trans; [|apply rises_pointwise, attach_in_windows].
  apply rises_pointwise, keeps_map. intros w. now split.
Qed.

Lemma activate_window_rises wid s :
  tabs_rise s (activate_window wid s) /\ windows_rise s (activate_window wid s).
Proof.
  unfold tabs_rise, windows_rise, activate_window. split.
  - unfold all_tabs at 2. simpl.
    rewrite flat_map_same_tabs by reflexivity.
    fold (all_tabs (ensure_window wid s)). rewrite ensure_window_tabs.
    apply rises_refl.
  - simpl. eapply rises_trans; [apply ensure_window_windows|].
    apply rises_pointwise, keeps_map. intros w. now split.
Qed.

Lemma select_tab_rises wid tid s :
  tabs_rise s (select_tab wid tid s) /\ windows_rise s (select_tab wid tid s).
Proof.
  unfold tabs_rise, windows_rise, select_tab.
  set (s1 := ensure_tab tid (ensure_window wid s)). split.
  - apply rises_trans with (all_tabs s1).
    + unfold s1. rewrite <- (ensure_window_tabs wid s) at 1.
      apply ensure_tab_tabs.
    + apply rises_pointwise. unfold all_tabs. simpl.
      apply Forall2_app; [|apply keeps_refl].
      apply keeps_flat_map. intros w.
      destruct (is_window wid w); [|apply keeps_refl].
      simpl. apply keeps_map. intros t. now split.
  - simpl. apply rises_trans with (windows s1).
    + unfold s1. rewrite ensure_tab_windows. apply ensure_window_windows.
    + apply rises_pointwise, keeps_map. intros w.
      now destruct (is_window wid w).
Qed.

Lemma close_window_rises wid s :
  tabs_rise s (close_window wid s) /\ windows_rise s (close_window wid s).
Proof.
  unfold tabs_rise, windows_rise, close_window.
  set (s1 := ensure_window wid s). split.
  - rewrite <- (ensure_window_tabs wid s). fold s1.
    apply rises_pointwise. unfold all_tabs. simpl.
    apply Forall2_app; [|apply keeps_refl].
    apply keeps_flat_map. intros w.
    destruct (is_window wid w); [|apply keeps_refl].
    simpl. apply keeps_map. intros t. now split.
  - simpl. apply rises_trans with (windows s1).
    + apply ensure_window_windows.
    + apply rises_pointwise, keeps_map. intros w.
      destruct (is_window wid w); now split.
Qed.

Lemma update_ensured_rises tid f s :
  (forall t, keeps_tab t (f t)) ->
  tabs_rise s (update_tab tid f (ensure_tab tid s)) /\
  windows_rise s (update_tab tid f (ensure_tab tid s)).
Proof.
  intros Hf. split.
  - eapply rises_trans; [apply ensure_tab_tabs|now apply update_tab_tabs].
  - unfold windows_rise. rewrite <- (ensure_tab_windows tid s) at 1.
    apply update_tab_windows.
Qed.

(** One command drops no tombstone, of a tab or of a window. *)
Lemma apply_command_rises s c :
  tabs_rise s (apply_command s c) /\ windows_rise s (apply_command s c).
Proof.
  destruct c; simpl;
    try (split; apply rises_refl);
    try (apply update_ensured_rises; intros t; now split).
  - split; [|apply ensure_window_windows].
    unfold tabs_rise. rewrite ensure_window_tabs. apply rises_refl.
  - split; [apply place_tab_tabs|apply place_tab_windows].
  - apply activate_window_rises.
  - apply select_tab_rises.
  - apply close_window_rises.
  - split; [apply place_tab_tabs|apply place_tab_windows].
Qed.

Lemma replay_from_rises cmds : forall s,
  tabs_rise s (replay_from s cmds) /\ windows_rise s (replay_from s cmds).
Proof.
  induction cmds as [|c cmds IH]; intros s; simpl.
  - split; apply rises_refl.
  - destruct (apply_command_rises s c) as [Ht Hw].
    destruct (IH (apply_command s c)) as [Ht' Hw'].
    split; eapply rises_trans; eassumption.
Qed.

(** C3. Once a replay has set the tombstone of a tab or of a window,
    the tombstone is still set after any further commands of the same
    sequence. *)
Theorem tombstones_are_monotonic (done more : list Command) (id : Z) :
  (tab_deleted (replay done) id = true ->
   tab_deleted (replay (done ++ more)) id = true) /\
  (window_deleted (replay done) id = true ->
   window_deleted (replay (done ++ more)) id = true).
Proof.
  unfold replay, replay_from. rewrite fold_left_app.
  destruct (replay_from_rises more (fold_left apply_command done empty_state))
    as [Ht Hw].
  split; [apply Ht|apply Hw].
Qed.

(** *** Truncated streams *)

Example whole_stream_parses :
  example_parse example_stream =
  inr {| state := replay [CreateWindow 1; TabClosed 10]; truncated := false |}.
Proof. reflexivity. Qed.

Example cut_inside_is_flagged :
  example_parse example_cut_inside =
  inr {| state := replay [CreateWindow 1]; truncated := true |}.
Proof. reflexivity. Qed.

Lemma encode_uint_length width n : List.length (encode_uint width n) = width.
Proof. unfold encode_uint. now rewrite length_map, length_seq. Qed.

Lemma encode_uint_succ width n :
  encode_uint (S width) n = n mod 256 :: encode_uint width (n / 256).
Proof.
  unfold encode_uint. simpl. rewrite Z.div_1_r. f_equal.
  rewrite <- seq_shift, map_map. apply map_ext. intros i.
  f_equal. rewrite Nat2Z.inj_succ, Z.pow_succ_r by lia.
  rewrite Z.div_div by lia. reflexivity.
Qed.

Lemma le_value_encode width : forall n,
  0 <= n < 256 ^ Z.of_nat width -> le_value (encode_uint width n) = n.
Proof.
  induction width as [|width IH]; intros n Hn.
  - simpl in *. lia.
  - rewrite encode_uint_succ.
    change (le_value (n mod 256 :: encode_uint width (n / 256)))
      with (n mod 256 + 256 * le_value (encode_uint width (n / 256))).
    rewrite IH.
    + pose proof (Z.div_mod n 256). lia.
    + rewrite Nat2Z.inj_succ, Z.pow_succ_r in Hn by lia.
      split; [apply Z.div_pos; lia|apply Z.div_lt_upper_bound; lia].
Qed.

Lemma read_bytes_app (a b : list Z) :
  read_bytes (List.length a) (a ++ b) = inr (a, b).
Proof.
  unfold read_bytes. rewrite length_app.
  destruct (Nat.leb_spec (List.length a) (List.length a + List.length b));
    [|lia].
  rewrite firstn_app, Nat.sub_diag, firstn_all, skipn_app, Nat.sub_diag,
    skipn_all. simpl. now rewrite app_nil_r.
Qed.

Lemma read_bytes_short n (cur : list Z) :
  (List.length cur < n)%nat -> read_bytes n cur = inl TruncatedData.
Proof.
  intros H. unfold read_bytes.
  destruct (Nat.leb_spec n (List.length cur)); [lia|reflexivity].
Qed.

Lemma read_uint_encode width n rest :
  0 <= n < 256 ^ Z.of_nat width ->
  read_uint width (encode_uint width n ++ rest) = inr (n, rest).
Proof.
  intros Hn. unfold read_uint.
  rewrite <- (encode_uint_length width n) at 1.
  now rewrite read_bytes_app, le_value_encode.
Qed.

Lemma bytes_eqb_refl a : bytes_eqb a a = true.
Proof. induction a as [|x a IH]; simpl; [reflexivity|]. now rewrite Z.eqb_refl. Qed.

Lemma framable_length (r : Record_) :
  framable r ->
  0 <= 1 + Z.of_nat (List.length (snd r)) < 256 ^ Z.of_nat 2.
Proof. unfold framable. change (256 ^ Z.of_nat 2) with 65536. lia. Qed.

(** A whole record in front of the cursor is read, and the loop goes on
    behind it. *)
Lemma read_records_record fuel (r : Record_) (tail : list Z) :
  framable r ->
  read_records (S fuel) (encode_record r ++ tail) =
  (r :: fst (read_records fuel tail), snd (read_records fuel tail)).
Proof.
  intros Hr. destruct r as [id payload]. unfold encode_record. simpl fst.
  simpl snd in *. cbn [read_records].
  assert (Hne : at_end ((encode_uint 2 (1 + Z.of_nat (List.length payload))
                          ++ id :: payload) ++ tail) = false).
  { rewrite !encode_uint_succ. reflexivity. }
  rewrite Hne. unfold read_u16. rewrite <- app_assoc.
  rewrite read_uint_encode by (apply (framable_length Hr)).
  replace (Z.to_nat (1 + Z.of_nat (List.length payload)))
    with (List.length (id :: payload)) by (cbn [List.length]; lia).
  rewrite read_bytes_app.
  now destruct (read_records fuel tail).
Qed.

Lemma read_records_stream (rs : list Record_) : forall fuel tail,
  Forall framable rs ->
  read_records (List.length rs + fuel) (encode_records rs ++ tail) =
  ((rs ++ fst (read_records fuel tail))%list, snd (read_records fuel tail)).
Proof.
  induction rs as [|r rs IH]; intros fuel tail Hrs.
  - simpl. now destruct (read_records fuel tail).
  - inversion Hrs as [|? ? Hr Hrs']; subst.
    change (encode_records (r :: rs)) with (encode_record r ++ encode_records rs)%list.
    rewrite <- app_assoc. simpl List.length. simpl Nat.add.
    rewrite read_records_record by exact Hr.
    rewrite IH by exact Hrs'. reflexivity.
Qed.

(** A cursor that ends before the end of a record stops the loop; the
    flag is set exactly when some bytes of the record are there. *)
Lemma read_records_partial fuel (r : Record_) (partial rest : list Z) :
  framable r ->
  encode_record r = (partial ++ rest)%list -> rest <> [] ->
  read_records fuel partial = ([], negb (at_end partial)).
Proof.
  intros Hr Hsplit Hrest. destruct fuel as [|fuel]; [reflexivity|].
  cbn [read_records]. destruct partial as [|b0 partial]; [reflexivity|].
  simpl at_end. cbv iota. simpl negb.
  destruct r as [id payload]. unfold encode_record in Hsplit.
  cbn [fst snd] in Hsplit.
  pose proof (framable_length Hr) as HL. cbn [snd] in HL.
  set (L := 1 + Z.of_nat (List.length payload)) in *.
  assert (Henc : forall tl, (encode_uint 2 L ++ tl)%list
                            = L mod 256 :: (L / 256) mod 256 :: tl).
  { intros tl. now rewrite !encode_uint_succ. }
  rewrite Henc in Hsplit.
  destruct partial as [|b1 partial].
  - unfold read_u16, read_uint.
    now rewrite read_bytes_short by (cbn [List.length]; lia).
  - cbn [app] in Hsplit. injection Hsplit as H0 H1 Hbody.
    assert (Hlen : (List.length partial < Z.to_nat L)%nat).
    { apply (f_equal (@List.length Z)) in Hbody.
      rewrite length_app in Hbody. cbn [List.length] in Hbody.
      destruct rest; [contradiction|]. cbn [List.length] in Hbody.
      unfold L. lia. }
    pose proof (read_uint_encode 2 partial HL) as Hu.
    rewrite Henc, H0, H1 in Hu.
    unfold read_u16. rewrite Hu.
    now rewrite read_bytes_short by exact Hlen.
Qed.

Lemma encode_records_length (rs : list Record_) :
  (List.length rs <= List.length (encode_records rs))%nat.
Proof.
  induction rs as [|r rs IH]; [simpl; lia|].
  change (encode_records (r :: rs))
    with (encode_record r ++ encode_records rs)%list.
  unfold encode_record.
  rewrite !length_app, encode_uint_length. cbn [List.length]. lia.
Qed.

Section DecoderFacts.

Variable magic : list Z.
Variable supported_version : Z -> bool.
Variable recognized : Z -> bool.
Variable decode_payload : Z -> list Z -> Command.

Lemma read_header_encode version rest :
  supported_version version = true -> 0 <= version < 2 ^ 32 ->
  read_header magic supported_version (encode_header magic version ++ rest)
  = inr rest.
Proof.
  intros Hv Hrange. unfold read_header, encode_header.
  rewrite <- app_assoc, read_bytes_app, bytes_eqb_refl.
  unfold read_u32. rewrite read_uint_encode by exact Hrange.
  now rewrite Hv.
Qed.

(** A record with an id that is not recognized changes no replay. *)
Lemma unrecognized_record_is_noop (before after : list Record_) (r : Record_) :
  recognized (fst r) = false ->
  replay (map (decode_record recognized decode_payload) (before ++ r :: after))
  = replay (map (decode_record recognized decode_payload) (before ++ after)).
Proof.
  intros Hr. rewrite !map_app. simpl. unfold decode_record at 2.
  rewrite Hr. unfold replay, replay_from. now rewrite !fold_left_app.
Qed.

(** C5, as the decoder can have it. Cut a valid stream of records
    anywhere before the end of record number [k] (counting from 0) but
    not before its start: parsing the bytes that are left is not an
    error, and gives the state that replaying the first [k] records
    gives. The truncation flag is set exactly when the cut falls inside
    the record; a cut on the boundary leaves a complete stream of [k]
    records and no flag. *)
Theorem truncated_stream_replays_prefix (version : Z)
    (records : list Record_) (k : nat) (partial rest : list Z) :
  supported_version version = true -> 0 <= version < 2 ^ 32 ->
  Forall framable records ->
  (k < List.length records)%nat ->
  encode_record (nth k records (0, [])) = (partial ++ rest)%list ->
  rest <> [] ->
  parse magic supported_version recognized decode_payload
    (encode_header magic version ++
     encode_records (firstn k records) ++ partial) =
  inr {| state := replay (map (decode_record recognized decode_payload)
                              (firstn k records));
         truncated := negb (at_end partial) |}.
Proof.
  intros Hv Hrange Hrs Hk Hsplit Hrest. unfold parse.
  rewrite read_header_encode by assumption.
  set (done := firstn k records).
  assert (Hdone : Forall framable done).
  { pose proof Hrs as Hall. rewrite <- (firstn_skipn k records) in Hall.
    apply Forall_app in Hall. apply Hall. }
  assert (Hnth : framable (nth k records (0, []))).
  { rewrite Forall_forall in Hrs. apply Hrs. now apply nth_In. }
  pose proof (encode_records_length done) as Hlen.
  replace (List.length (encode_records done ++ partial))
    with (List.length done +
          (List.length (encode_records done ++ partial) - List.length done))%nat
    by (rewrite length_app; lia).
  rewrite read_records_stream by exact Hdone.
  rewrite (@read_records_partial _ _ _ _ Hnth Hsplit Hrest). simpl.
  now rewrite app_nil_r.
Qed.

End DecoderFacts.

(** C5, the claim as written, refuted: the stream of two records cut
    at the end of the first decodes one record only, and no flag says
    that anything is missing. *)
Lemma boundary_cut_is_not_flagged :
  example_cut_at_boundary =
    (encode_header example_magic 1 ++
     encode_records (firstn 1 example_records))%list /\
  example_parse example_stream =
    inr {| state := replay [CreateWindow 1; TabClosed 10];
           truncated := false |} /\
  example_parse example_cut_at_boundary =
    inr {| state := replay [CreateWindow 1]; truncated := false |}.
Proof. repeat split. Qed.

(** *** The theorems at work on examples *)

(** A closed tab stays closed when it is placed again, moved to another
    window and selected there. *)
Lemma tombstones_are_monotonic_witness :
  tab_deleted
    (replay ([CreateWindow 1; CreateTab 10 1 0; TabClosed 10] ++
             [CreateTab 10 1 0; MoveTabToWindow 10 2 0;
              SetSelectedTabInWindow 2 10; SetTabTitle 10 "again"])) 10
  = true.
Proof.
  apply (proj1 (tombstones_are_monotonic
                  [CreateWindow 1; CreateTab 10 1 0; TabClosed 10]
                  [CreateTab 10 1 0; MoveTabToWindow 10 2 0;
                   SetSelectedTabInWindow 2 10; SetTabTitle 10 "again"] 10)).
  reflexivity.
Defined.

(** The example stream cut two bytes into its second record. *)
Lemma truncated_stream_replays_prefix_witness :
  example_parse example_cut_inside =
  inr {| state := replay (map (decode_record example_recognized example_decode)
                              (firstn 1 example_records));
         truncated := true |}.
Proof.
  apply (@truncated_stream_replays_prefix example_magic example_supported
           example_recognized example_decode 1 example_records 1
           [3; 0] [1; 10; 0]).
  - reflexivity.
  - lia.
  - repeat constructor.
  - simpl. lia.
  - reflexivity.
  - discriminate.
Defined.

End CoreProofs.

(* ===================================================================== *)
(** ** More properties of cli.py *)
(* ===================================================================== *)

Module CliMore.

Import Py Cli.
Open Scope string_scope.

(** *** Strings *)




Lemma prefix_append (p : string) : forall s,
  String.prefix p s = true <-> exists rest, s = p ++ rest.
Proof.
  induction p as [|c p IH]; intros s.
  - split; [intros _; now exists s|intros _; now destruct s].
  - destruct s as [|d s]; simpl.
    + split; [discriminate|]. intros (rest & H). discriminate.
    + destruct (Ascii.ascii_dec c d) as [->|Hcd].
      * rewrite IH. split; intros (rest & H); exists rest.
        -- now rewrite H.
        -- now injection H.
      * split; [discriminate|]. intros (rest & H). congruence.
Qed.


(** *** What display_by_window prints *)

Lemma window_row_cases h show_deleted tab r :
  window_row h show_deleted tab = inr r ->
  exists d,
    getitem tab "deleted" = inr d /\
    match r with
    | None => truthy d && negb show_deleted = true
    | Some row =>
        truthy d && negb show_deleted = false /\ row_deleted row = truthy d
    end.
Proof.
  unfold window_row, bind, ret. intros H.
  destruct (getitem tab "deleted") as [e|d]; [discriminate|].
  exists d. split; [reflexivity|].
  destruct (truthy d && negb show_deleted) eqn:Ehide.
  - injection H as <-. reflexivity.
  - destruct (getitem tab "title") as [e|t]; [discriminate|].
    destruct (shorten h t) as [e|t']; [discriminate|].
    destruct (getitem tab "active") as [e|a]; [discriminate|].
    destruct (get tab "workspace") as [e|w]; [discriminate|].
    destruct (truthy w).
    + destruct (getitem tab "workspace") as [e|x]; [discriminate|].
      injection H as <-. auto.
    + injection H as <-. auto.
Qed.

Lemma count_rows_agree h show_deleted (tabs : list value) :
  forall n n' rows rows',
    for_each (count_tab show_deleted) tabs n = inr n' ->
    for_each (add_row h show_deleted) tabs rows = inr rows' ->
    (n' + List.length rows = n + List.length rows')%nat /\
    (show_deleted = false ->
     Forall (fun r => row_deleted r = false) rows ->
     Forall (fun r => row_deleted r = false) rows').
Proof.
  induction tabs as [|tab tabs IH]; intros n n' rows rows' Hc Hr.
  - simpl in Hc, Hr. injection Hc as <-. injection Hr as <-. auto.
  - simpl in Hc, Hr. unfold bind in Hc, Hr.
    destruct (count_tab show_deleted n tab) as [e|n1] eqn:E1; [discriminate|].
    destruct (add_row h show_deleted rows tab) as [e|rows1] eqn:E2;
      [discriminate|].
    destruct (IH _ _ _ _ Hc Hr) as [Hlen Hdel].
    unfold add_row, bind, ret in E2.
    destruct (window_row h show_deleted tab) as [e|r] eqn:Erow; [discriminate|].
    injection E2 as <-.
    destruct (window_row_cases _ _ _ Erow) as (d & Hd & Hcase).
    unfold count_tab, bind, ret in E1. rewrite Hd in E1. injection E1 as <-.
    destruct r as [row|].
    + destruct Hcase as [Hshown Hrow].
      replace (negb (truthy d) || show_deleted) with true in Hlen
        by (destruct (truthy d), show_deleted; simpl in *; congruence).
      rewrite length_app in Hlen. simpl in Hlen. split; [lia|].
      intros Hsd Hrows. apply Hdel; [exact Hsd|].
      apply Forall_app. split; [exact Hrows|].
      constructor; [|constructor]. rewrite Hrow. subst show_deleted.
      now rewrite andb_true_r in Hshown.
    + replace (negb (truthy d) || show_deleted) with false in Hlen
        by (destruct (truthy d), show_deleted; simpl in *; congruence).
      split; [lia|exact Hdel].
Qed.

Lemma window_tree_facts h show_deleted i window t :
  window_tree h show_deleted i window = inr (Some t) ->
  tree_number t = S i /\
  tree_tab_count t = List.length (tree_rows t) /\
  (show_deleted = false ->
   tree_status t <> StatusDeleted /\
   Forall (fun r => row_deleted r = false) (tree_rows t)).
Proof.
  unfold window_tree, bind, ret. intros H.
  destruct (getitem window "deleted") as [e|d]; [discriminate|].
  destruct (truthy d && negb show_deleted) eqn:Ehide; [discriminate|].
  destruct (getitem window "active") as [e|a]; [discriminate|].
  destruct (getitem window "tabs") as [e|tv]; [discriminate|].
  destruct (iter tv) as [e|tabs]; [discriminate|].
  destruct (for_each (count_tab show_deleted) tabs 0%nat) as [e|n] eqn:Ec;
    [discriminate|].
  destruct (for_each (add_row h show_deleted) tabs []) as [e|rows] eqn:Er;
    [discriminate|].
  injection H as <-. simpl.
  destruct (count_rows_agree _ _ _ _ _ Ec Er) as [Hlen Hdel].
  split; [lia|]. split; [simpl in Hlen; lia|].
  intros ->. split; [|now apply Hdel].
  rewrite andb_true_r in Ehide. rewrite Ehide.
  destruct (truthy a); discriminate.
Qed.

Lemma window_tree_shown h i window :
  window_tree h true i window <> inr None.
Proof.
  unfold window_tree, bind, ret.
  destruct (getitem window "deleted") as [e|d]; [discriminate|].
  rewrite andb_false_r.
  destruct (getitem window "active") as [e|a]; [discriminate|].
  destruct (getitem window "tabs") as [e|tv]; [discriminate|].
  destruct (iter tv) as [e|tabs]; [discriminate|].
  destruct (for_each _ tabs 0%nat); [discriminate|].
  destruct (for_each _ tabs []); discriminate.
Qed.

(** One turn of the loop over windows prints the tree of the window, or
    nothing. *)
Lemma show_window_cases h show_deleted window i :
  snd (show_window h show_deleted window i) = S i /\
  ((exists tree,
      window_tree h show_deleted i window = inr (Some tree) /\
      fst (show_window h show_deleted window i) = ([tree], inr tt)) \/
   (fst (fst (show_window h show_deleted window i)) = [] /\
    (snd (fst (show_window h show_deleted window i)) = inr tt ->
     window_tree h show_deleted i window = inr None))).
Proof.
  unfold show_window. cbn [fst snd]. split; [reflexivity|].
  destruct (window_tree h show_deleted i window) as [e|[tree|]];
    [right; split; [reflexivity|discriminate]| |
     right; split; [reflexivity|reflexivity]].
  rewrite CliProofs.and_then_quiet. unfold print_tree.
  destruct (CliProofs.console_print_cases h (map (row_label h) (tree_rows tree))
              tree) as [[_ ->]|(msg & _ & ->)].
  - left. now exists tree.
  - right. split; [reflexivity|discriminate].
Qed.

Lemma show_windows_facts h show_deleted (windows : list value) :
  forall i,
    let trees := fst (fst (for_out (show_window h show_deleted) windows i)) in
    Forall (fun t => tree_tab_count t = List.length (tree_rows t) /\
                     (show_deleted = false ->
                      tree_status t <> StatusDeleted /\
                      Forall (fun r => row_deleted r = false) (tree_rows t)))
           trees /\
    Forall (fun t => (i < tree_number t <= i + List.length windows)%nat) trees /\
    Sorted lt (map tree_number trees) /\
    (show_deleted = true ->
     exists k,
       (k <= List.length windows)%nat /\
       map tree_number trees = seq (S i) k /\
       (snd (fst (for_out (show_window h show_deleted) windows i)) = inr tt ->
        k = List.length windows)).
Proof.
  induction windows as [|w windows IH]; intros i.
  - simpl. repeat split; try constructor. intros _. exists 0%nat. auto.
  - cbv zeta. rewrite CliProofs.for_out_cons.
    destruct (show_window_cases h show_deleted w i)
      as [Hnext [(tree & Et & Hturn)|[Hnone Hskip]]].
    + rewrite Hturn, Hnext. cbn [fst snd after app].
      destruct (IH (S i)) as (Hok & Hnum & Hsorted & Hall).
      destruct (window_tree_facts _ _ _ _ Et) as (Hn & Hc & Hd).
      split; [constructor; auto|]. split.
      { constructor; [simpl; lia|].
        eapply Forall_impl; [|exact Hnum]. simpl. intros; lia. }
      split.
      { simpl. constructor; [exact Hsorted|].
        destruct (fst (fst (for_out _ windows (S i)))) as [|t2 more];
          simpl; constructor.
        inversion Hnum; subst. lia. }
      intros Hsd. destruct (Hall Hsd) as (k & Hk & Hseq & Hend).
      exists (S k). simpl. split; [lia|].
      split; [now rewrite Hn, Hseq|]. intros H. f_equal. now apply Hend.
    + destruct (snd (fst (show_window h show_deleted w i))) as [e|[]] eqn:Eend.
      * cbn beta iota. rewrite Hnone, Eend. repeat split; try constructor.
        intros _. exists 0%nat. simpl. repeat split; [lia|discriminate].
      * cbn beta iota. rewrite Hnone, Hnext. cbn [fst snd after app].
        destruct (IH (S i)) as (Hok & Hnum & Hsorted & Hall).
        split; [exact Hok|]. split.
        { eapply Forall_impl; [|exact Hnum]. simpl. intros; lia. }
        split; [exact Hsorted|].
        intros ->. exfalso. exact (window_tree_shown h i w (Hskip eq_refl)).
Qed.

(** X2. In what [display_by_window] prints, however it ends, the number
    of tabs a tree announces is the number of rows under it; and unless
    deleted items are asked for, no tree is that of a deleted window and
    no row that of a deleted tab. *)
Theorem display_by_window_counts_and_hides (h : Runtime) (result : value)
    (show_deleted : bool) (trees : list Tree) (ending : Py.result unit) :
  display_by_window h result show_deleted = (trees, ending) ->
  Forall (fun t => tree_tab_count t = List.length (tree_rows t)) trees /\
  (show_deleted = false ->
   Forall (fun t => tree_status t <> StatusDeleted /\
                    Forall (fun r => row_deleted r = false) (tree_rows t))
          trees).
Proof.
  unfold display_by_window. intros H.
  destruct (getitem result "windows") as [e|wv];
    [injection H as <- _; split; constructor|].
  rewrite CliProofs.and_then_quiet in H.
  destruct (iter wv) as [e|windows];
    [injection H as <- _; split; constructor|].
  rewrite CliProofs.and_then_quiet in H.
  destruct (show_windows_facts h show_deleted windows 0) as (Hok & _).
  rewrite H in Hok. cbn [fst] in Hok. split.
  - eapply Forall_impl; [|exact Hok]. simpl. tauto.
  - intros Hsd. eapply Forall_impl; [|exact Hok]. simpl. intros t [_ Ht].
    now apply Ht.
Qed.


(** *** What summary counts *)

Lemma for_each_keeps {A S} (body : S -> A -> result S) (inv : S -> Prop)
    (l : list A) :
  (forall acc x acc', inv acc -> body acc x = inr acc' -> inv acc') ->
  forall acc acc', inv acc -> for_each body l acc = inr acc' -> inv acc'.
Proof.
  intros Hbody. induction l as [|x l IH]; intros acc acc' Hacc H.
  - simpl in H. injection H as <-. exact Hacc.
  - simpl in H. unfold bind in H.
    destruct (body acc x) as [e|acc1] eqn:E; [discriminate|].
    eapply IH; [|exact H]. eapply Hbody; eassumption.
Qed.

Lemma counts_set_sum k d :
  sum_counts (counts_set k (counts_get k d + 1) d) = (sum_counts d + 1)%Z.
Proof.
  induction d as [|[k' m] d IH]; simpl; [reflexivity|].
  destruct (key_eqb k' k); simpl; [lia|]. rewrite IH. lia.
Qed.

Lemma counts_get_positive k d :
  Forall (fun kv => (1 <= snd kv)%Z) d -> (0 <= counts_get k d)%Z.
Proof.
  induction 1 as [|[k' m] d Hm _ IH]; simpl; [lia|].
  destruct (key_eqb k' k); simpl in *; lia.
Qed.

Lemma counts_set_forall (good : value -> Prop) k n d :
  good k -> (1 <= n)%Z ->
  Forall (fun kv => good (fst kv) /\ (1 <= snd kv)%Z) d ->
  Forall (fun kv => good (fst kv) /\ (1 <= snd kv)%Z) (counts_set k n d).
Proof.
  intros Hk Hn. induction 1 as [|[k' m] d [Hk' Hm] Hd IH]; simpl.
  - repeat constructor; auto.
  - destruct (key_eqb k' k); constructor; simpl in *; auto.
Qed.

Lemma counts_set_existsb k0 k n d :
  key_eqb k0 k = false ->
  existsb (fun kv => key_eqb k0 (fst kv)) (counts_set k n d) =
  existsb (fun kv => key_eqb k0 (fst kv)) d.
Proof.
  intros Hk. induction d as [|[k' m] d IH]; simpl.
  - now rewrite Hk.
  - destruct (key_eqb k' k); simpl; [reflexivity|]. now rewrite IH.
Qed.

Lemma counts_set_distinct k n d :
  distinct_keys d = true -> distinct_keys (counts_set k n d) = true.
Proof.
  induction d as [|[k' m] d IH]; simpl; [reflexivity|].
  intros H. apply andb_true_iff in H. destruct H as [Hk' Hd].
  destruct (key_eqb k' k) eqn:E; simpl.
  - now rewrite Hk', Hd.
  - rewrite (@counts_set_existsb k' k n d E), Hk'. simpl. now apply IH.
Qed.

Lemma tally_tab_keeps t tab t' :
  tally_ok t -> tally_tab t tab = inr t' -> tally_ok t'.
Proof.
  intros (Hdel & Hsum & Hall & Hdist). unfold tally_tab, bind, ret.
  destruct (getitem tab "deleted") as [e|d]; [discriminate|].
  unfold workspace_label, bind, ret.
  destruct (get tab "workspace") as [e|w]; [discriminate|].
  set (ws_name := if truthy w then w else VStr "No Workspace").
  destruct (hashable ws_name) eqn:Hhash; [|discriminate].
  intros H. injection H as <-. unfold tally_ok. simpl.
  assert (Htruthy : truthy ws_name = true).
  { unfold ws_name. destruct (truthy w) eqn:E; [exact E|reflexivity]. }
  assert (Hpos : (0 <= counts_get ws_name (ws_counts t))%Z).
  { apply counts_get_positive. eapply Forall_impl; [|exact Hall].
    simpl. tauto. }
  split; [destruct (truthy d); lia|].
  split; [rewrite counts_set_sum; lia|].
  split; [|now apply counts_set_distinct].
  apply (counts_set_forall
           (fun k => truthy k = true /\ hashable k = true)); auto. lia.
Qed.

Lemma summary_tally_ok (result : value) (t : Tally) :
  summary_tally result = inr t -> tally_ok t.
Proof.
  unfold summary_tally, bind. intros H.
  destruct (getitem result "windows") as [e|wv]; [discriminate|].
  destruct (iter wv) as [e|windows]; [discriminate|].
  eapply (for_each_keeps tally_window tally_ok); [| |exact H].
  - intros acc w acc' Hacc. unfold tally_window, bind.
    destruct (getitem w "tabs") as [e|tv]; [discriminate|].
    destruct (iter tv) as [e|tabs]; [discriminate|].
    apply (for_each_keeps tally_tab tally_ok); [|exact Hacc].
    intros a x a' Ha Hx. eapply tally_tab_keeps; eassumption.
  - repeat split; simpl; auto.
Qed.

(** X4. Whenever [summary] gets through a result, its numbers hang
    together: the deleted tabs are no more than all tabs, the counts by
    workspace add up to the number of tabs, every workspace listed has
    at least one tab and a label that is not empty, and no label is
    listed twice. *)
Theorem summary_tally_adds_up (result : value) (t : Tally) :
  summary_tally result = inr t ->
  (deleted_tabs t <= total_tabs t)%nat /\
  sum_counts (ws_counts t) = Z.of_nat (total_tabs t) /\
  Forall (fun kv => (truthy (fst kv) = true /\ hashable (fst kv) = true) /\
                    (1 <= snd kv)%Z) (ws_counts t) /\
  distinct_keys (ws_counts t) = true.
Proof.
  intros H. exact (summary_tally_ok _ H).
Qed.

(** *** Which files are parsed *)

Lemma slice_to_prefix {A} (l : list A) (n : Z) :
  exists rest, l = (slice_to l n ++ rest)%list.
Proof.
  unfold slice_to. destruct (0 <=? n)%Z;
    eexists; symmetry; apply firstn_skipn.
Qed.

(** [l[:n]] is a front part of [l]: with [n] from 0 up it has [n]
    items, or all of [l] when [l] is shorter; with a negative [n] it is
    [l] without its last [-n] items. *)
Lemma slice_to_is_a_front_part {A} (l : list A) (n : Z) :
  (exists rest, l = (slice_to l n ++ rest)%list) /\
  ((0 <= n)%Z ->
   List.length (slice_to l n) = Nat.min (Z.to_nat n) (List.length l)) /\
  ((n < 0)%Z ->
   List.length (slice_to l n) = (List.length l - Z.to_nat (- n))%nat).
Proof.
  split; [apply slice_to_prefix|]. unfold slice_to.
  destruct (Z.leb_spec 0 n); split; intros; try lia;
    rewrite length_firstn; lia.
Qed.

Section FilesToParse.

Variable is_dir path_exists : Path -> bool.
Variable scandir : Path -> list string.
Variable stat_mtime : Path -> result Z.

(** X5. Files named on the command line are parsed as they are given,
    and the sessions directory is not looked at. With none named, a
    profile without sessions gives no file, and one with sessions gives
    a front part of its newest-first listing, or the exception the
    listing raised: the [latest] newest files (all of them when there
    are fewer) for [latest] from 0 up, and all but the [-latest] oldest
    for a negative [latest]. *)
Theorem files_to_parse_of_cases (files : option (list Path))
    (profile_obj : BrowserProfile) (latest : Z) :
  (forall f fs, files = Some (f :: fs) ->
     files_to_parse_of is_dir path_exists scandir stat_mtime files profile_obj latest
     = inr (f :: fs)) /\
  (files = None \/ files = Some [] ->
   has_sessions profile_obj = false ->
   files_to_parse_of is_dir path_exists scandir stat_mtime files profile_obj latest = inr []) /\
  (files = None \/ files = Some [] ->
   has_sessions profile_obj = true ->
   match list_session_files is_dir path_exists scandir stat_mtime (sessions_path profile_obj) with
   | inl e =>
       files_to_parse_of is_dir path_exists scandir stat_mtime files profile_obj latest = inl e
   | inr listed =>
       exists chosen rest,
         files_to_parse_of is_dir path_exists scandir stat_mtime files profile_obj latest
         = inr chosen /\
         listed = (chosen ++ rest)%list /\
         ((0 <= latest)%Z ->
          List.length chosen
          = Nat.min (Z.to_nat latest) (List.length listed)) /\
         ((latest < 0)%Z ->
          List.length chosen
          = (List.length listed - Z.to_nat (- latest))%nat)
   end).
Proof.
  split; [now intros f fs ->|]. split.
  - intros [-> | ->] Hs; simpl; now rewrite Hs.
  - intros Hf Hs.
    assert (E : files_to_parse_of is_dir path_exists scandir stat_mtime files profile_obj latest =
                (l <- list_session_files is_dir path_exists scandir stat_mtime
                        (sessions_path profile_obj) ;;
                 ret (slice_to l latest))).
    { destruct Hf as [-> | ->]; simpl; now rewrite Hs. }
    rewrite E.
    destruct (list_session_files _ _ _ _ _) as [e|listed]; [reflexivity|].
    destruct (slice_to_prefix listed latest) as (rest & Hrest).
    exists (slice_to listed latest), rest.
    split; [reflexivity|]. split; [exact Hrest|].
    apply slice_to_is_a_front_part.
Qed.

End FilesToParse.

(** *** Which files are listed *)

Lemma glob_match_star (file_name : string) :
  glob_match "*" file_name = true.
Proof.
  induction file_name as [|c s IH]; [reflexivity|].
  simpl in *. exact IH.
Qed.

Lemma glob_match_exact (pattern : string) : forall file_name,
  star_free pattern = true ->
  glob_match pattern file_name = (pattern =? file_name).
Proof.
  induction pattern as [|c p IH]; intros n Hp.
  - now destruct n.
  - simpl in Hp. apply andb_true_iff in Hp. destruct Hp as [Hc Hp].
    apply negb_true_iff in Hc. simpl. rewrite Hc.
    destruct n as [|d n]; [reflexivity|]. now rewrite IH.
Qed.

Lemma glob_match_prefix (pattern : string) : forall file_name,
  star_free pattern = true ->
  glob_match (pattern ++ "*") file_name = String.prefix pattern file_name.
Proof.
  induction pattern as [|c p IH]; intros n Hp.
  - simpl String.append. rewrite glob_match_star. now destruct n.
  - simpl in Hp. apply andb_true_iff in Hp. destruct Hp as [Hc Hp].
    apply negb_true_iff in Hc.
    change ((String c p) ++ "*") with (String c (p ++ "*")).
    cbn [glob_match]. rewrite Hc.
    destruct n as [|d n]; [reflexivity|]. rewrite IH by exact Hp.
    cbn [String.prefix].
    destruct (Ascii.ascii_dec c d) as [->|Hcd].
    + now rewrite Ascii.eqb_refl.
    + apply Ascii.eqb_neq in Hcd. now rewrite Hcd.
Qed.

Lemma pattern_names_match (file_name : string) :
  glob_match "Session_*" file_name || glob_match "Tabs_*" file_name
  = pattern_name file_name.
Proof.
  unfold pattern_name.
  change "Session_*" with ("Session_" ++ "*").
  change "Tabs_*" with ("Tabs_" ++ "*").
  now rewrite !glob_match_prefix by reflexivity.
Qed.

Lemma map_result_inr {A B} (f : A -> result B) (l : list A) (ys : list B) :
  map_result f l = inr ys -> Forall2 (fun x y => f x = inr y) l ys.
Proof.
  revert ys. induction l as [|x l IH]; intros ys H; simpl in H.
  - injection H as <-. constructor.
  - unfold bind in H. destruct (f x) as [e|y] eqn:E; [discriminate|].
    destruct (map_result f l) as [e|ys']; [discriminate|].
    injection H as <-. constructor; auto.
Qed.

Lemma keyed_fst (stat_mtime : Path -> result Z) (files : list Path) keyed :
  map_result (with_mtime stat_mtime) files = inr keyed ->
  map fst keyed = files.
Proof.
  intros H. apply map_result_inr in H.
  induction H as [|x y l l' Hxy _ IH]; simpl; [reflexivity|].
  unfold with_mtime, bind, ret in Hxy.
  destruct (stat_mtime x); [discriminate|]. injection Hxy as <-.
  simpl. now rewrite IH.
Qed.

(** X6. A path is in the list [list_session_files] returns exactly when
    the sessions directory is a directory and the path is either an
    entry of it whose name begins with "Session_" or "Tabs_", or the
    path named "Current Session" or "Current Tabs" in it and it exists. *)
Theorem list_session_files_lists_sessions
    (is_dir path_exists : Path -> bool)
    (scandir : Path -> list string) (stat_mtime : Path -> result Z)
    (sessions_dir : Path) (files : list Path) :
  list_session_files is_dir path_exists scandir stat_mtime sessions_dir
  = inr files ->
  forall f,
    In f files <->
    is_dir sessions_dir = true /\
    exists file_name,
      f = joinpath sessions_dir file_name /\
      ((In file_name (scandir sessions_dir) /\ pattern_name file_name = true) \/
       (literal_name file_name = true /\ path_exists f = true)).
Proof.
  unfold list_session_files, bind, ret. intros H f.
  destruct (map_result _ _) as [e|keyed] eqn:Ek; [discriminate|].
  injection H as <-.
  assert (Hperm : Permutation (map fst (sorted_reverse keyed))
                    (flat_map (glob is_dir path_exists scandir sessions_dir)
                              session_patterns)).
  { rewrite <- (keyed_fst _ _ Ek).
    apply Permutation_map, CliProofs.sorted_reverse_perm. }
  assert (Hscan : forall pattern,
            pattern = "Session_*" \/ pattern = "Tabs_*" ->
            glob is_dir path_exists scandir sessions_dir pattern =
            if is_dir sessions_dir
            then map (joinpath sessions_dir)
                     (filter (glob_match pattern) (scandir sessions_dir))
            else []).
  { intros pattern [-> | ->]; reflexivity. }
  assert (Hname : forall pattern,
            pattern = "Current Session" \/ pattern = "Current Tabs" ->
            glob is_dir path_exists scandir sessions_dir pattern =
            if is_dir sessions_dir
            then if path_exists (joinpath sessions_dir pattern)
                 then [joinpath sessions_dir pattern] else []
            else []).
  { intros pattern [-> | ->]; reflexivity. }
  split.
  - intros Hin. apply (Permutation_in _ Hperm) in Hin.
    apply in_flat_map in Hin. destruct Hin as (pattern & Hp & Hin).
    unfold session_patterns in Hp. cbn [In] in Hp.
    destruct Hp as [Hp|[Hp|[Hp|[Hp|[]]]]]; symmetry in Hp.
    1,2: rewrite Hscan in Hin by auto;
         destruct (is_dir sessions_dir); [|destruct Hin];
         split; [reflexivity|];
         apply in_map_iff in Hin; destruct Hin as (n & <- & Hn);
         apply filter_In in Hn; destruct Hn as [Hn Hm];
         exists n; split; [reflexivity|]; left; split; [exact Hn|];
         rewrite <- pattern_names_match; subst pattern; rewrite Hm;
         auto using orb_true_r.
    1,2: rewrite Hname in Hin by auto;
         destruct (is_dir sessions_dir); [|destruct Hin];
         split; [reflexivity|];
         destruct (path_exists (joinpath sessions_dir pattern)) eqn:Ex;
           [|destruct Hin];
         destruct Hin as [<-|[]]; exists pattern;
         split; [reflexivity|]; right; split; [now subst pattern|exact Ex].
  - intros (Hdir & n & -> & Hcase).
    apply (Permutation_in _ (Permutation_sym Hperm)). apply in_flat_map.
    destruct Hcase as [[Hn Hs]|[Hs Hex]].
    + rewrite <- pattern_names_match in Hs. apply orb_true_iff in Hs.
      destruct Hs as [Hm|Hm];
        [exists "Session_*"|exists "Tabs_*"];
        (split; [unfold session_patterns; simpl; auto|]);
        rewrite Hscan, Hdir by auto; apply in_map; apply filter_In; now split.
    + unfold literal_name in Hs. apply orb_true_iff in Hs.
      destruct Hs as [Hs|Hs]; apply String.eqb_eq in Hs; subst n;
        [exists "Current Session"|exists "Current Tabs"];
        (split; [unfold session_patterns; simpl; auto|]);
        rewrite Hname, Hdir, Hex by auto; now left.
Qed.

Lemma insert_desc_stable {A} (m : Z) (x : A * Z) (l : list (A * Z)) :
  of_time m (insert_desc x l) = of_time m (x :: l).
Proof.
  induction l as [|y l IH]; [reflexivity|].
  cbn [insert_desc]. destruct (Z.leb_spec (snd y) (snd x)); [reflexivity|].
  unfold of_time in *. cbn [filter] in *. rewrite IH.
  destruct (Z.eqb_spec (snd x) m), (Z.eqb_spec (snd y) m); try reflexivity.
  lia.
Qed.

Lemma sorted_reverse_stable {A} (m : Z) (l : list (A * Z)) :
  of_time m (sorted_reverse l) = of_time m l.
Proof.
  induction l as [|x l IH]; [reflexivity|].
  cbn [sorted_reverse fold_right]. fold (sorted_reverse l).
  rewrite insert_desc_stable. unfold of_time in *. cbn [filter].
  now rewrite IH.
Qed.

Lemma map_fst_filter_keyed (mtime : Path -> Z) (m : Z) (l : list (Path * Z)) :
  Forall (fun p => snd p = mtime (fst p)) l ->
  map fst (of_time m l) = filter (fun f => (mtime f =? m)%Z) (map fst l).
Proof.
  induction 1 as [|p l Hp _ IH]; [reflexivity|].
  unfold of_time in *. cbn [filter map]. rewrite <- Hp.
  destruct (snd p =? m)%Z; cbn [map]; now rewrite IH.
Qed.

(** X7. Files with the same modification time come out of
    [list_session_files] in the order the directory search found them:
    the sort is stable, also with [reverse=True]. *)
Theorem list_session_files_keeps_ties
    (is_dir path_exists : Path -> bool)
    (scandir : Path -> list string) (stat_mtime : Path -> result Z)
    (mtime : Path -> Z) (sessions_dir : Path) (files : list Path) (m : Z) :
  (forall f, In f (flat_map (glob is_dir path_exists scandir sessions_dir) session_patterns) ->
             stat_mtime f = inr (mtime f)) ->
  list_session_files is_dir path_exists scandir stat_mtime sessions_dir = inr files ->
  filter (fun f => (mtime f =? m)%Z) files =
  filter (fun f => (mtime f =? m)%Z)
         (flat_map (glob is_dir path_exists scandir sessions_dir) session_patterns).
Proof.
  intros Hstat. unfold list_session_files, bind, ret.
  set (found := flat_map (glob is_dir path_exists scandir sessions_dir) session_patterns) in *.
  assert (Hkeyed : map_result (with_mtime stat_mtime) found
                   = inr (map (fun f => (f, mtime f)) found)).
  { apply CliProofs.map_result_total. intros f Hf. unfold with_mtime.
    now rewrite (Hstat f Hf). }
  rewrite Hkeyed. intros H. injection H as <-.
  set (keyed := map (fun f => (f, mtime f)) found).
  assert (Hk : Forall (fun p => snd p = mtime (fst p)) keyed).
  { unfold keyed. apply Forall_forall. intros p Hp.
    apply in_map_iff in Hp. destruct Hp as (f & <- & _). reflexivity. }
  assert (Hk' : Forall (fun p => snd p = mtime (fst p)) (sorted_reverse keyed)).
  { eapply Permutation_Forall;
      [apply Permutation_sym, CliProofs.sorted_reverse_perm|exact Hk]. }
  rewrite <- (map_fst_filter_keyed mtime m Hk'), sorted_reverse_stable.
  rewrite (map_fst_filter_keyed mtime m Hk).
  unfold keyed. rewrite map_map. simpl. now rewrite map_id.
Qed.

(** *** Which profile is selected *)

(** X8. The profile [get_selected_profile] gives is one of the
    browser's own profiles. *)
Theorem get_selected_profile_is_a_profile (lower : string -> string)
    (b : Browser) (profile_name : option string) (p : BrowserProfile) :
  get_selected_profile lower b profile_name = Some p -> In p (profiles b).
Proof.
  unfold get_selected_profile.
  destruct (profiles b) as [|first rest] eqn:Hp; [discriminate|].
  assert (Hfall : forall q,
            match find has_sessions (first :: rest) with
            | Some p' => Some p'
            | None => Some first
            end = Some q -> In q (first :: rest)).
  { intros q. destruct (find has_sessions (first :: rest)) as [p'|] eqn:E;
      intros H; injection H as <-; [|now left].
    now apply find_some in E. }
  destruct (name_given profile_name) as [n|]; [|apply Hfall].
  destruct (find (exact_match n) (first :: rest)) as [p'|] eqn:E1.
  - intros H. injection H as <-. now apply find_some in E1.
  - destruct (find (partial_match lower n) (first :: rest)) as [p'|] eqn:E2.
    + intros H. injection H as <-. now apply find_some in E2.
    + apply Hfall.
Qed.

(** *** What the parse command adds to a result *)

(** X9. A result the parse command keeps is the dict the parser gave
    with five keys set: the file, its modification time, the browser's
    and the profile's names and the table of workspaces. Every other key
    of the parser's dict is as the parser left it. A parser result that
    is no dict, or a file that cannot be stat'ed, makes the file fail.
    The parser is called once, and nothing else touches the world. *)
Theorem parse_and_label_sets_five_keys
    (stat_mtime : Path -> result Z) (World : Type)
    (parse_file : WorkspaceMap -> Path -> World -> result value * World)
    (browser_obj : Browser) (profile_obj : BrowserProfile)
    (workspaces_map : WorkspaceMap) (filepath : Path) (w : World) :
  snd (parse_and_label stat_mtime parse_file browser_obj profile_obj
         workspaces_map filepath w)
  = snd (parse_file workspaces_map filepath w) /\
  match fst (parse_and_label stat_mtime parse_file browser_obj profile_obj
               workspaces_map filepath w) with
  | inr r =>
      exists parsed labelled mtime,
        fst (parse_file workspaces_map filepath w) = inr (VDict parsed) /\
        stat_mtime filepath = inr mtime /\
        r = VDict labelled /\
        lookup "_file" labelled = Some (VStr filepath) /\
        lookup "_mtime" labelled = Some (VInt mtime) /\
        lookup "_browser" labelled = Some (VStr (browser_name browser_obj)) /\
        lookup "_profile" labelled = Some (VStr (name profile_obj)) /\
        lookup "_workspaces" labelled = Some (workspaces_table workspaces_map) /\
        forall key, ~ In key label_keys ->
                    lookup key labelled = lookup key parsed
  | inl e =>
      fst (parse_file workspaces_map filepath w) = inl e \/
      (exists v, fst (parse_file workspaces_map filepath w) = inr v /\
                 (forall d, v <> VDict d) /\ e = TypeError) \/
      (exists d, fst (parse_file workspaces_map filepath w) = inr (VDict d) /\
                 stat_mtime filepath = inl e)
  end.
Proof.
  split.
  { unfold parse_and_label.
    now destruct (parse_file workspaces_map filepath w). }
  destruct (fst (parse_and_label stat_mtime parse_file browser_obj profile_obj
                   workspaces_map filepath w)) as [e|r] eqn:E.
  - unfold parse_and_label, bind in E.
    destruct (parse_file workspaces_map filepath w) as [[e'|v] w'];
      cbn [fst] in *; [left; congruence|].
    destruct v as [| | | | |parsed];
      try (right; left; eexists; split; [reflexivity|];
           split; [intros d; discriminate|cbn in E; congruence]).
    cbn [setitem ret] in E.
    destruct (stat_mtime filepath) as [e'|mtime];
      [right; right; exists parsed; split; [reflexivity|congruence]|].
    discriminate.
  - exact (CliProofs.parse_and_label_keys _ _ _ _ _ _ _ E).
Qed.

(** X10. The table of workspaces put into each result, and printed by
    [workspaces --json], holds under each key the name and emoji of the
    workspace the mapping holds last under that key, and nothing under
    any other key. When no two workspaces share a key it lists every
    workspace once, in the order of the mapping. *)
Theorem workspaces_table_entries (m : WorkspaceMap) :
  exists d,
    workspaces_table m = VDict d /\
    (forall key,
       lookup key d = option_map workspace_entry (last_with_key key m)) /\
    (NoDup (map fst m) ->
     d = map (fun kw => (fst kw, workspace_entry (snd kw))) m).
Proof.
  exists (fold_left table_step m []). split; [reflexivity|]. split.
  - intros key. rewrite CliProofs.table_lookup.
    now destruct (last_with_key key m).
  - intros Hnd. now rewrite CliProofs.table_distinct.
Qed.
(** *** What display_by_workspace prints *)

Lemma insert_by_perm {A} (le : A -> A -> bool) (x : A) (l : list A) :
  Permutation (insert_by le x l) (x :: l).
Proof.
  induction l as [|y l IH]; simpl; [apply Permutation_refl|].
  destruct (le x y); [apply Permutation_refl|].
  eapply perm_trans; [apply perm_skip, IH|apply perm_swap].
Qed.

Lemma sorted_by_perm {A} (le : A -> A -> bool) (l : list A) :
  Permutation (sorted_by le l) l.
Proof.
  induction l as [|x l IH]; simpl; [constructor|].
  eapply perm_trans; [apply insert_by_perm|now apply perm_skip].
Qed.

Lemma insert_by_sorted {A} (le : A -> A -> bool) (x : A) (l : list A) :
  (forall a b, le a b = true \/ le b a = true) ->
  Sorted (fun a b => le a b = true) l ->
  Sorted (fun a b => le a b = true) (insert_by le x l).
Proof.
  intros Htotal. induction 1 as [|y l Hs IH Hhd]; simpl; [repeat constructor|].
  destruct (le x y) eqn:E.
  - constructor; [now constructor|]. now constructor.
  - constructor; [exact IH|].
    assert (Hyx : le y x = true)
      by (destruct (Htotal x y) as [H|H]; [congruence|exact H]).
    destruct l as [|z l]; simpl; [now constructor|].
    destruct (le x z); constructor; auto. now inversion Hhd.
Qed.

Lemma sorted_by_sorted {A} (le : A -> A -> bool) (l : list A) :
  (forall a b, le a b = true \/ le b a = true) ->
  Sorted (fun a b => le a b = true) (sorted_by le l).
Proof.
  intros Htotal. induction l as [|x l IH]; simpl; [constructor|].
  now apply insert_by_sorted.
Qed.

Lemma sorted_items_perm items sorted :
  sorted_items items = inr sorted -> Permutation sorted items.
Proof.
  unfold sorted_items.
  destruct items as [|a [|b items]];
    try (intros H; injection H as <-; apply Permutation_refl).
  destruct (forallb _ _);
    [intros H; injection H as <-;
     exact (sorted_by_perm _ (a :: b :: items))|].
  destruct (forallb _ _);
    [intros H; injection H as <-;
     exact (sorted_by_perm _ (a :: b :: items))|].
  discriminate.
Qed.

Lemma add_titles_of h (tabs : list value) : forall titles titles',
  for_each (add_title h) tabs titles = inr titles' ->
  exists added,
    titles' = (titles ++ added)%list /\
    Forall2 (fun tab title => tab_title h tab = inr title) tabs added.
Proof.
  induction tabs as [|tab tabs IH]; intros titles titles' H; simpl in H.
  - injection H as <-. exists []. rewrite app_nil_r.
    split; [reflexivity|constructor].
  - unfold bind in H. destruct (add_title h titles tab) as [e|t1] eqn:E;
      [discriminate|].
    destruct (IH _ _ H) as (added & -> & Hall).
    unfold add_title, bind, ret in E.
    destruct (tab_title h tab) as [e|title] eqn:Et; [discriminate|].
    injection E as <-. exists (title :: added). rewrite <- app_assoc.
    split; [reflexivity|]. now constructor.
Qed.

Lemma group_tree_of h limit label tabs g :
  limit = title_limit label -> tabs <> [] ->
  group_tree h limit label tabs = inr g ->
  group_of h tabs g /\ group_label g = label /\ group_count g = List.length tabs.
Proof.
  intros -> Hne. unfold group_tree, bind, ret.
  destruct (for_each (add_title h) _ _) as [e|titles] eqn:E; [discriminate|].
  intros H. injection H as <-. apply add_titles_of in E.
  destruct E as (added & -> & Hall).
  unfold group_of. simpl. auto.
Qed.

Lemma key_eqb_refl k : hashable k = true -> key_eqb k k = true.
Proof.
  destruct k; simpl; try discriminate; intros _; auto.
  - apply Bool.eqb_reflx.
  - apply Z.eqb_refl.
  - apply String.eqb_refl.
Qed.

Lemma key_eqb_join a b c :
  key_eqb a c = true -> key_eqb b c = true -> key_eqb a b = true.
Proof.
  destruct a, b, c; simpl; try discriminate; intros H1 H2;
    rewrite ?Z.eqb_eq, ?String.eqb_eq, ?Bool.eqb_true_iff in *;
    try congruence;
    repeat match goal with x : bool |- _ => destruct x end;
    simpl in *; try reflexivity; congruence.
Qed.

Lemma named_is_not_no_workspace k :
  is_no_workspace k = false -> key_eqb k (VStr "No Workspace") = false.
Proof. destruct k; simpl; auto. Qed.

Lemma no_workspace_is_not_named l :
  is_no_workspace l = false -> key_eqb (VStr "No Workspace") l = false.
Proof.
  destruct l; cbn [is_no_workspace key_eqb]; auto.
  intros H. now rewrite String.eqb_sym.
Qed.

Lemma no_workspace_label l :
  is_no_workspace l = true -> l = VStr "No Workspace".
Proof.
  destruct l; simpl; try discriminate. intros H.
  apply String.eqb_eq in H. now subst.
Qed.

Lemma group_has_false k d :
  group_has k d = false ->
  Forall (fun kv => key_eqb (fst kv) k = false) d.
Proof.
  induction d as [|[k' tabs] d IH]; simpl; [constructor|].
  intros H. apply orb_false_iff in H. destruct H as [E H].
  constructor; auto.
Qed.

Lemma group_has_true k d :
  group_has k d = true -> exists kv, In kv d /\ key_eqb (fst kv) k = true.
Proof.
  induction d as [|[k' tabs] d IH]; simpl; [discriminate|].
  intros H. apply orb_true_iff in H. destruct H as [E|H].
  - exists (k', tabs). auto.
  - destruct (IH H) as (kv & Hin & Hk). exists kv. auto.
Qed.

Lemma group_has_keys k d d' :
  map fst d = map fst d' -> group_has k d = group_has k d'.
Proof.
  revert d'. induction d as [|[k1 t1] d IH]; intros [|[k2 t2] d'] H;
    simpl in *; try discriminate; [reflexivity|].
  injection H as -> H. now rewrite (IH _ H).
Qed.

Lemma group_has_app k d d' :
  group_has k (d ++ d') = group_has k d || group_has k d'.
Proof.
  induction d as [|[k1 t1] d IH]; simpl; [reflexivity|].
  now rewrite IH, orb_assoc.
Qed.

Lemma group_append_keys k tab d :
  map fst (group_append k tab d) = map fst d.
Proof.
  induction d as [|[k' tabs] d IH]; simpl; [reflexivity|].
  destruct (key_eqb k' k); simpl; [reflexivity|]. now rewrite IH.
Qed.

Lemma filter_snoc {A} (f : A -> bool) (l : list A) (x : A) :
  filter f (l ++ [x]) = (filter f l ++ if f x then [x] else [])%list.
Proof. rewrite filter_app. simpl. now destruct (f x). Qed.

Lemma apart_snoc (keys : list value) (k : value) :
  ForallOrdPairs (fun a b => key_eqb a b = false) keys ->
  Forall (fun a => key_eqb a k = false) keys ->
  ForallOrdPairs (fun a b => key_eqb a b = false) (keys ++ [k]).
Proof.
  induction 1 as [|a keys Ha Hkeys IH]; intros Hall; simpl.
  - constructor; constructor.
  - inversion Hall; subst. constructor; [|now apply IH].
    apply Forall_app. split; [exact Ha|]. now repeat constructor.
Qed.

(** Appending a tab to the workspace it names, when that is there. *)
Lemma group_append_files show_deleted seen l tab d :
  shown_label show_deleted tab = Some l ->
  ForallOrdPairs (fun a b => key_eqb a b = false) (map fst d) ->
  Forall (fun kv => is_no_workspace (fst kv) = false /\
                    snd kv <> [] /\
                    snd kv = filter (filed_under show_deleted (fst kv)) seen) d ->
  Forall (fun kv => is_no_workspace (fst kv) = false /\
                    snd kv <> [] /\
                    snd kv = filter (filed_under show_deleted (fst kv))
                                    (seen ++ [tab]))
         (group_append l tab d).
Proof.
  intros Hl. induction d as [|[k tabs] d IH]; intros Hapart Hall; simpl;
    [constructor|].
  simpl in Hapart. inversion Hapart as [|? ? Hhead Htail]; subst.
  apply Forall_cons_iff in Hall. destruct Hall as [(Hk & Hne & Htabs) Hd].
  simpl in Hk, Hne, Htabs.
  destruct (key_eqb k l) eqn:E.
  - constructor.
    + simpl. split; [exact Hk|]. split; [now destruct tabs|].
      rewrite filter_snoc. unfold filed_under at 2. now rewrite Hl, E, <- Htabs.
    + rewrite Forall_forall in Hd, Hhead. apply Forall_forall.
      intros kv Hin. destruct (Hd kv Hin) as (H1 & H2 & H3).
      split; [exact H1|]. split; [exact H2|].
      rewrite filter_snoc. unfold filed_under at 2. rewrite Hl.
      assert (Hkv : key_eqb (fst kv) l = false).
      { destruct (key_eqb (fst kv) l) eqn:E'; [|reflexivity].
        rewrite <- (Hhead (fst kv) (in_map fst _ _ Hin)).
        symmetry. exact (key_eqb_join _ _ _ E E'). }
      now rewrite Hkv, app_nil_r.
  - constructor; [|now apply IH].
    simpl. split; [exact Hk|]. split; [exact Hne|].
    rewrite filter_snoc. unfold filed_under at 2.
    now rewrite Hl, E, app_nil_r.
Qed.

(** No tab gone through is filed under a label that is not there. *)
Lemma nothing_filed show_deleted l d (seen : list value) :
  is_no_workspace l = false -> group_has l d = false ->
  (forall tab l',
     In tab seen -> shown_label show_deleted tab = Some l' ->
     is_no_workspace l' = false -> group_has l' d = true) ->
  filter (filed_under show_deleted l) seen = [].
Proof.
  intros Hnamed Hhas. induction seen as [|tab seen IH]; intros Hcover;
    [reflexivity|].
  simpl. rewrite IH by (intros tab' l' Hin; apply Hcover; now right).
  assert (Hf : filed_under show_deleted l tab = false); [|now rewrite Hf].
  unfold filed_under.
  destruct (shown_label show_deleted tab) as [l'|] eqn:El'; [|reflexivity].
  destruct (key_eqb l l') eqn:Ell; [|reflexivity]. exfalso.
  assert (Hnamed' : is_no_workspace l' = false).
  { destruct (is_no_workspace l') eqn:En; [|reflexivity].
    apply no_workspace_label in En. subst l'.
    now rewrite (named_is_not_no_workspace _ Hnamed) in Ell. }
  pose proof (Hcover tab l' (or_introl eq_refl) El' Hnamed') as Hthere.
  apply group_has_true in Hthere. destruct Hthere as (kv & Hin & Hk).
  pose proof (group_has_false _ _ Hhas) as Hfalse.
  rewrite Forall_forall in Hfalse. specialize (Hfalse kv Hin).
  rewrite (key_eqb_join _ _ _ Hk Ell) in Hfalse. discriminate.
Qed.

Lemma grouping_files_skip show_deleted seen tab g :
  shown_label show_deleted tab = None ->
  grouping_files show_deleted seen g ->
  grouping_files show_deleted (seen ++ [tab]) g.
Proof.
  intros Hnone (Hall & Hno & Hapart & Hcover).
  assert (Hf : forall k, filed_under show_deleted k tab = false)
    by (intros k; unfold filed_under; now rewrite Hnone).
  split; [|split; [|split]].
  - eapply Forall_impl; [|exact Hall]. intros kv (H1 & H2 & H3).
    split; [exact H1|]. split; [exact H2|].
    now rewrite filter_snoc, Hf, app_nil_r.
  - now rewrite filter_snoc, Hf, app_nil_r.
  - exact Hapart.
  - intros tab' l Hin. apply in_app_or in Hin.
    destruct Hin as [Hin|[<-|[]]]; [now apply Hcover|congruence].
Qed.

Lemma group_append_new k tab d :
  group_has k d = false -> key_eqb k k = true ->
  group_append k tab (d ++ [(k, [])]) = (d ++ [(k, [tab])])%list.
Proof.
  intros Hhas Hk. induction d as [|[k' tabs] d IH]; simpl in *.
  - now rewrite Hk.
  - apply orb_false_iff in Hhas. destruct Hhas as [E Hhas].
    rewrite E. now rewrite IH.
Qed.

Lemma group_tab_files show_deleted seen g tab g' :
  group_tab show_deleted g tab = inr g' ->
  grouping_files show_deleted seen g ->
  grouping_files show_deleted (seen ++ [tab]) g'.
Proof.
  unfold group_tab, bind, ret. intros H Hg.
  destruct (getitem tab "deleted") as [e|d] eqn:Ed; [discriminate|].
  destruct (truthy d && negb show_deleted) eqn:Ehide.
  { injection H as <-. apply grouping_files_skip; [|exact Hg].
    unfold shown_label. now rewrite Ed, Ehide. }
  destruct (workspace_label tab) as [e|l] eqn:El; [discriminate|].
  assert (Hl : shown_label show_deleted tab = Some l)
    by (unfold shown_label; now rewrite Ed, Ehide, El).
  destruct Hg as (Hall & Hno & Hapart & Hcover).
  destruct (is_no_workspace l) eqn:Eno.
  { injection H as <-. apply no_workspace_label in Eno. subst l.
    split; [|split; [|split]]; simpl.
    - eapply Forall_impl; [|exact Hall]. intros kv (H1 & H2 & H3).
      split; [exact H1|]. split; [exact H2|].
      rewrite filter_snoc. unfold filed_under at 2.
      now rewrite Hl, (named_is_not_no_workspace _ H1), app_nil_r.
    - rewrite filter_snoc. unfold filed_under at 2. rewrite Hl. simpl.
      now rewrite Hno.
    - exact Hapart.
    - intros tab' l' Hin Hl' Hnamed. apply in_app_or in Hin.
      destruct Hin as [Hin|[<-|[]]]; [now apply (Hcover tab')|].
      rewrite Hl in Hl'. injection Hl' as <-. discriminate. }
  destruct (hashable l) eqn:Ehash; [|discriminate].
  injection H as <-.
  assert (Hnot : filter (filed_under show_deleted (VStr "No Workspace"))
                        (seen ++ [tab])
                 = filter (filed_under show_deleted (VStr "No Workspace")) seen).
  { rewrite filter_snoc. unfold filed_under at 2.
    now rewrite Hl, (no_workspace_is_not_named _ Eno), app_nil_r. }
  destruct (group_has l (workspace_tabs g)) eqn:Ehas.
  - split; [|split; [|split]]; simpl.
    + now apply group_append_files.
    + now rewrite Hnot.
    + now rewrite group_append_keys.
    + intros tab' l' Hin Hl' Hnamed.
      rewrite (group_has_keys l' _ (workspace_tabs g))
        by apply group_append_keys.
      apply in_app_or in Hin.
      destruct Hin as [Hin|[<-|[]]]; [now apply (Hcover tab')|].
      rewrite Hl in Hl'. now injection Hl' as <-.
  - rewrite (group_append_new _ tab _ Ehas (key_eqb_refl _ Ehash)).
    pose proof (group_has_false _ _ Ehas) as Hfalse.
    split; [|split; [|split]]; simpl.
    + apply Forall_app. split.
      * rewrite Forall_forall in Hall, Hfalse. apply Forall_forall.
        intros kv Hin. destruct (Hall kv Hin) as (H1 & H2 & H3).
        split; [exact H1|]. split; [exact H2|].
        rewrite filter_snoc. unfold filed_under at 2.
        now rewrite Hl, (Hfalse kv Hin), app_nil_r.
      * constructor; [|constructor]. simpl.
        split; [exact Eno|]. split; [discriminate|].
        rewrite filter_snoc. unfold filed_under at 2.
        rewrite Hl, (key_eqb_refl _ Ehash).
        now rewrite (nothing_filed show_deleted _ _ seen Eno Ehas Hcover).
    + now rewrite Hnot.
    + rewrite map_app. simpl. apply apart_snoc; [exact Hapart|].
      apply Forall_forall. intros k Hk. apply in_map_iff in Hk.
      destruct Hk as (kv & <- & Hin). rewrite Forall_forall in Hfalse.
      now apply Hfalse.
    + intros tab' l' Hin Hl' Hnamed. rewrite group_has_app. simpl.
      apply in_app_or in Hin. destruct Hin as [Hin|[<-|[]]].
      * now rewrite (Hcover tab' l' Hin Hl' Hnamed).
      * rewrite Hl in Hl'. injection Hl' as <-.
        rewrite (key_eqb_refl _ Ehash). apply orb_true_r.
Qed.
Lemma group_append_there k tab d :
  group_has k d = true ->
  gathered (group_append k tab d) = S (gathered d) /\
  (Forall (fun kv => is_no_workspace (fst kv) = false /\ snd kv <> []) d ->
   Forall (fun kv => is_no_workspace (fst kv) = false /\ snd kv <> [])
          (group_append k tab d)).
Proof.
  unfold gathered. induction d as [|[k' tabs] d IH]; simpl; [discriminate|].
  destruct (key_eqb k' k); simpl.
  - intros _. split; [rewrite length_app; simpl; lia|].
    intros H. inversion H as [|? ? [Hk Hn] Hd]; subst. constructor; auto.
    simpl in *. split; [exact Hk|]. now destruct tabs.
  - intros Hhas. destruct (IH Hhas) as [Hsum Hall].
    split; [rewrite Hsum; lia|].
    intros H. inversion H; subst. constructor; auto.
Qed.

Lemma group_tab_keeps show_deleted g tab g' :
  group_tab show_deleted g tab = inr g' ->
  (grouping_ok g -> grouping_ok g') /\
  grouped g' = (grouped g + if tab_shown show_deleted tab then 1 else 0)%nat /\
  (exists d, tab = VDict d).
Proof.
  unfold group_tab, tab_shown, bind, ret. intros H.
  assert (Hdict : exists d, tab = VDict d).
  { destruct tab; try discriminate. eauto. }
  destruct (getitem tab "deleted") as [e|d]; [discriminate|].
  destruct (truthy d && negb show_deleted).
  { injection H as <-. simpl. split; [auto|]. split; [lia|exact Hdict]. }
  destruct (workspace_label tab) as [e|ws_name]; [discriminate|].
  destruct (is_no_workspace ws_name) eqn:Eno.
  { injection H as <-. unfold grouping_ok, grouped. simpl.
    split; [auto|]. split; [rewrite length_app; simpl; lia|exact Hdict]. }
  destruct (hashable ws_name) eqn:Ehash; [|discriminate].
  injection H as <-. unfold grouping_ok, grouped. simpl.
  destruct (group_has ws_name (workspace_tabs g)) eqn:Ehas.
  - destruct (group_append_there ws_name tab _ Ehas) as [Hsum Hall].
    split; [exact Hall|]. split; [rewrite Hsum; lia|exact Hdict].
  - rewrite (group_append_new _ tab _ Ehas (key_eqb_refl _ Ehash)).
    split.
    + intros Hok. apply Forall_app. split; [exact Hok|].
      constructor; [|constructor]. simpl. split; [exact Eno|discriminate].
    + split; [|exact Hdict]. unfold gathered.
      rewrite !map_app, !list_sum_app. simpl. lia.
Qed.

Lemma group_tabs_keep show_deleted (tabs : list value) : forall g g',
  for_each (group_tab show_deleted) tabs g = inr g' ->
  (grouping_ok g -> grouping_ok g') /\
  grouped g' = (grouped g + List.length (filter (tab_shown show_deleted) tabs))%nat /\
  Forall (fun tab => exists d, tab = VDict d) tabs.
Proof.
  induction tabs as [|tab tabs IH]; intros g g' H; simpl in H.
  - injection H as <-. simpl. split; [auto|]. split; [lia|constructor].
  - unfold bind in H.
    destruct (group_tab show_deleted g tab) as [e|g1] eqn:E; [discriminate|].
    destruct (group_tab_keeps _ _ _ E) as (Hok1 & Hn1 & Hd1).
    destruct (IH _ _ H) as (Hok & Hn & Hd).
    split; [auto|]. split; [|now constructor].
    rewrite Hn, Hn1. simpl.
    destruct (tab_shown show_deleted tab); simpl; lia.
Qed.

Lemma code_points_cons c s : code_points (String c s) <> [].
Proof.
  destruct s as [|d s]; [discriminate|]. cbn [code_points].
  destruct (continuation d); [|discriminate].
  now destruct (match s with EmptyString => _ | String _ _ => _ end).
Qed.

(** Iterating a value gives dicts only when the value is a list, or is
    empty. *)
Lemma iter_dicts (v : value) (l : list value) :
  iter v = inr l -> Forall (fun x => exists d, x = VDict d) l ->
  l = match v with VList l' => l' | _ => [] end.
Proof.
  destruct v as [| | |s|l'|d]; cbn [iter]; unfold ret, raise;
    try discriminate;
    intros H; injection H as <-; intros Hall; try reflexivity.
  - unfold chars in *. destruct s as [|c s]; [reflexivity|].
    pose proof (@code_points_cons c s) as Hne.
    destruct (code_points (String c s)) as [|x xs]; [contradiction|].
    simpl in Hall. inversion Hall as [|? ? (d & Hd) _]. discriminate.
  - destruct d; [reflexivity|]. simpl in Hall.
    inversion Hall as [|? ? (d' & Hd) _]. discriminate.
Qed.

Lemma group_window_keeps show_deleted g window g' :
  group_window show_deleted g window = inr g' ->
  (grouping_ok g -> grouping_ok g') /\
  grouped g' =
    (grouped g
     + List.length (filter (tab_shown show_deleted) (window_tabs window)))%nat /\
  (exists d, window = VDict d).
Proof.
  unfold group_window, bind. intros H.
  destruct window as [| | | | |d]; try discriminate.
  unfold getitem in H. unfold window_tabs.
  destruct (lookup "tabs" d) as [tv|]; [|discriminate]. unfold ret in H.
  destruct (iter tv) as [e|tabs] eqn:Ei; [discriminate|].
  destruct (group_tabs_keep _ _ _ H) as (Hok & Hn & Hd).
  rewrite (iter_dicts _ Ei Hd) in Hn.
  split; [exact Hok|]. split; [|eauto].
  rewrite Hn. now destruct tv.
Qed.

Lemma group_windows_keep show_deleted (windows : list value) : forall g g',
  for_each (group_window show_deleted) windows g = inr g' ->
  (grouping_ok g -> grouping_ok g') /\
  grouped g' =
    (grouped g
     + List.length (filter (tab_shown show_deleted)
                           (flat_map window_tabs windows)))%nat /\
  Forall (fun w => exists d, w = VDict d) windows.
Proof.
  induction windows as [|w windows IH]; intros g g' H; simpl in H.
  - injection H as <-. simpl. split; [auto|]. split; [lia|constructor].
  - unfold bind in H.
    destruct (group_window show_deleted g w) as [e|g1] eqn:E; [discriminate|].
    destruct (group_window_keeps _ _ _ E) as (Hok1 & Hn1 & Hd1).
    destruct (IH _ _ H) as (Hok & Hn & Hd).
    split; [auto|]. split; [|now constructor].
    rewrite Hn, Hn1. simpl. rewrite filter_app, length_app. lia.
Qed.

Lemma group_by_workspace_keeps result show_deleted g :
  group_by_workspace result show_deleted = inr g ->
  grouping_ok g /\
  grouped g =
    List.length (filter (tab_shown show_deleted) (result_tabs result)).
Proof.
  unfold group_by_workspace, bind. intros H.
  destruct result as [| | | | |d]; try discriminate.
  unfold getitem in H. unfold result_tabs.
  destruct (lookup "windows" d) as [wv|]; [|discriminate]. unfold ret in H.
  destruct (iter wv) as [e|windows] eqn:Ei; [discriminate|].
  destruct (group_windows_keep _ _ _ H) as (Hok & Hn & Hd).
  rewrite (iter_dicts _ Ei Hd) in Hn.
  split; [apply Hok; constructor|].
  rewrite Hn. unfold grouped, gathered. simpl. now destruct wv.
Qed.

Lemma list_sum_perm (l l' : list nat) :
  Permutation l l' -> list_sum l = list_sum l'.
Proof. induction 1; simpl; lia. Qed.

Lemma group_tabs_file show_deleted (tabs : list value) : forall seen g g',
  for_each (group_tab show_deleted) tabs g = inr g' ->
  grouping_files show_deleted seen g ->
  grouping_files show_deleted (seen ++ tabs) g'.
Proof.
  induction tabs as [|tab tabs IH]; intros seen g g' H Hg; simpl in H.
  - injection H as <-. now rewrite app_nil_r.
  - unfold bind in H.
    destruct (group_tab show_deleted g tab) as [e|g1] eqn:E; [discriminate|].
    change (tab :: tabs) with ([tab] ++ tabs)%list. rewrite app_assoc.
    apply (IH _ _ _ H). eapply group_tab_files; eassumption.
Qed.

Lemma group_window_files show_deleted seen g window g' :
  group_window show_deleted g window = inr g' ->
  grouping_files show_deleted seen g ->
  grouping_files show_deleted (seen ++ window_tabs window) g'.
Proof.
  unfold group_window, bind. intros H Hg.
  destruct window as [| | | | |d]; try discriminate.
  unfold getitem in H. unfold window_tabs.
  destruct (lookup "tabs" d) as [tv|]; [|discriminate]. unfold ret in H.
  destruct (iter tv) as [e|tabs] eqn:Ei; [discriminate|].
  destruct (group_tabs_keep _ _ _ H) as (_ & _ & Hd).
  pose proof (@group_tabs_file show_deleted tabs seen _ _ H Hg) as Hfiles.
  rewrite (iter_dicts _ Ei Hd) in Hfiles.
  destruct tv; try exact Hfiles; now rewrite app_nil_r in *.
Qed.

Lemma group_windows_file show_deleted (windows : list value) : forall seen g g',
  for_each (group_window show_deleted) windows g = inr g' ->
  grouping_files show_deleted seen g ->
  grouping_files show_deleted (seen ++ flat_map window_tabs windows) g'.
Proof.
  induction windows as [|w windows IH]; intros seen g g' H Hg; simpl in H.
  - injection H as <-. simpl. now rewrite app_nil_r.
  - unfold bind in H.
    destruct (group_window show_deleted g w) as [e|g1] eqn:E; [discriminate|].
    simpl. rewrite app_assoc. apply (IH _ _ _ H).
    eapply group_window_files; eassumption.
Qed.

Lemma group_by_workspace_files result show_deleted g :
  group_by_workspace result show_deleted = inr g ->
  grouping_files show_deleted (result_tabs result) g.
Proof.
  unfold group_by_workspace, bind. intros H.
  destruct result as [| | | | |d]; try discriminate.
  unfold getitem in H. unfold result_tabs.
  destruct (lookup "windows" d) as [wv|]; [|discriminate]. unfold ret in H.
  destruct (iter wv) as [e|windows] eqn:Ei; [discriminate|].
  destruct (group_windows_keep _ _ _ H) as (_ & _ & Hd).
  assert (Hstart : grouping_files show_deleted []
                     {| workspace_tabs := []; no_workspace := [] |}).
  { repeat split; try constructor. intros tab l []. }
  pose proof (@group_windows_file show_deleted windows [] _ _ H Hstart) as Hfiles.
  rewrite (iter_dicts _ Ei Hd) in Hfiles. simpl in Hfiles.
  now destruct wv.
Qed.

Lemma sorted_where {A} (R R' : A -> A -> Prop) (P : A -> Prop) (l : list A) :
  (forall a b, P a -> P b -> R a b -> R' a b) ->
  Forall P l -> Sorted R l -> Sorted R' l.
Proof.
  intros Himp Hall Hs. induction Hs as [|x l Hs IH Hhd]; [constructor|].
  inversion Hall as [|? ? Hx Hl]; subst.
  constructor; [now apply IH|].
  destruct Hhd as [|y l Hxy]; constructor.
  inversion Hl; subst. now apply Himp.
Qed.

Lemma sorted_of_map {A B} (f : A -> B) (R : B -> B -> Prop) (l : list A) :
  Sorted R (map f l) -> Sorted (fun a b => R (f a) (f b)) l.
Proof.
  induction l as [|x l IH]; simpl; intros H; [constructor|].
  inversion H as [|? ? Hs Hhd]; subst.
  constructor; [now apply IH|].
  destruct l; simpl in *; constructor. now inversion Hhd.
Qed.

Lemma sorted_to_map {A B} (f : A -> B) (R : B -> B -> Prop) (l : list A) :
  Sorted (fun a b => R (f a) (f b)) l -> Sorted R (map f l).
Proof.
  induction 1 as [|x l Hs IH Hhd]; simpl; [constructor|].
  constructor; [exact IH|]. destruct Hhd; simpl; now constructor.
Qed.

Lemma sorted_items_in_order items sorted :
  sorted_items items = inr sorted ->
  Sorted (fun a b => label_le a b = true) (map fst sorted).
Proof.
  unfold sorted_items.
  destruct items as [|a [|b items]];
    try (intros H; injection H as <-; repeat constructor).
  set (all := a :: b :: items).
  destruct (forallb (fun kv => is_str (fst kv)) all) eqn:Estr.
  { intros H.
    assert (E : sorted =
                sorted_by (fun x y => String.leb (string_of (fst x))
                                                 (string_of (fst y))) all)
      by (unfold ret in H; congruence).
    rewrite E. clear H E. apply sorted_to_map.
    apply (@sorted_where _
             (fun x y => String.leb (string_of (fst x)) (string_of (fst y))
                         = true) _
             (fun kv => is_str (fst kv) = true)).
    - intros [x tx] [y ty]. simpl. now destruct x, y.
    - eapply Permutation_Forall;
        [apply Permutation_sym, sorted_by_perm|].
      now apply Forall_forall, forallb_forall.
    - apply (sorted_by_sorted
               (fun x y => String.leb (string_of (fst x)) (string_of (fst y)))).
      intros x y. apply String.leb_total. }
  destruct (forallb (fun kv => is_number (fst kv)) all) eqn:Enum;
    [|discriminate].
  intros H.
  assert (E : sorted =
              sorted_by (fun x y => (number_of (fst x) <=? number_of (fst y))%Z)
                        all)
    by (unfold ret in H; congruence).
  rewrite E. clear H E. apply sorted_to_map.
  apply (@sorted_where _
           (fun x y => (number_of (fst x) <=? number_of (fst y))%Z = true) _
           (fun kv => is_number (fst kv) = true)).
  - intros [x tx] [y ty]. simpl. now destruct x, y.
  - eapply Permutation_Forall;
      [apply Permutation_sym, sorted_by_perm|].
    now apply Forall_forall, forallb_forall.
  - apply (sorted_by_sorted
             (fun x y => (number_of (fst x) <=? number_of (fst y))%Z)).
    intros x y. destruct (Z.leb_spec (number_of (fst x)) (number_of (fst y)));
      [now left|right; apply Z.leb_le; lia].
Qed.

Lemma sorted_front {A} (R : A -> A -> Prop) (l l' : list A) :
  Sorted R (l ++ l') -> Sorted R l.
Proof.
  induction l as [|x l IH]; simpl; intros H; [constructor|].
  inversion H as [|? ? Hs Hhd]; subst. constructor; [now apply IH|].
  destruct l; simpl in *; constructor. now inversion Hhd.
Qed.

(** One turn of the loop over workspaces prints the tree of the
    workspace, or nothing and ends the loop. *)
Lemma show_group_cases h (item : value * list value) :
  (exists g,
     group_tree h 50 (fst item) (snd item) = inr g /\
     fst (show_group h item tt) = ([g], inr tt)) \/
  (exists e, fst (show_group h item tt) = ([], inl e)).
Proof.
  unfold show_group. cbn [fst].
  destruct (group_tree h 50 (fst item) (snd item)) as [e|g].
  - right. now exists e.
  - rewrite CliProofs.and_then_quiet. unfold print_group.
    match goal with
    | |- context [console_print h ?texts g] =>
        destruct (CliProofs.console_print_cases h texts g)
          as [[_ ->]|(msg & _ & ->)]
    end.
    + left. now exists g.
    + right. now exists (MarkupError msg).
Qed.

Lemma show_groups_facts h (items : list (value * list value)) :
  Forall (fun kv => is_no_workspace (fst kv) = false /\ snd kv <> []) items ->
  exists taken rest,
    items = (taken ++ rest)%list /\
    Forall2 (fun kv g => group_of h (snd kv) g /\ group_label g = fst kv /\
                         group_count g = List.length (snd kv))
            taken (fst (fst (for_out (show_group h) items tt))) /\
    (snd (fst (for_out (show_group h) items tt)) = inr tt -> rest = []).
Proof.
  induction 1 as [|item items [Hk Hne] Hitems IH].
  - exists [], []. simpl. repeat split. constructor.
  - rewrite CliProofs.for_out_cons.
    assert (Hs : snd (show_group h item tt) = tt) by reflexivity.
    destruct (show_group_cases h item) as [(g & Eg & Hturn)|(e & Hturn)];
      rewrite Hturn; cbn [fst snd]; rewrite ?Hturn.
    + rewrite Hs. destruct IH as (taken & rest & -> & Hall & Hdone).
      exists (item :: taken), rest. cbn [after fst snd app].
      split; [reflexivity|]. split; [|exact Hdone].
      constructor; [|exact Hall].
      apply (@group_tree_of h 50 (fst item) (snd item) g); auto.
      unfold title_limit. now rewrite Hk.
    + exists [], (item :: items). cbn [fst snd].
      split; [reflexivity|]. split; [constructor|discriminate].
Qed.

Lemma printed_groups_of h show_deleted (tabs : list value)
    (taken : list (value * list value)) (printed : list Group) :
  Forall2 (fun kv g => group_of h (snd kv) g /\ group_label g = fst kv /\
                       group_count g = List.length (snd kv)) taken printed ->
  Forall (fun kv => is_no_workspace (fst kv) = false /\
                    snd kv <> [] /\
                    snd kv = filter (filed_under show_deleted (fst kv)) tabs)
         taken ->
  Forall (fun g => is_no_workspace (group_label g) = false /\
                   group_of h (filter (filed_under show_deleted (group_label g))
                                      tabs) g) printed /\
  map group_label printed = map fst taken /\
  list_sum (map group_count printed) = gathered taken.
Proof.
  unfold gathered.
  induction 1 as [|kv g taken printed (Hg & Hl & Hc) _ IH]; intros Hall.
  - repeat split; constructor.
  - apply Forall_cons_iff in Hall. destruct Hall as [(Hk & _ & Htabs) Hall].
    destruct (IH Hall) as (H1 & H2 & H3).
    split; [|split; simpl; congruence].
    constructor; [|exact H1]. rewrite Hl. split; [exact Hk|].
    now rewrite <- Htabs.
Qed.

(** What [display_by_workspace] prints, however it ends. *)
Lemma display_by_workspace_facts h result show_deleted groups ending :
  display_by_workspace h result show_deleted = (groups, ending) ->
  exists named last,
    groups = (named ++ last)%list /\
    Forall (fun g => is_no_workspace (group_label g) = false /\
                     group_of h (filter (filed_under show_deleted (group_label g))
                                        (result_tabs result)) g) named /\
    Sorted (fun a b => label_le (group_label a) (group_label b) = true) named /\
    (last = [] \/
     exists g, last = [g] /\ group_label g = VStr "No Workspace" /\
               group_of h (filter (filed_under show_deleted (VStr "No Workspace"))
                                  (result_tabs result)) g) /\
    (ending = inr tt ->
     list_sum (map group_count groups) =
     List.length (filter (tab_shown show_deleted) (result_tabs result))).
Proof.
  unfold display_by_workspace. intros H.
  destruct (group_by_workspace result show_deleted) as [e|g0] eqn:Eg.
  { rewrite CliProofs.and_then_raise in H. injection H as <- <-.
    exists [], []. split; [reflexivity|]. split; [constructor|].
    split; [constructor|]. split; [now left|discriminate]. }
  rewrite CliProofs.and_then_quiet in H.
  destruct (group_by_workspace_keeps _ _ Eg) as [_ Hn].
  destruct (group_by_workspace_files _ _ Eg) as (Hall & Hno & _ & _).
  destruct (sorted_items (workspace_tabs g0)) as [e|items] eqn:Es.
  { rewrite CliProofs.and_then_raise in H. injection H as <- <-.
    exists [], []. split; [reflexivity|]. split; [constructor|].
    split; [constructor|]. split; [now left|discriminate]. }
  rewrite CliProofs.and_then_quiet in H.
  pose proof (sorted_items_perm _ Es) as Hperm.
  pose proof (sorted_items_in_order _ Es) as Hsorted.
  assert (Hitems : Forall (fun kv => is_no_workspace (fst kv) = false /\
                     snd kv <> [] /\
                     snd kv = filter (filed_under show_deleted (fst kv))
                                     (result_tabs result)) items).
  { eapply Permutation_Forall; [apply Permutation_sym, Hperm|exact Hall]. }
  destruct (show_groups_facts h (items := items))
    as (taken & rest & Hsplit & Hprinted & Hdone).
  { eapply Forall_impl; [|exact Hitems]. simpl. tauto. }
  assert (Htaken : Forall (fun kv => is_no_workspace (fst kv) = false /\
                     snd kv <> [] /\
                     snd kv = filter (filed_under show_deleted (fst kv))
                                     (result_tabs result)) taken).
  { rewrite Hsplit in Hitems. now apply Forall_app in Hitems. }
  destruct (@printed_groups_of h show_deleted (result_tabs result) _ _
              Hprinted Htaken) as (Hof & Hlabels & Hsum).
  assert (Horder : Sorted (fun a b => label_le (group_label a) (group_label b)
                                      = true)
                          (fst (fst (for_out (show_group h) items tt)))).
  { apply (@sorted_of_map _ _ group_label (fun a b => label_le a b = true)).
    rewrite Hlabels.
    rewrite Hsplit, map_app in Hsorted. now apply sorted_front in Hsorted. }
  destruct (fst (for_out (show_group h) items tt)) as [printed [e|[]]].
  { unfold and_then in H. cbn [fst snd] in H, Hof, Horder.
    injection H as <- <-. exists printed, []. rewrite app_nil_r.
    split; [reflexivity|]. split; [assumption|]. split; [assumption|].
    split; [now left|discriminate]. }
  cbn [fst snd] in *. specialize (Hdone eq_refl). subst rest.
  rewrite app_nil_r in Hsplit. subst taken.
  assert (Hgathered : gathered items = gathered (workspace_tabs g0)).
  { unfold gathered. apply list_sum_perm, Permutation_map, Hperm. }
  unfold grouped in Hn. unfold and_then at 1 in H. cbn [fst snd] in H.
  destruct (no_workspace g0) as [|tab tabs] eqn:Eno; cbn beta iota in H.
  { unfold after, quiet in H. cbn [fst snd] in H. rewrite app_nil_r in H.
    injection H as <- <-. exists printed, []. rewrite app_nil_r.
    split; [reflexivity|]. split; [assumption|]. split; [assumption|].
    split; [now left|]. intros _. rewrite ?Eno in Hn. simpl in Hn. lia. }
  destruct (group_tree h 20 (VStr "No Workspace") (tab :: tabs)) as [e|t] eqn:Et.
  { rewrite CliProofs.and_then_raise in H.
    unfold after, quiet in H. cbn [fst snd] in H. rewrite app_nil_r in H.
    injection H as <- <-. exists printed, []. rewrite app_nil_r.
    split; [reflexivity|]. split; [assumption|]. split; [assumption|].
    split; [now left|discriminate]. }
  rewrite CliProofs.and_then_quiet in H. unfold print_group in H.
  destruct (@group_tree_of h 20 (VStr "No Workspace") (tab :: tabs) t)
    as (Ht & Hl & Hc); auto; [discriminate|].
  match type of H with
  | context [console_print h ?texts t] =>
      destruct (CliProofs.console_print_cases h texts t)
        as [[_ Hp]|(msg & _ & Hp)]; rewrite Hp in H
  end; unfold after in H; cbn [fst snd] in H.
  - injection H as <- <-. exists printed, [t].
    split; [reflexivity|]. split; [exact Hof|]. split; [exact Horder|].
    split.
    + right. exists t. split; [reflexivity|]. split; [exact Hl|].
      now rewrite <- Hno.
    + intros _. rewrite map_app, list_sum_app, Hsum, Hgathered. simpl.
      rewrite Hc. rewrite ?Eno in Hn. simpl in Hn. simpl. lia.
  - rewrite app_nil_r in H. injection H as <- <-.
    exists printed, []. rewrite app_nil_r.
    split; [reflexivity|]. split; [assumption|]. split; [assumption|].
    split; [now left|discriminate].
Qed.

(** X12. Every tree [display_by_workspace] prints, however the call
    ends, stands for the tabs filed under its label: the tabs of the
    result that are shown and whose workspace is equal to the label as a
    key, in their order. There is at least one; the tree announces
    their number, lists the titles of the first 50 of them (20 for the
    tabs of no workspace) in order and says how many more there are.
    Only the last tree can be that of "No Workspace". When the call
    returns, the counts of all trees add up to the number of tabs
    shown. *)
Theorem display_by_workspace_accounts (h : Runtime) (result : value)
    (show_deleted : bool) (groups : list Group) (ending : Py.result unit) :
  display_by_workspace h result show_deleted = (groups, ending) ->
  Forall (fun g => group_of h (filter (filed_under show_deleted (group_label g))
                                      (result_tabs result)) g) groups /\
  (forall before g after,
     groups = (before ++ g :: after)%list -> after <> [] ->
     is_no_workspace (group_label g) = false) /\
  (ending = inr tt ->
   list_sum (map group_count groups) =
     List.length (filter (tab_shown show_deleted) (result_tabs result))).
Proof.
  intros H.
  destruct (display_by_workspace_facts _ _ _ H)
    as (named & last & -> & Hnamed & _ & Hlast & Hsum).
  split; [|split; [|exact Hsum]].
  - apply Forall_app. split.
    + eapply Forall_impl; [|exact Hnamed]. simpl. tauto.
    + destruct Hlast as [->|(g & -> & Hl & Hg)]; [constructor|].
      constructor; [|constructor]. now rewrite Hl.
  - intros before x after Hsplit Hafter.
    assert (Hin : In x named).
    { destruct Hlast as [->|(g & -> & _)].
      - rewrite app_nil_r in Hsplit. subst named.
        apply in_or_app. right. now left.
      - destruct (@exists_last _ after Hafter) as (mid & z & ->).
        change (before ++ x :: mid ++ [z])%list
          with (before ++ (x :: mid) ++ [z])%list in Hsplit.
        rewrite app_assoc in Hsplit. apply app_inj_tail in Hsplit.
        destruct Hsplit as [-> _]. apply in_or_app. right. now left. }
    rewrite Forall_forall in Hnamed. now apply Hnamed.
Qed.

(** X13. [display_by_workspace] prints the trees of the workspaces in
    the order of their labels, strings by characters and numbers by
    size, and after them the tree of "No Workspace" when there is one;
    this holds of what is printed however the call ends. *)
Theorem display_by_workspace_in_order (h : Runtime) (result : value)
    (show_deleted : bool) (groups : list Group) (ending : Py.result unit) :
  display_by_workspace h result show_deleted = (groups, ending) ->
  exists named last,
    groups = (named ++ last)%list /\
    Sorted (fun a b => label_le (group_label a) (group_label b) = true) named /\
    Forall (fun g => is_no_workspace (group_label g) = false) named /\
    (last = [] \/
     exists g, last = [g] /\ group_label g = VStr "No Workspace").
Proof.
  intros H.
  destruct (display_by_workspace_facts _ _ _ H)
    as (named & last & Hsplit & Hnamed & Hsorted & Hlast & _).
  exists named, last. split; [exact Hsplit|]. split; [exact Hsorted|].
  split; [eapply Forall_impl; [|exact Hnamed]; simpl; tauto|].
  destruct Hlast as [->|(g & -> & Hl & _)]; [now left|].
  right. now exists g.
Qed.

(** *** summary and the displays agree *)

Lemma tally_tab_counts t tab t' :
  tally_tab t tab = inr t' ->
  (deleted_tabs t <= total_tabs t)%nat ->
  total_tabs t' = S (total_tabs t) /\
  (total_tabs t' - deleted_tabs t'
   = total_tabs t - deleted_tabs t
     + if tab_shown false tab then 1 else 0)%nat /\
  (deleted_tabs t' <= total_tabs t')%nat /\
  tab_shown true tab = true /\
  (exists d, tab = VDict d).
Proof.
  unfold tally_tab, tab_shown, bind, ret. intros H Hle.
  assert (Hdict : exists d, tab = VDict d).
  { destruct tab; try discriminate. eauto. }
  destruct (getitem tab "deleted") as [e|d]; [discriminate|].
  destruct (workspace_label tab) as [e|ws_name]; [discriminate|].
  destruct (hashable ws_name); [|discriminate].
  injection H as <-. cbn [total_tabs deleted_tabs].
  rewrite andb_true_r, andb_false_r.
  split; [reflexivity|].
  destruct (truthy d); cbn [negb]; repeat split; auto; lia.
Qed.

Lemma tally_tabs_count (tabs : list value) : forall t t',
  for_each tally_tab tabs t = inr t' ->
  (deleted_tabs t <= total_tabs t)%nat ->
  (deleted_tabs t' <= total_tabs t')%nat /\
  total_tabs t' = (total_tabs t + List.length tabs)%nat /\
  (total_tabs t' - deleted_tabs t'
   = total_tabs t - deleted_tabs t
     + List.length (filter (tab_shown false) tabs))%nat /\
  List.length (filter (tab_shown true) tabs) = List.length tabs /\
  Forall (fun tab => exists d, tab = VDict d) tabs.
Proof.
  induction tabs as [|tab tabs IH]; intros t t' H Hle; simpl in H.
  - injection H as <-. simpl. repeat split; auto; lia.
  - unfold bind in H.
    destruct (tally_tab t tab) as [e|t1] eqn:E; [discriminate|].
    destruct (tally_tab_counts _ _ E Hle) as (Ht & Ha & Hle1 & Hs & Hd).
    destruct (IH _ _ H Hle1) as (Hle' & Ht' & Ha' & Hs' & Hd').
    split; [exact Hle'|]. split; [simpl; lia|]. split.
    + rewrite Ha', Ha. simpl.
      destruct (tab_shown false tab); simpl; lia.
    + split; [simpl; rewrite Hs; simpl; now rewrite Hs'|now constructor].
Qed.

Lemma tally_windows_count (windows : list value) : forall t t',
  for_each tally_window windows t = inr t' ->
  (deleted_tabs t <= total_tabs t)%nat ->
  (deleted_tabs t' <= total_tabs t')%nat /\
  total_tabs t' =
    (total_tabs t + List.length (flat_map window_tabs windows))%nat /\
  (total_tabs t' - deleted_tabs t'
   = total_tabs t - deleted_tabs t
     + List.length (filter (tab_shown false)
                           (flat_map window_tabs windows)))%nat /\
  List.length (filter (tab_shown true) (flat_map window_tabs windows))
    = List.length (flat_map window_tabs windows) /\
  Forall (fun w => exists d, w = VDict d) windows.
Proof.
  induction windows as [|w windows IH]; intros t t' H Hle; simpl in H.
  - injection H as <-. simpl. repeat split; auto; lia.
  - unfold bind in H.
    destruct (tally_window t w) as [e|t1] eqn:E; [discriminate|].
    assert (Hw : exists d, w = VDict d).
    { unfold tally_window, bind in E. destruct w; try discriminate. eauto. }
    assert (Hone :
      (deleted_tabs t1 <= total_tabs t1)%nat /\
      total_tabs t1 = (total_tabs t + List.length (window_tabs w))%nat /\
      (total_tabs t1 - deleted_tabs t1
       = total_tabs t - deleted_tabs t
         + List.length (filter (tab_shown false) (window_tabs w)))%nat /\
      List.length (filter (tab_shown true) (window_tabs w))
        = List.length (window_tabs w)).
    { destruct Hw as (d & ->). unfold tally_window, bind, getitem in E.
      unfold window_tabs.
      destruct (lookup "tabs" d) as [tv|]; [|discriminate]. unfold ret in E.
      destruct (iter tv) as [e|tabs] eqn:Ei; [discriminate|].
      destruct (tally_tabs_count _ _ E Hle) as (H1 & H2 & H3 & H4 & H5).
      rewrite (iter_dicts _ Ei H5) in H2, H3, H4.
      destruct tv; auto. }
    destruct Hone as (Hle1 & Ht1 & Ha1 & Hs1).
    destruct (IH _ _ H Hle1) as (Hle' & Ht' & Ha' & Hs' & Hd').
    simpl. rewrite !filter_app, !length_app.
    split; [exact Hle'|]. split; [lia|]. split; [lia|].
    split; [lia|now constructor].
Qed.

Lemma summary_tally_counts (result : value) (t : Tally) :
  summary_tally result = inr t ->
  total_tabs t = List.length (result_tabs result) /\
  (total_tabs t - deleted_tabs t)%nat
    = List.length (filter (tab_shown false) (result_tabs result)) /\
  List.length (filter (tab_shown true) (result_tabs result))
    = List.length (result_tabs result).
Proof.
  unfold summary_tally, bind. intros H.
  destruct result as [| | | | |d]; try discriminate.
  unfold getitem in H. unfold result_tabs.
  destruct (lookup "windows" d) as [wv|]; [|discriminate]. unfold ret in H.
  destruct (iter wv) as [e|windows] eqn:Ei; [discriminate|].
  destruct (tally_windows_count _ _ H) as (_ & H2 & H3 & H4 & H5);
    [simpl; lia|].
  rewrite (iter_dicts _ Ei H5) in H2, H3, H4. simpl in H2, H3.
  destruct wv; auto.
Qed.

(** X17. Whenever [summary] gets through a result, "Total tabs" is the
    number of tabs in the windows of the result, and "Active tabs" the
    number of those whose [deleted] flag is off. *)
Theorem summary_tally_counts_tabs (result : value) (t : Tally) :
  summary_tally result = inr t ->
  total_tabs t = List.length (result_tabs result) /\
  (total_tabs t - deleted_tabs t)%nat
    = List.length (filter (tab_shown false) (result_tabs result)) /\
  List.length (filter (tab_shown true) (result_tabs result))
    = List.length (result_tabs result).
Proof.
  intros H. exact (summary_tally_counts _ H).
Qed.

(** X18. [summary] and [display_by_workspace] agree on a result both
    get through: the counts of the trees add up to "Active tabs", and to
    "Total tabs" when deleted tabs are shown. *)
Theorem summary_agrees_with_display_by_workspace (h : Runtime)
    (result : value) (t : Tally) (show_deleted : bool) (groups : list Group) :
  summary_tally result = inr t ->
  display_by_workspace h result show_deleted = (groups, inr tt) ->
  list_sum (map group_count groups) =
    if show_deleted then total_tabs t
    else (total_tabs t - deleted_tabs t)%nat.
Proof.
  intros Ht Hg.
  destruct (summary_tally_counts _ Ht) as (Htotal & Hactive & Hall).
  destruct (display_by_workspace_facts _ _ _ Hg)
    as (named & last & _ & _ & _ & _ & Hsum).
  rewrite (Hsum eq_refl). destruct show_deleted; congruence.
Qed.

(** *** How the parse command ends *)

Lemma exit_with_cases h text :
  (markup_error h text = None /\
   exit_with h text = ([PrintText text], inl (Exit 1))) \/
  (exists msg, markup_error h text = Some msg /\
               exit_with h text = ([], inl (MarkupError msg))).
Proof.
  unfold exit_with.
  destruct (CliProofs.rprint_cases h text) as [[Hn ->]|(msg & Hm & ->)].
  - left. split; [exact Hn|reflexivity].
  - right. exists msg. split; [exact Hm|reflexivity].
Qed.

Section ParseEnds.

Variable h : Runtime.
Variable lower : string -> string.
Variable is_dir : Path -> bool.
Variable path_exists : Path -> bool.
Variable scandir : Path -> list string.
Variable stat_mtime : Path -> result Z.
Variable get_browser_by_id : string -> option Browser.
Variable World : Type.
Variable load_vivaldi_workspaces : Path -> World -> WorkspaceMap * World.
Variable parse_file : WorkspaceMap -> Path -> World -> result value * World.

(** X11. How the parse command ends. When the browser is unknown, has
    no profile, or no file is there to parse, it prints the message for
    that and exits with code 1, or, when rich cannot render the message,
    prints nothing and ends on the [MarkupError]; only in the first two
    cases has it not loaded the workspaces. It ends on the exception of
    the directory listing when that raises, which can happen only with
    no file named and a sessions directory there. With files to parse it
    returns; or ends on [IndexError], with JSON output and no file
    parsed; or ends on the [MarkupError] of the error line of one of the
    files. *)
Theorem parse_ends (browser : string) (files : option (list Path))
    (profile : option string) (latest : Z)
    (json_output show_deleted by_workspace : bool) (w : World) :
  let r := parse h lower is_dir path_exists scandir stat_mtime
             get_browser_by_id load_vivaldi_workspaces parse_file
             browser files profile latest json_output show_deleted
             by_workspace w in
  let told text :=
    (printed_by r = [PrintText text] /\ ending_of r = inl (Exit 1)) \/
    (exists msg, markup_error h text = Some msg /\
                 printed_by r = [] /\ ending_of r = inl (MarkupError msg)) in
  match reached lower is_dir path_exists scandir stat_mtime get_browser_by_id
          browser files profile latest with
  | NoBrowser => state_after r = w /\ told (browser_not_found browser)
  | NoProfile b => state_after r = w /\ told (no_profiles_found b)
  | NoFiles _ p =>
      state_after r = snd (load_vivaldi_workspaces (path p) w) /\
      told ("[red]No session files found in " ++ sessions_path p ++ "[/red]")
  | ListingRaised _ p e =>
      state_after r = snd (load_vivaldi_workspaces (path p) w) /\
      printed_by r = [] /\ ending_of r = inl e /\
      (files = None \/ files = Some []) /\ has_sessions p = true
  | Files b p g gs =>
      let outcomes :=
        attempts stat_mtime parse_file b p
          (fst (load_vivaldi_workspaces (path p) w)) (g :: gs)
          (snd (load_vivaldi_workspaces (path p) w)) in
      (ending_of r = inr tt /\ (json_output = true -> kept outcomes <> [])) \/
      (ending_of r = inl IndexError /\ json_output = true /\
       kept outcomes = []) \/
      (exists f e msg,
         In f (g :: gs) /\ markup_error h (error_line h f e) = Some msg /\
         ending_of r = inl (MarkupError msg))
  end.
Proof.
  intros r told.
  assert (Htold : forall text s, r = (exit_with h text, s) -> told text).
  { intros text s Hr. unfold told. rewrite Hr.
    unfold printed_by, ending_of. cbn [fst snd].
    destruct (exit_with_cases h text) as [[_ ->]|(msg & Hm & ->)];
      [now left|right; now exists msg]. }
  destruct (reached lower is_dir path_exists scandir stat_mtime
              get_browser_by_id browser files profile latest)
    as [|b|b p e|b p|b p g gs] eqn:Hreach.
  - unfold reached in Hreach. subst r. unfold parse in *.
    destruct (get_browser_by_id browser) as [b|];
      [|split; [reflexivity|eapply Htold; reflexivity]].
    destruct (get_selected_profile lower b profile) as [p|]; [|discriminate].
    now destruct (files_to_parse_of _ _ _ _ _ _ _) as [e|[|g gs]].
  - unfold reached in Hreach. subst r. unfold parse in *.
    destruct (get_browser_by_id browser) as [b'|]; [|discriminate].
    destruct (get_selected_profile lower b' profile) as [p|].
    + now destruct (files_to_parse_of _ _ _ _ _ _ _) as [e'|[|g gs]].
    + injection Hreach as ->. split; [reflexivity|eapply Htold; reflexivity].
  - unfold reached in Hreach. subst r. unfold parse in *.
    destruct (get_browser_by_id browser) as [b'|]; [|discriminate].
    destruct (get_selected_profile lower b' profile) as [p'|]; [|discriminate].
    destruct (files_to_parse_of is_dir path_exists scandir stat_mtime files p'
                latest) as [e'|[|g gs]] eqn:Hf; try discriminate.
    injection Hreach as -> -> ->.
    destruct (load_vivaldi_workspaces (path p) w) as [ws w1].
    unfold state_after, printed_by, ending_of. cbn [fst snd quiet raise].
    repeat (split; [reflexivity|]).
    unfold files_to_parse_of in Hf.
    destruct files as [[|f fs]|]; try discriminate;
      (destruct (has_sessions p); [|discriminate]); auto.
  - unfold reached in Hreach. subst r. unfold parse in *.
    destruct (get_browser_by_id browser) as [b'|]; [|discriminate].
    destruct (get_selected_profile lower b' profile) as [p'|]; [|discriminate].
    destruct (files_to_parse_of is_dir path_exists scandir stat_mtime files p'
                latest) as [e'|[|g gs]] eqn:Hf; try discriminate.
    injection Hreach as -> ->.
    destruct (load_vivaldi_workspaces (path p) w) as [ws w1]. cbn [snd].
    split; [reflexivity|eapply Htold; reflexivity].
  - clear Htold told. cbv zeta. subst r.
    rewrite (CliProofs.parse_reaches_loop _ _ _ _ _ _ _ _ _ _ _ _ _ _ _ _ _
               Hreach).
    cbv zeta.
    set (ws := fst (load_vivaldi_workspaces (path p) w)).
    set (w1 := snd (load_vivaldi_workspaces (path p) w)).
    destruct (CliProofs.parse_loop_outcome h stat_mtime parse_file b p ws
                json_output show_deleted by_workspace (g :: gs) [] w1)
      as (taken & rest & added & more & Hsplit & Hres & Hkept & Hcase).
    unfold ending_of. cbn [fst snd].
    destruct (parse_loop h stat_mtime parse_file b p ws json_output
                show_deleted by_workspace (g :: gs) ([], w1))
      as [[printed e] [rs w2]]. cbn [fst snd app] in *. subst rs.
    destruct e as [x|[]].
    + destruct Hcase as (before & f & e & msg & -> & -> & Hm).
      right. right. exists f, e, msg. split; [|split; [exact Hm|reflexivity]].
      rewrite Hsplit. apply in_or_app. left. apply in_or_app. right. now left.
    + destruct Hcase as [-> ->]. rewrite app_nil_r in Hkept.
      unfold and_then, after, quiet, emit, json_output_value. cbn [fst snd].
      destruct json_output; [|left; split; [reflexivity|discriminate]].
      rewrite Hkept.
      destruct added as [|r1 [|r2 rs]]; cbn;
        [right; left; auto|left; split; [reflexivity|discriminate]..].
Qed.

End ParseEnds.

(** *** The workspaces and list commands *)

Lemma emoji_or_folder_not_empty (w : Workspace) : emoji_or_folder w <> "".
Proof.
  unfold emoji_or_folder. destruct (ws_emoji w) as [e|]; [|discriminate].
  destruct (String.eqb_spec e ""); [discriminate|assumption].
Qed.

Section WorkspacesFacts.

Variable h : Runtime.
Variable lower : string -> string.
Variable get_browser_by_id : string -> option Browser.
Variable World : Type.
Variable load_vivaldi_workspaces : Path -> World -> WorkspaceMap * World.

(** X15. The workspaces command, when the browser is unknown or has no
    profile, prints the message for that and exits with code 1, or ends
    on the [MarkupError] of the message when rich cannot render it; the
    workspaces are not loaded then. When the profile has no workspace
    it prints that and exits with code 1. Otherwise it prints, with
    JSON output, the table of workspaces by key, and else one row per
    workspace, in the order of the names, each with its emoji or, when
    it has none or an empty one, the folder sign; or it prints nothing
    and ends on the [MarkupError] of the title or of a cell of one of
    the workspaces. *)
Theorem workspaces_prints_every_workspace (browser : string)
    (profile : option string) (json_output : bool) (w : World) :
  let r := workspaces h lower get_browser_by_id load_vivaldi_workspaces
             browser profile json_output w in
  let told text :=
    state_after r = w /\
    ((printed_by r = [PrintText text] /\ ending_of r = inl (Exit 1)) \/
     (exists msg, markup_error h text = Some msg /\
                  printed_by r = [] /\ ending_of r = inl (MarkupError msg))) in
  match get_browser_by_id browser with
  | None => told (browser_not_found browser)
  | Some b =>
      match get_selected_profile lower b profile with
      | None => told (no_profiles_found b)
      | Some p =>
          let ws := fst (load_vivaldi_workspaces (path p) w) in
          state_after r = snd (load_vivaldi_workspaces (path p) w) /\
          match ws with
          | [] =>
              printed_by r =
                [PrintText "[yellow]No workspaces found (workspaces are Vivaldi-specific)[/yellow]"] /\
              ending_of r = inl (Exit 1)
          | _ =>
              if json_output then
                printed_by r = [PrintJson (workspaces_table ws)] /\
                ending_of r = inr tt
              else
                let title := "Workspaces in " ++ browser_name b ++ " / " ++
                             name p in
                (exists rows,
                   printed_by r = [PrintWorkspaces title rows] /\
                   ending_of r = inr tt /\
                   Permutation rows (map workspace_row ws) /\
                   Sorted (fun a b => String.leb (snd (fst a)) (snd (fst b))
                                      = true) rows /\
                   Forall (fun row => fst (fst row) <> "") rows) \/
                (exists text msg,
                   markup_error h text = Some msg /\
                   printed_by r = [] /\ ending_of r = inl (MarkupError msg) /\
                   (text = title \/
                    exists kw, In kw ws /\
                      (text = emoji_or_folder (snd kw) \/
                       text = ws_name (snd kw) \/ text = fst kw)))
          end
      end
  end.
Proof.
  intros r told.
  assert (Htold : forall text, r = (exit_with h text, w) -> told text).
  { intros text Hr. unfold told. rewrite Hr.
    unfold state_after, printed_by, ending_of. cbn [fst snd].
    split; [reflexivity|].
    destruct (exit_with_cases h text) as [[_ ->]|(msg & Hm & ->)];
      [now left|right; now exists msg]. }
  subst r. unfold workspaces in *.
  destruct (get_browser_by_id browser) as [b|]; [|now apply Htold].
  destruct (get_selected_profile lower b profile) as [p|]; [|now apply Htold].
  clear Htold told. cbv zeta.
  destruct (load_vivaldi_workspaces (path p) w) as [ws w1]. cbn [fst snd].
  unfold state_after, printed_by, ending_of.
  destruct ws as [|kw ws]; [repeat split|].
  destruct json_output; [repeat split|]. cbn [fst snd].
  split; [reflexivity|].
  set (all := kw :: ws).
  set (le := fun a b : string * Workspace =>
               String.leb (ws_name (snd a)) (ws_name (snd b))).
  set (title := "Workspaces in " ++ browser_name b ++ " / " ++ name p).
  pose proof (sorted_by_perm le all) as Hperm.
  unfold print_workspaces.
  match goal with
  | |- context [console_print h ?texts ?o] =>
      destruct (CliProofs.console_print_cases h texts o)
        as [[_ ->]|(msg & Hm & ->)]
  end.
  - left. exists (map workspace_row (sorted_by le all)). cbn [fst snd].
    split; [reflexivity|]. split; [reflexivity|].
    split; [now apply Permutation_map|]. split.
    + assert (Hs : Sorted (fun a b => le a b = true) (sorted_by le all)).
      { apply (sorted_by_sorted le). intros x y. apply String.leb_total. }
      clear Hperm. induction Hs as [|x l Hs IH Hhd]; simpl; constructor;
        [exact IH|].
      destruct Hhd; simpl; constructor. assumption.
    + apply Forall_forall. intros row Hrow. apply in_map_iff in Hrow.
      destruct Hrow as (x & <- & _). apply emoji_or_folder_not_empty.
  - right. apply CliProofs.first_error_in in Hm.
    destruct Hm as (text & Hin & Hm). exists text, msg.
    split; [exact Hm|]. cbn [fst snd]. split; [reflexivity|].
    split; [reflexivity|].
    assert (Hrow : forall row, In row (map workspace_row (sorted_by le all)) ->
              exists kw', In kw' all /\ row = workspace_row kw').
    { intros row Hrow. apply in_map_iff in Hrow.
      destruct Hrow as (x & <- & Hx). exists x. split; [|reflexivity].
      exact (Permutation_in _ Hperm Hx). }
    apply in_app_or in Hin. destruct Hin as [Hin|Hin].
    { apply in_map_iff in Hin. destruct Hin as (row & <- & Hin).
      destruct (Hrow row Hin) as (kw' & Hkw & ->).
      right. exists kw'. split; [exact Hkw|]. now left. }
    apply in_app_or in Hin. destruct Hin as [Hin|Hin].
    { apply in_map_iff in Hin. destruct Hin as (row & <- & Hin).
      destruct (Hrow row Hin) as (kw' & Hkw & ->).
      right. exists kw'. split; [exact Hkw|]. right. now left. }
    apply in_app_or in Hin. destruct Hin as [Hin|[<-|[]]]; [|now left].
    apply in_map_iff in Hin. destruct Hin as (row & <- & Hin).
    destruct (Hrow row Hin) as (kw' & Hkw & ->).
    right. exists kw'. split; [exact Hkw|]. right. now right.
Qed.

End WorkspacesFacts.


(** *** The summary command *)







Section SummaryFacts.

Variable h : Runtime.
Variable lower : string -> string.
Variable is_dir : Path -> bool.
Variable path_exists : Path -> bool.
Variable scandir : Path -> list string.
Variable stat_mtime : Path -> result Z.
Variable get_browser_by_id : string -> option Browser.
Variable World : Type.
Variable load_vivaldi_workspaces : Path -> World -> WorkspaceMap * World.
Variable parse_file : WorkspaceMap -> Path -> World -> result value * World.




End SummaryFacts.

(** *** What the loop of the parse command prints *)

Section LoopPrints.

Variable h : Runtime.
Variable stat_mtime : Path -> result Z.
Variable World : Type.
Variable parse_file : WorkspaceMap -> Path -> World -> result value * World.
Variable browser_obj : Browser.
Variable profile_obj : BrowserProfile.
Variable workspaces_map : WorkspaceMap.
Variables show_deleted by_workspace : bool.

Let label := parse_and_label stat_mtime parse_file browser_obj profile_obj
               workspaces_map.
Let one := parse_one h stat_mtime parse_file browser_obj profile_obj
             workspaces_map.
Let loop := parse_loop h stat_mtime parse_file browser_obj profile_obj
              workspaces_map.
Let tried := attempts stat_mtime parse_file browser_obj profile_obj
               workspaces_map.

(** With JSON output the loop prints error lines of files that failed
    to parse, and nothing else. *)
Lemma parse_loop_json_prints (files : list Path) : forall rs w,
  Forall (fun ev => exists f e w',
            In f files /\ fst (label f w') = inl e /\
            ev = PrintText (error_line h f e))
         (fst (fst (loop true show_deleted by_workspace files (rs, w)))).
Proof.
  induction files as [|f files IH]; intros rs w; [constructor|].
  unfold loop. rewrite CliProofs.parse_loop_cons. fold loop. fold one.
  assert (Hone : Forall (fun ev => exists f' e w',
                    In f' (f :: files) /\ fst (label f' w') = inl e /\
                    ev = PrintText (error_line h f' e))
                   (fst (fst (one true show_deleted by_workspace f (rs, w))))).
  { unfold one, parse_one. fold label.
    destruct (label f w) as [[e|r] w1] eqn:El; cbn [fst snd]; [|constructor].
    destruct (CliProofs.rprint_cases h (error_line h f e))
      as [[_ ->]|(msg & _ & ->)]; [|constructor].
    constructor; [|constructor]. exists f, e, w.
    split; [now left|]. split; [now rewrite El|reflexivity]. }
  destruct (snd (fst (one true show_deleted by_workspace f (rs, w))));
    [exact Hone|].
  cbn [fst snd after]. apply Forall_app. split; [exact Hone|].
  destruct (snd (one true show_deleted by_workspace f (rs, w))) as [rs1 w1].
  eapply Forall_impl; [|apply IH]. intros ev (f' & e & w' & Hin & Hl & ->).
  exists f', e, w'. split; [now right|]. auto.
Qed.

(** X19. The loop of the parse command, file by file. What a turn
    prints and how it ends does not depend on the results gathered
    before it. A turn keeps the result of its file exactly when the
    file parsed and could be labelled, also when the display of it
    raised, and leaves the world as the parser left it. With JSON output
    the loop prints nothing but error lines of files that failed. The
    loop takes the files in order; the results it has gathered are
    those of the files taken, in order, and are those of all files when
    it returns; it ends early only on the [MarkupError] of the error
    line of the last file taken. *)
Theorem parse_loop_prints_by_file (json_output : bool) :
  (forall f rs w,
     fst (one json_output show_deleted by_workspace f (rs, w)) =
     fst (one json_output show_deleted by_workspace f ([], w))) /\
  (forall f rs w,
     snd (one json_output show_deleted by_workspace f (rs, w)) =
     ((rs ++ kept [fst (label f w)])%list, snd (label f w))) /\
  (forall files rs w,
     json_output = true ->
     Forall (fun ev => exists f e w',
               In f files /\ fst (label f w') = inl e /\
               ev = PrintText (error_line h f e))
            (fst (fst (loop json_output show_deleted by_workspace files
                         (rs, w))))) /\
  (forall files rs w,
     exists taken rest added more,
       files = (taken ++ rest)%list /\
       fst (snd (loop json_output show_deleted by_workspace files (rs, w)))
       = (rs ++ added)%list /\
       kept (tried files w) = (added ++ more)%list /\
       match snd (fst (loop json_output show_deleted by_workspace files
                         (rs, w))) with
       | inr _ => rest = [] /\ more = []
       | inl x =>
           exists before f e msg,
             taken = (before ++ [f])%list /\ x = MarkupError msg /\
             markup_error h (error_line h f e) = Some msg
       end).
Proof.
  split; [|split; [|split]].
  - intros f rs w. unfold one, parse_one.
    now destruct (parse_and_label _ _ _ _ _ f w) as [[e|r] w1].
  - intros f rs w. apply CliProofs.parse_one_state.
  - intros files rs w ->. apply parse_loop_json_prints.
  - intros files rs w. apply CliProofs.parse_loop_outcome.
Qed.

End LoopPrints.

(** *** The properties at work on the examples *)

Lemma display_by_window_counts_and_hides_witness :
  exists trees ending,
    display_by_window example_runtime example_result false = (trees, ending) /\
    Forall (fun t => tree_tab_count t = List.length (tree_rows t)) trees /\
    Forall (fun t => tree_status t <> StatusDeleted /\
                     Forall (fun r => row_deleted r = false) (tree_rows t))
           trees.
Proof.
  eexists. eexists. split; [reflexivity|].
  destruct (@display_by_window_counts_and_hides example_runtime example_result
              false _ _ eq_refl) as [Hcount Hhide].
  split; [exact Hcount|exact (Hhide eq_refl)].
Defined.


Lemma summary_tally_adds_up_witness :
  exists t,
    summary_tally example_result = inr t /\
    (deleted_tabs t <= total_tabs t)%nat /\
    sum_counts (ws_counts t) = Z.of_nat (total_tabs t).
Proof.
  eexists. split; [reflexivity|].
  destruct (@summary_tally_adds_up example_result _ eq_refl)
    as (Hdel & Hsum & _).
  split; [exact Hdel|exact Hsum].
Defined.

Lemma files_to_parse_of_cases_witness :
  files_to_parse_of example_is_dir example_exists example_scandir example_stat
    (Some ["/x/Session_9"]) example_work 3 = inr ["/x/Session_9"].
Proof.
  exact (proj1 (files_to_parse_of_cases example_is_dir example_exists
                  example_scandir example_stat
                  (Some ["/x/Session_9"]) example_work 3)
           "/x/Session_9" [] eq_refl).
Defined.

(** "Tabs_1" is an entry that matches a pattern; "Preferences" is an
    entry that matches none; "Current Session" exists. *)
Lemma list_session_files_lists_sessions_witness :
  exists files,
    list_session_files example_is_dir example_exists example_scandir
      example_stat "/v/Work/Sessions" = inr files /\
    In "/v/Work/Sessions/Tabs_1" files /\
    In "/v/Work/Sessions/Current Session" files /\
    ~ In "/v/Work/Sessions/Preferences" files.
Proof.
  eexists. split; [reflexivity|].
  pose proof (@list_session_files_lists_sessions example_is_dir example_exists
                example_scandir example_stat "/v/Work/Sessions" _ eq_refl)
    as Hiff.
  split; [|split].
  - apply Hiff. split; [reflexivity|]. exists "Tabs_1".
    split; [reflexivity|]. left. split; [simpl; auto|reflexivity].
  - apply Hiff. split; [reflexivity|]. exists "Current Session".
    split; [reflexivity|]. right. split; reflexivity.
  - intros Hin. apply Hiff in Hin. destruct Hin as (_ & n & Heq & Hcase).
    unfold joinpath in Heq. simpl in Heq. injection Heq as <-.
    destruct Hcase as [[_ H]|[H _]]; discriminate.
Defined.

(** Two files of one time stamp: "Session_1" is found before
    "Session_2" and stays before it. *)
Lemma list_session_files_keeps_ties_witness :
  exists files,
    list_session_files example_is_dir example_exists
      (fun _ => ["Session_1"; "Tabs_12"; "Session_2"])
      example_stat "/d" = inr files /\
    filter (fun f => (example_mtime f =? 12)%Z) files =
    ["/d/Session_1"; "/d/Session_2"].
Proof.
  eexists. split; [reflexivity|].
  exact (@list_session_files_keeps_ties example_is_dir example_exists
           (fun _ => ["Session_1"; "Tabs_12"; "Session_2"]) example_stat
           example_mtime "/d" _ 12%Z (fun f _ => eq_refl) eq_refl).
Defined.

Lemma get_selected_profile_is_a_profile_witness :
  In example_work (profiles example_browser).
Proof.
  exact (@get_selected_profile_is_a_profile lower_ascii example_browser
           (Some "work") example_work eq_refl).
Defined.

Lemma display_by_workspace_accounts_witness :
  exists groups,
    display_by_workspace example_runtime example_result false
    = (groups, inr tt) /\
    Forall (fun g => group_of example_runtime
                       (filter (filed_under false (group_label g))
                               (result_tabs example_result)) g) groups /\
    list_sum (map group_count groups) = 3%nat.
Proof.
  eexists. split; [reflexivity|].
  destruct (@display_by_workspace_accounts example_runtime example_result false
              _ _ eq_refl) as (Hof & _ & Hsum).
  split; [exact Hof|exact (Hsum eq_refl)].
Defined.

Lemma display_by_workspace_in_order_witness :
  exists groups named last,
    display_by_workspace example_runtime example_result true
    = (groups, inr tt) /\
    groups = (named ++ last)%list /\
    Sorted (fun a b => label_le (group_label a) (group_label b) = true) named.
Proof.
  destruct (@display_by_workspace_in_order example_runtime example_result true
              _ _ eq_refl) as (named & last & Hsplit & Hsorted & _).
  eexists. exists named, last.
  split; [reflexivity|]. split; [exact Hsplit|exact Hsorted].
Defined.

Lemma summary_tally_counts_tabs_witness :
  exists t,
    summary_tally example_result = inr t /\
    total_tabs t = 5%nat /\ (total_tabs t - deleted_tabs t)%nat = 3%nat.
Proof.
  eexists. split; [reflexivity|].
  destruct (@summary_tally_counts_tabs example_result _ eq_refl)
    as (Htotal & Hactive & _).
  split; [exact Htotal|exact Hactive].
Defined.

Lemma summary_agrees_with_display_by_workspace_witness :
  exists t groups,
    summary_tally example_result = inr t /\
    display_by_workspace example_runtime example_result false
    = (groups, inr tt) /\
    list_sum (map group_count groups) = (total_tabs t - deleted_tabs t)%nat.
Proof.
  eexists. eexists. split; [reflexivity|]. split; [reflexivity|].
  exact (@summary_agrees_with_display_by_workspace example_runtime
           example_result _ false _ eq_refl eq_refl).
Defined.

End CliMore.
